(** * pkger: the package service (dry run, apply, rollback, clone)

    A shallow embedding of [pkger/service.go]: the dry-run differ, the
    applier builders with their rollback handlers, the rollback coordinator
    with its error stream, and the ordering step that ends [CreatePkg].

    Conventions of the embedding.
    - A Go map is a [gmap]; ranging over it is [map_to_list].
    - A slice of pointers into the package ([[]*bucket], ...) is the list
      the package keeps for that kind, and the pointer [buckets[i]] is the
      index [i] into it.
    - The resource services are interfaces: their behaviour is a parameter
      ([Ports]) acting on an abstract platform state, and every call made
      through a port is appended to a call log together with its outcome.
    - Helpers of the package model that are declared in other files of the
      package are gathered in [PkgOps].
    - The goroutines of a group are interleaved worker by worker: the body
      of a worker runs to its end before the body of the next one starts,
      in an order an oracle chooses among the workers the semaphore admits.
      The oracle also says when the parent context is cancelled and when
      the aggregating goroutine of the error stream notices it.  Time is
      not modelled: the per-worker timeout of thirty seconds never fires
      on its own, a cancelled context is the only way a worker sees
      [ctx.Done()]. *)

From Stdlib Require Import String Ascii ZArith NArith List Sorting Permutation Lia Bool.
From Stdlib Require Import OrderedTypeEx.
From stdpp Require Import gmap strings list fin_maps.

Local Open Scope string_scope.
Local Open Scope list_scope.

(** ** Strings are ordered as Go orders them: bytewise, lexicographically *)

Module StrOrd.

Definition lt (a b : string) : bool := String.ltb a b.
Definition le (a b : string) : bool := String.leb a b.

End StrOrd.

(** ** [sort.Slice]

    The library sorts a slice in place and promises no stability.  For the
    short slices it sorts by insertion, moving each element towards the
    front while it is less than its predecessor; the model follows that
    loop.  The sorted prefix is kept reversed, its last element first. *)

Section SortSlice.
Context {A : Type} (less : A -> A -> bool).

(** for j := i; j > a && less(j, j-1); j-- { swap(j, j-1) } *)
Fixpoint sift (x : A) (rp : list A) : list A :=
  match rp with
  | [] => [x]
  | y :: rp' => if less x y then y :: sift x rp' else x :: rp
  end.

Definition sort_Slice (l : list A) : list A :=
  rev (fold_left (fun rp x => sift x rp) l []).

(** [b] may follow [a] in a sorted slice: [b] is not less than [a]. *)
Definition not_after (a b : A) : Prop := less b a = false.

End SortSlice.

(** ** Kinds and the ordering step of [CreatePkg] *)

(** The kinds the service distinguishes.  [Kind] is a string type in the
    package; [k.is(k')] compares two kinds, here by equality. *)
Inductive Kind :=
| KindUnknown
| KindBucket
| KindDashboard
| KindLabel
| KindNotificationEndpoint
| KindNotificationEndpointHTTP
| KindNotificationEndpointPagerDuty
| KindNotificationEndpointSlack
| KindPackage
| KindTelegraf
| KindVariable.

#[global] Instance Kind_eq_dec : EqDecision Kind.
Proof. solve_decision. Defined.

Definition Kind_is (k k' : Kind) : bool := bool_decide (k = k').

(** A resource of a package document, as far as [CreatePkg] orders it:
    its [kind()] and its [Name()]. *)
Record Resource := mkResource {
  res_kind : Kind;
  res_name : string
}.

(** var kindPriorities = map[Kind]int{...}: the entries of the literal. *)
Definition kindPriorities_entries : list (Kind * Z) :=
  [ (KindLabel, 1%Z); (KindBucket, 2%Z); (KindVariable, 3%Z); (KindDashboard, 4%Z) ].

(** Indexing a Go map with a key it does not hold yields the zero value. *)
Fixpoint map_index (entries : list (Kind * Z)) (k : Kind) : Z :=
  match entries with
  | [] => 0%Z
  | (k', p) :: rest => if Kind_is k k' then p else map_index rest k
  end.

Definition kindPriorities (k : Kind) : Z := map_index kindPriorities_entries k.

(** The comparison handed to [sort.Slice] at the end of [CreatePkg]. *)
Definition resource_less (ri rj : Resource) : bool :=
  let iName := res_name ri in
  let jName := res_name rj in
  let iKind := res_kind ri in
  let jKind := res_kind rj in
  if Kind_is iKind jKind then StrOrd.lt iName jName
  else (kindPriorities iKind <? kindPriorities jKind)%Z.

(** [CreatePkg] from the point where the resources have been cloned, made
    unique and validated: the list is sorted and becomes the package's. *)
Definition CreatePkg_sort (resources : list Resource) : list Resource :=
  sort_Slice resource_less resources.

(** The order the priority table is documented to give. *)
Definition documented_priority (k : Kind) : Z :=
  match k with
  | KindLabel => 1
  | KindBucket => 2
  | KindVariable => 3
  | KindDashboard => 4
  | KindNotificationEndpoint
  | KindNotificationEndpointHTTP
  | KindNotificationEndpointPagerDuty
  | KindNotificationEndpointSlack => 5
  | KindTelegraf => 6
  | _ => 0
  end%Z.

(** [b] may follow [a]: lower priority first, equal kinds by name. *)
Definition documented_order (a b : Resource) : Prop :=
  (documented_priority (res_kind a) < documented_priority (res_kind b))%Z \/
  (res_kind a = res_kind b /\ StrOrd.le (res_name a) (res_name b) = true).

(** ** Platform types (package [influxdb])

    Only the fields the service reads or writes are kept. *)

Definition ID := N.                 (* influxdb.ID *)
Definition Duration := Z.           (* time.Duration *)
Definition ResourceType := string.  (* influxdb.ResourceType *)

Record Bucket := mkBucket {
  Bucket_ID : ID;
  Bucket_OrgID : ID;
  Bucket_Name : string;
  Bucket_Description : string;
  Bucket_RetentionPeriod : Duration
}.

(** Both fields are pointers; the service always fills them. *)
Record BucketUpdate := mkBucketUpdate {
  BucketUpdate_Description : option string;
  BucketUpdate_RetentionPeriod : option Duration
}.

Definition Properties := list (string * string).   (* map[string]string *)

Record Label := mkLabel {
  Label_ID : ID;
  Label_OrgID : ID;
  Label_Name : string;
  Label_Properties : Properties
}.

Record LabelUpdate := mkLabelUpdate {
  LabelUpdate_Properties : Properties
}.

Record LabelMapping := mkLabelMapping {
  LabelMapping_LabelID : ID;
  LabelMapping_ResourceID : ID;
  LabelMapping_ResourceType : ResourceType
}.

Record VariableArguments := mkVariableArguments {
  VariableArguments_Type : string;
  VariableArguments_Values : list string
}.

(** [influxdb.Variable]; [Variable] is reserved. *)
Record InfluxVariable := mkVariable {
  Variable_ID : ID;
  Variable_OrganizationID : ID;
  Variable_Name : string;
  Variable_Description : string;
  Variable_Arguments : option VariableArguments
}.

Record VariableUpdate := mkVariableUpdate {
  VariableUpdate_Description : string;
  VariableUpdate_Arguments : option VariableArguments
}.

Record SecretField := mkSecretField { SecretField_Key : string }.

(** [influxdb.NotificationEndpoint] is an interface; the record stands for
    a value behind it with what its getters return. *)
Record NotificationEndpoint := mkNotificationEndpoint {
  NotificationEndpoint_ID : ID;
  NotificationEndpoint_OrgID : ID;
  NotificationEndpoint_Name : string;
  NotificationEndpoint_Description : string;
  NotificationEndpoint_Status : string;
  NotificationEndpoint_URL : string;
  NotificationEndpoint_SecretFields : list SecretField
}.

Record TelegrafConfig := mkTelegrafConfig {
  TelegrafConfig_ID : ID;
  TelegrafConfig_OrgID : ID;
  TelegrafConfig_Name : string;
  TelegrafConfig_Description : string
}.

Record View := mkView {
  View_Name : string;
  View_Properties : string
}.

Record Cell := mkCell {
  Cell_X : Z; Cell_Y : Z; Cell_H : Z; Cell_W : Z;
  Cell_View : View
}.

Record Dashboard := mkDashboard {
  Dashboard_ID : ID;
  Dashboard_OrganizationID : ID;
  Dashboard_Name : string;
  Dashboard_Description : string;
  Dashboard_Cells : list Cell
}.

(** ** Errors

    An [error] value is kept structured; [Error()] is its message where the
    service reads it. *)

Record applyErrBody := mkApplyErrBody {
  aeb_name : string;
  aeb_msg : string
}.

Inductive error :=
| PortError (msg : string)
    (* an error handed back by a resource service or by Validate *)
| ParseError (msg : string)
    (* a validation error that IsParseErr recognises *)
| SecretsMissing (missing : list string)
    (* "secrets to not exist for secret reference keys: ..." *)
| ApplyFailed (errs : list (string * list applyErrBody))
    (* the joined per-resource errors that the error stream emits *)
| RollbackFailed (resource : string) (ids : list string)
    (* `..._ids=[...] err="unable to delete ..."` *)
| RollbackMappingsFailed (pairs : list string).
    (* `label_resource_id_pairs=[...] err="unable to delete label"` *)

(** err.Error(), where the service reads the message of a port's error *)
Definition error_Error (e : error) : string :=
  match e with
  | PortError msg => msg
  | ParseError msg => msg
  | SecretsMissing _ => "secrets to not exist for secret reference keys"
  | ApplyFailed _ => "failed to create"
  | RollbackFailed _ _ => "unable to delete"
  | RollbackMappingsFailed _ => "unable to delete label"
  end.

Definition IsParseErr (e : error) : bool :=
  match e with ParseError _ => true | _ => false end.

(** The result of a call that returns a value and an error. *)
Inductive result (A : Type) :=
| Ok (a : A)
| Failed (e : error).
Arguments Ok {A} a.
Arguments Failed {A} e.

Definition is_Ok {A} (r : result A) : bool :=
  match r with Ok _ => true | Failed _ => false end.

(** ** Package types (package [pkger])

    The records of a parsed package.  [existing] is the slot the dry run
    fills; [id] and [OrgID] are stamped by apply.  A record's label
    associations point at labels of the same package and are kept by the
    label's name. *)

Record bucket := mkbucket {
  bucket_id : ID;
  bucket_OrgID : ID;
  bucket_Description : string;
  bucket_name : string;
  bucket_RetentionRules : list Z;      (* the Seconds of each rule *)
  bucket_labels : list string;
  bucket_existing : option Bucket
}.

(** The association of a label with a resource of the package, as
    [setMapping] records it and [labelMappings()] reports it. *)
Record labelMapRec := mkLabelMapRec {
  lmr_resType : ResourceType;
  lmr_resName : string;
  lmr_exists : bool
}.

Record label := mklabel {
  label_id : ID;
  label_OrgID : ID;
  label_name : string;
  label_Color : string;
  label_Description : string;
  label_mappings : list labelMapRec;
  label_existing : option Label
}.

Record variable := mkvariable {
  variable_id : ID;
  variable_OrgID : ID;
  variable_name : string;
  variable_Description : string;
  variable_args : option VariableArguments;
  variable_labels : list string;
  variable_existing : option InfluxVariable
}.

Record references := mkreferences { references_Secret : string }.

Record notificationEndpoint := mknotificationEndpoint {
  endpoint_id : ID;
  endpoint_OrgID : ID;
  endpoint_name : string;
  endpoint_description : string;
  endpoint_status : string;
  endpoint_url : string;
  endpoint_routingKey : references;
  endpoint_token : references;
  endpoint_username : references;
  endpoint_password : references;
  endpoint_labels : list string;
  endpoint_existing : option NotificationEndpoint
}.

Record telegraf := mktelegraf {
  telegraf_config : TelegrafConfig;
  telegraf_labels : list string
}.

Record chart := mkchart {
  chart_Name : string;
  chart_XPos : Z; chart_YPos : Z; chart_Height : Z; chart_Width : Z;
  chart_properties : string
}.

Record dashboard := mkdashboard {
  dashboard_id : ID;
  dashboard_OrgID : ID;
  dashboard_name : string;
  dashboard_Description : string;
  dashboard_Charts : list chart;
  dashboard_labels : list string
}.

(** The package.  Each list is in the order in which the accessor of that
    kind ([pkg.buckets()], [pkg.labels()], ...) returns its pointers, so
    that position [i] is the pointer the appliers index.  [pkg.mLabels[n]]
    is the label named [n]; [pkg.mDashboards] and [pkg.mTelegrafs] hold the
    pointers of [pLabels]'s sibling lists [pDashboards] and [pTelegrafs]. *)
Record Pkg := mkPkg {
  isParsed : bool;
  isVerified : bool;
  pBuckets : list bucket;
  pLabels : list label;
  pDashboards : list dashboard;
  pEndpoints : list notificationEndpoint;
  pTelegrafs : list telegraf;
  pVariables : list variable;
  pSecrets : gset string               (* pkg.secrets(): the referenced keys *)
}.

(** ** Diff and summary *)

Record DiffBucket := mkDiffBucket {
  DiffBucket_IsNew : bool;
  DiffBucket_Name : string;
  DiffBucket_New : bucket;
  DiffBucket_Old : option Bucket
}.

Record DiffLabel := mkDiffLabel {
  DiffLabel_IsNew : bool;
  DiffLabel_Name : string;
  DiffLabel_New : label;
  DiffLabel_Old : option Label
}.

Record DiffVariable := mkDiffVariable {
  DiffVariable_IsNew : bool;
  DiffVariable_Name : string;
  DiffVariable_New : variable;
  DiffVariable_Old : option InfluxVariable
}.

Record DiffNotificationEndpoint := mkDiffNotificationEndpoint {
  DiffNotificationEndpoint_IsNew : bool;
  DiffNotificationEndpoint_Name : string;
  DiffNotificationEndpoint_New : notificationEndpoint;
  DiffNotificationEndpoint_Old : option NotificationEndpoint
}.

Record DiffDashboard := mkDiffDashboard {
  DiffDashboard_Name : string;
  DiffDashboard_Desc : string;
  DiffDashboard_Charts : list chart
}.

Record DiffTelegraf := mkDiffTelegraf {
  DiffTelegraf_Config : TelegrafConfig
}.

Record DiffLabelMapping := mkDiffLabelMapping {
  DiffLabelMapping_IsNew : bool;
  DiffLabelMapping_ResType : ResourceType;
  DiffLabelMapping_ResID : ID;
  DiffLabelMapping_ResName : string;
  DiffLabelMapping_LabelID : ID;
  DiffLabelMapping_LabelName : string
}.

Record Diff := mkDiff {
  Diff_Buckets : list DiffBucket;
  Diff_Dashboards : list DiffDashboard;
  Diff_Labels : list DiffLabel;
  Diff_LabelMappings : list DiffLabelMapping;
  Diff_NotificationEndpoints : list DiffNotificationEndpoint;
  Diff_Telegrafs : list DiffTelegraf;
  Diff_Variables : list DiffVariable
}.

Definition Diff_empty : Diff := mkDiff [] [] [] [] [] [] [].

Record SummaryLabelMapping := mkSummaryLabelMapping {
  slm_exists : bool;
  slm_ResourceName : string;
  slm_LabelName : string;
  slm_LabelID : ID;
  slm_ResourceID : ID;
  slm_ResourceType : ResourceType
}.

(** ** The resource services

    Every operation the service invokes on a port, with its arguments. *)
Inductive Call :=
| CFindBucketByName (orgID : ID) (name : string)
| CCreateBucket (b : Bucket)
| CUpdateBucket (id : ID) (upd : BucketUpdate)
| CDeleteBucket (id : ID)
| CCreateDashboard (d : Dashboard)
| CDeleteDashboard (id : ID)
| CFindLabels (name : string) (orgID : ID)
| CCreateLabel (l : Label)
| CUpdateLabel (id : ID) (upd : LabelUpdate)
| CDeleteLabel (id : ID)
| CFindResourceLabels (resourceID : ID) (resourceType : ResourceType)
| CCreateLabelMapping (m : LabelMapping)
| CDeleteLabelMapping (m : LabelMapping)
| CFindNotificationEndpoints (orgID : ID)
| CCreateNotificationEndpoint (e : NotificationEndpoint) (userID : ID)
| CUpdateNotificationEndpoint (id : ID) (e : NotificationEndpoint) (userID : ID)
| CDeleteNotificationEndpoint (id : ID)
| CGetSecretKeys (orgID : ID)
| CCreateTelegrafConfig (cfg : TelegrafConfig) (userID : ID)
| CDeleteTelegrafConfig (id : ID)
| CFindVariables (orgID : ID)
| CCreateVariable (v : InfluxVariable)
| CUpdateVariable (id : ID) (upd : VariableUpdate)
| CDeleteVariable (id : ID).

(** The calls that write to the platform. *)
Definition mutating (c : Call) : bool :=
  match c with
  | CFindBucketByName _ _ | CFindLabels _ _ | CFindResourceLabels _ _
  | CFindNotificationEndpoints _ | CGetSecretKeys _ | CFindVariables _ => false
  | _ => true
  end.

(** A context, as far as the model sees it: whether it is done. *)
Definition context := bool.
Definition context_Background : context := false.

(** The behaviour of the ports on a platform state [W].  A call receives
    the context it is made under; a create call answers with the resource
    as the platform stored it (its ID filled in). *)
Record Ports (W : Type) := mkPorts {
  FindBucketByName : W -> context -> ID -> string -> W * result Bucket;
  CreateBucket : W -> context -> Bucket -> W * result Bucket;
  UpdateBucket : W -> context -> ID -> BucketUpdate -> W * result Bucket;
  DeleteBucket : W -> context -> ID -> W * result unit;
  CreateDashboard : W -> context -> Dashboard -> W * result Dashboard;
  DeleteDashboard : W -> context -> ID -> W * result unit;
  FindLabels : W -> context -> string -> ID -> W * result (list Label);
  CreateLabel : W -> context -> Label -> W * result Label;
  UpdateLabel : W -> context -> ID -> LabelUpdate -> W * result Label;
  DeleteLabel : W -> context -> ID -> W * result unit;
  FindResourceLabels : W -> context -> ID -> ResourceType -> W * result (list Label);
  CreateLabelMapping : W -> context -> LabelMapping -> W * result unit;
  DeleteLabelMapping : W -> context -> LabelMapping -> W * result unit;
  FindNotificationEndpoints : W -> context -> ID -> W * result (list NotificationEndpoint);
  CreateNotificationEndpoint :
    W -> context -> NotificationEndpoint -> ID -> W * result NotificationEndpoint;
  UpdateNotificationEndpoint :
    W -> context -> ID -> NotificationEndpoint -> ID -> W * result NotificationEndpoint;
  DeleteNotificationEndpoint : W -> context -> ID -> W * result unit;
  GetSecretKeys : W -> context -> ID -> W * result (list string);
  CreateTelegrafConfig : W -> context -> TelegrafConfig -> ID -> W * result TelegrafConfig;
  DeleteTelegrafConfig : W -> context -> ID -> W * result unit;
  FindVariables : W -> context -> ID -> W * result (list InfluxVariable);
  CreateVariable : W -> context -> InfluxVariable -> W * result InfluxVariable;
  UpdateVariable : W -> context -> ID -> VariableUpdate -> W * result InfluxVariable;
  DeleteVariable : W -> context -> ID -> W * result unit
}.

(** ** Helpers of the package model

    What [labelAssociater] exposes of a resource. *)
Record labelAssociater := mkLabelAssociater {
  la_ID : ID;
  la_Name : string;
  la_Labels : list string;
  la_ResourceType : ResourceType;
  la_Exists : bool
}.

(** The methods and constructors that the service calls and that the
    package declares in its other files.  The service is embedded over any
    reading of them. *)
Record PkgOps := mkPkgOps {
  ID_String : ID -> string;                  (* id.String() *)
  Summary : Type;
  Summary_zero : Summary;                    (* Summary{} *)
  pkg_Summary : Pkg -> Summary;              (* pkg.Summary() *)
  pkg_Validate : Pkg -> Pkg * option error;  (* pkg.Validate() *)
  pkg_labelMappings : Pkg -> list SummaryLabelMapping;
  bucket_ID : bucket -> ID;
  label_ID : label -> ID;
  variable_ID : variable -> ID;
  endpoint_ID : notificationEndpoint -> ID;
  dashboard_ID : dashboard -> ID;
  telegraf_ID : telegraf -> ID;
  bucket_shouldApply : bucket -> bool;
  label_shouldApply : label -> bool;
  variable_shouldApply : variable -> bool;
  retentionRules_RP : list Z -> Duration;
  label_properties : label -> Properties;
  label_toInfluxLabel : label -> Label;
  variable_influxVarArgs : variable -> option VariableArguments;
  endpoint_summarize : notificationEndpoint -> NotificationEndpoint;
  chart_to_properties : chart -> string;
  label_setMapping : label -> labelAssociater -> bool -> label;
  mapperBuckets : bucket -> labelAssociater;
  mapperDashboards : dashboard -> labelAssociater;
  mapperNotificationEndpoints : notificationEndpoint -> labelAssociater;
  mapperTelegrafs : telegraf -> labelAssociater;
  mapperVariables : variable -> labelAssociater;
  newDiffBucket : bucket -> option Bucket -> DiffBucket;
  newDiffDashboard : dashboard -> DiffDashboard;
  newDiffLabel : label -> option Label -> DiffLabel;
  newDiffNotificationEndpoint :
    notificationEndpoint -> option NotificationEndpoint -> DiffNotificationEndpoint;
  newDiffTelegraf : telegraf -> DiffTelegraf;
  newDiffVariable : variable -> option InfluxVariable -> DiffVariable
}.

(** ** State and the state monad *)

Definition ST (S A : Type) : Type := S -> A * S.

Definition ret {S A} (a : A) : ST S A := fun s => (a, s).
Definition bind {S A B} (m : ST S A) (k : A -> ST S B) : ST S B :=
  fun s => let (a, s') := m s in k a s'.
Definition gets {S A} (f : S -> A) : ST S A := fun s => (f s, s).
Definition modify {S} (f : S -> S) : ST S unit := fun s => (tt, f s).

Declare Scope st_scope.
Delimit Scope st_scope with st.
Notation "x <- m ;; k" := (bind m (fun x => k))
  (at level 100, m at next level, right associativity) : st_scope.
Notation "m ;;; k" := (bind m (fun _ => k))
  (at level 100, right associativity) : st_scope.
Local Open Scope st_scope.

(** for _, x := range l { ... }, collecting what each turn yields *)
Fixpoint mapM {S A B} (f : A -> ST S B) (l : list A) : ST S (list B) :=
  match l with
  | [] => ret []
  | x :: l' => y <- f x ;; ys <- mapM f l' ;; ret (y :: ys)
  end.

(** The same, stopping at the first turn that fails. *)
Fixpoint mapM_err {S A B} (f : A -> ST S (result B)) (l : list A)
  : ST S (result (list B)) :=
  match l with
  | [] => ret (Ok [])
  | x :: l' =>
      r <- f x ;;
      match r with
      | Failed e => ret (Failed e)
      | Ok y =>
          rs <- mapM_err f l' ;;
          match rs with
          | Failed e => ret (Failed e)
          | Ok ys => ret (Ok (y :: ys))
          end
      end
  end.

(** The rollback list of every applier: pointers into the package, or for
    the label mappings the mappings themselves. *)
Record RollbackLists := mkRollbackLists {
  rollbackBuckets_ : list nat;
  rollbackDashboards_ : list nat;
  rollBackLabels_ : list nat;
  rollbackEndpoints_ : list nat;
  rollbackTelegrafs_ : list nat;
  rollBackVars_ : list nat;
  rollbackMappings_ : list LabelMapping
}.

Definition RollbackLists_empty : RollbackLists := mkRollbackLists [] [] [] [] [] [] [].

(** What the workers of an apply share: the platform behind the ports, the
    log of the calls made, the package, and the rollback lists. *)
Record Sys (W : Type) := mkSys {
  world : W;
  calls : list (Call * bool);
  pkg : Pkg;
  rbl : RollbackLists
}.
Arguments mkSys {W}.
Arguments world {W}.
Arguments calls {W}.
Arguments pkg {W}.
Arguments rbl {W}.

Definition set_pkg {W} (f : Pkg -> Pkg) (s : Sys W) : Sys W :=
  mkSys (world s) (calls s) (f (pkg s)) (rbl s).
Definition set_rbl {W} (f : RollbackLists -> RollbackLists) (s : Sys W) : Sys W :=
  mkSys (world s) (calls s) (pkg s) (f (rbl s)).

(** A call through a port: the platform moves and the call is logged with
    whether it succeeded. *)
Definition invoke {W A} (c : Call) (f : W -> W * result A) : ST (Sys W) (result A) :=
  fun s =>
    let (w', r) := f (world s) in
    (r, mkSys w' (calls s ++ [(c, is_Ok r)]) (pkg s) (rbl s)).

Definition with_pBuckets (l : list bucket) (p : Pkg) : Pkg :=
  mkPkg (isParsed p) (isVerified p) l (pLabels p) (pDashboards p) (pEndpoints p)
        (pTelegrafs p) (pVariables p) (pSecrets p).
Definition with_pLabels (l : list label) (p : Pkg) : Pkg :=
  mkPkg (isParsed p) (isVerified p) (pBuckets p) l (pDashboards p) (pEndpoints p)
        (pTelegrafs p) (pVariables p) (pSecrets p).
Definition with_pDashboards (l : list dashboard) (p : Pkg) : Pkg :=
  mkPkg (isParsed p) (isVerified p) (pBuckets p) (pLabels p) l (pEndpoints p)
        (pTelegrafs p) (pVariables p) (pSecrets p).
Definition with_pEndpoints (l : list notificationEndpoint) (p : Pkg) : Pkg :=
  mkPkg (isParsed p) (isVerified p) (pBuckets p) (pLabels p) (pDashboards p) l
        (pTelegrafs p) (pVariables p) (pSecrets p).
Definition with_pTelegrafs (l : list telegraf) (p : Pkg) : Pkg :=
  mkPkg (isParsed p) (isVerified p) (pBuckets p) (pLabels p) (pDashboards p)
        (pEndpoints p) l (pVariables p) (pSecrets p).
Definition with_pVariables (l : list variable) (p : Pkg) : Pkg :=
  mkPkg (isParsed p) (isVerified p) (pBuckets p) (pLabels p) (pDashboards p)
        (pEndpoints p) (pTelegrafs p) l (pSecrets p).
Definition with_isVerified (b : bool) (p : Pkg) : Pkg :=
  mkPkg (isParsed p) b (pBuckets p) (pLabels p) (pDashboards p)
        (pEndpoints p) (pTelegrafs p) (pVariables p) (pSecrets p).

Definition bucket_with_existing (e : option Bucket) (b : bucket) : bucket :=
  mkbucket (bucket_id b) (bucket_OrgID b) (bucket_Description b) (bucket_name b)
           (bucket_RetentionRules b) (bucket_labels b) e.
Definition label_with_existing (e : option Label) (l : label) : label :=
  mklabel (label_id l) (label_OrgID l) (label_name l) (label_Color l)
          (label_Description l) (label_mappings l) e.
Definition variable_with_existing (e : option InfluxVariable) (v : variable) : variable :=
  mkvariable (variable_id v) (variable_OrgID v) (variable_name v) (variable_Description v)
             (variable_args v) (variable_labels v) e.
Definition endpoint_with_existing (e : option NotificationEndpoint)
  (n : notificationEndpoint) : notificationEndpoint :=
  mknotificationEndpoint (endpoint_id n) (endpoint_OrgID n) (endpoint_name n)
    (endpoint_description n) (endpoint_status n) (endpoint_url n)
    (endpoint_routingKey n) (endpoint_token n) (endpoint_username n)
    (endpoint_password n) (endpoint_labels n) e.

(** ** The service *)

Section Service.
Context {W : Type} (P : Ports W) (O : PkgOps).


(** *** The calls, each logged *)

Definition svc_FindBucketByName (ctx : context) (orgID : ID) (name : string) :=
  invoke (CFindBucketByName orgID name) (fun w => FindBucketByName W P w ctx orgID name).
Definition svc_CreateBucket (ctx : context) (b : Bucket) :=
  invoke (CCreateBucket b) (fun w => CreateBucket W P w ctx b).
Definition svc_UpdateBucket (ctx : context) (id : ID) (upd : BucketUpdate) :=
  invoke (CUpdateBucket id upd) (fun w => UpdateBucket W P w ctx id upd).
Definition svc_DeleteBucket (ctx : context) (id : ID) :=
  invoke (CDeleteBucket id) (fun w => DeleteBucket W P w ctx id).
Definition svc_CreateDashboard (ctx : context) (d : Dashboard) :=
  invoke (CCreateDashboard d) (fun w => CreateDashboard W P w ctx d).
Definition svc_DeleteDashboard (ctx : context) (id : ID) :=
  invoke (CDeleteDashboard id) (fun w => DeleteDashboard W P w ctx id).
Definition svc_FindLabels (ctx : context) (name : string) (orgID : ID) :=
  invoke (CFindLabels name orgID) (fun w => FindLabels W P w ctx name orgID).
Definition svc_CreateLabel (ctx : context) (l : Label) :=
  invoke (CCreateLabel l) (fun w => CreateLabel W P w ctx l).
Definition svc_UpdateLabel (ctx : context) (id : ID) (upd : LabelUpdate) :=
  invoke (CUpdateLabel id upd) (fun w => UpdateLabel W P w ctx id upd).
Definition svc_DeleteLabel (ctx : context) (id : ID) :=
  invoke (CDeleteLabel id) (fun w => DeleteLabel W P w ctx id).
Definition svc_FindResourceLabels (ctx : context) (rid : ID) (rt : ResourceType) :=
  invoke (CFindResourceLabels rid rt) (fun w => FindResourceLabels W P w ctx rid rt).
Definition svc_CreateLabelMapping (ctx : context) (m : LabelMapping) :=
  invoke (CCreateLabelMapping m) (fun w => CreateLabelMapping W P w ctx m).
Definition svc_DeleteLabelMapping (ctx : context) (m : LabelMapping) :=
  invoke (CDeleteLabelMapping m) (fun w => DeleteLabelMapping W P w ctx m).
Definition svc_FindNotificationEndpoints (ctx : context) (orgID : ID) :=
  invoke (CFindNotificationEndpoints orgID)
         (fun w => FindNotificationEndpoints W P w ctx orgID).
Definition svc_CreateNotificationEndpoint (ctx : context) (e : NotificationEndpoint)
  (userID : ID) :=
  invoke (CCreateNotificationEndpoint e userID)
         (fun w => CreateNotificationEndpoint W P w ctx e userID).
Definition svc_UpdateNotificationEndpoint (ctx : context) (id : ID)
  (e : NotificationEndpoint) (userID : ID) :=
  invoke (CUpdateNotificationEndpoint id e userID)
         (fun w => UpdateNotificationEndpoint W P w ctx id e userID).
Definition svc_DeleteNotificationEndpoint (ctx : context) (id : ID) :=
  invoke (CDeleteNotificationEndpoint id)
         (fun w => DeleteNotificationEndpoint W P w ctx id).
Definition svc_GetSecretKeys (ctx : context) (orgID : ID) :=
  invoke (CGetSecretKeys orgID) (fun w => GetSecretKeys W P w ctx orgID).
Definition svc_CreateTelegrafConfig (ctx : context) (cfg : TelegrafConfig) (userID : ID) :=
  invoke (CCreateTelegrafConfig cfg userID)
         (fun w => CreateTelegrafConfig W P w ctx cfg userID).
Definition svc_DeleteTelegrafConfig (ctx : context) (id : ID) :=
  invoke (CDeleteTelegrafConfig id) (fun w => DeleteTelegrafConfig W P w ctx id).
Definition svc_FindVariables (ctx : context) (orgID : ID) :=
  invoke (CFindVariables orgID) (fun w => FindVariables W P w ctx orgID).
Definition svc_CreateVariable (ctx : context) (v : InfluxVariable) :=
  invoke (CCreateVariable v) (fun w => CreateVariable W P w ctx v).
Definition svc_UpdateVariable (ctx : context) (id : ID) (upd : VariableUpdate) :=
  invoke (CUpdateVariable id upd) (fun w => UpdateVariable W P w ctx id upd).
Definition svc_DeleteVariable (ctx : context) (id : ID) :=
  invoke (CDeleteVariable id) (fun w => DeleteVariable W P w ctx id).

(** *** The dry run *)

(** for _, diff := range m { diffs = append(diffs, diff) } *)
Definition map_values {V} (m : gmap string V) : list V := (map_to_list m).*2.

(** sort.Slice(diffs, func(i, j int) bool { return diffs[i].Name < diffs[j].Name }) *)
Definition sort_by_name {A} (name : A -> string) (diffs : list A) : list A :=
  sort_Slice (fun x y => StrOrd.lt (name x) (name y)) diffs.

(** One turn of the loop of [dryRunBuckets]. *)
Definition dryRunBucket (ctx : context) (orgID : ID) (b : bucket)
  : ST (Sys W) (bucket * DiffBucket) :=
  r <- svc_FindBucketByName ctx orgID (bucket_name b) ;;
  match r with
  | Ok existingBkt =>
      let b' := bucket_with_existing (Some existingBkt) b in
      ret (b', newDiffBucket O b' (Some existingBkt))
  | Failed _ => ret (b, newDiffBucket O b None)
  end.

Definition dryRunBuckets (ctx : context) (orgID : ID) : ST (Sys W) (result (list DiffBucket)) :=
  bkts <- gets (fun s => pBuckets (pkg s)) ;;
  rs <- mapM (dryRunBucket ctx orgID) bkts ;;
  modify (set_pkg (with_pBuckets (rs.*1))) ;;;
  let mExistingBkts : gmap string DiffBucket :=
    fold_left (fun m r => <[bucket_name (fst r) := snd r]> m) rs ∅ in
  ret (Ok (sort_by_name DiffBucket_Name (map_values mExistingBkts))).

Definition dryRunDashboards (p : Pkg) : list DiffDashboard :=
  map (newDiffDashboard O) (pDashboards p).

(** One turn of the loop of [dryRunLabels]. *)
Definition dryRunLabel (ctx : context) (orgID : ID) (pkgLabel : label)
  : ST (Sys W) (label * DiffLabel) :=
  r <- svc_FindLabels ctx (label_name pkgLabel) orgID ;;
  match r with
  | Ok (existingLabel :: _) =>
      let l' := label_with_existing (Some existingLabel) pkgLabel in
      ret (l', newDiffLabel O l' (Some existingLabel))
  | _ => ret (pkgLabel, newDiffLabel O pkgLabel None)
  end.

Definition dryRunLabels (ctx : context) (orgID : ID) : ST (Sys W) (result (list DiffLabel)) :=
  labels <- gets (fun s => pLabels (pkg s)) ;;
  rs <- mapM (dryRunLabel ctx orgID) labels ;;
  modify (set_pkg (with_pLabels (rs.*1))) ;;;
  let mExistingLabels : gmap string DiffLabel :=
    fold_left (fun m r => <[label_name (fst r) := snd r]> m) rs ∅ in
  ret (Ok (sort_by_name DiffLabel_Name (map_values mExistingLabels))).

(** One turn of the second loop of [dryRunNotificationEndpoints]. *)
Definition dryRunNotificationEndpoint (mExisting : gmap string NotificationEndpoint)
  (newEndpoint : notificationEndpoint)
  : notificationEndpoint * DiffNotificationEndpoint :=
  match mExisting !! endpoint_name newEndpoint with
  | Some iExisting =>
      let e' := endpoint_with_existing (Some iExisting) newEndpoint in
      (e', newDiffNotificationEndpoint O e' (Some iExisting))
  | None => (newEndpoint, newDiffNotificationEndpoint O newEndpoint None)
  end.

Definition dryRunNotificationEndpoints (ctx : context) (orgID : ID)
  : ST (Sys W) (result (list DiffNotificationEndpoint)) :=
  r <- svc_FindNotificationEndpoints ctx orgID ;;
  match r with
  | Failed err => ret (Failed err)
  | Ok existingEndpoints =>
      let mExisting : gmap string NotificationEndpoint :=
        fold_left (fun m e => <[NotificationEndpoint_Name e := e]> m) existingEndpoints ∅ in
      endpoints <- gets (fun s => pEndpoints (pkg s)) ;;
      let rs := map (dryRunNotificationEndpoint mExisting) endpoints in
      modify (set_pkg (with_pEndpoints (rs.*1))) ;;;
      let mExistingToNew : gmap string DiffNotificationEndpoint :=
        fold_left (fun m r => <[endpoint_name (fst r) := snd r]> m) rs ∅ in
      ret (Ok (sort_by_name DiffNotificationEndpoint_Name (map_values mExistingToNew)))
  end.

Definition dryRunSecrets (ctx : context) (orgID : ID) : ST (Sys W) (option error) :=
  secrets <- gets (fun s => pSecrets (pkg s)) ;;
  if decide (secrets = ∅) then ret None
  else
    r <- svc_GetSecretKeys ctx orgID ;;
    match r with
    | Failed err => ret (Some err)
    | Ok existingSecrets =>
        let secrets' : gset string :=
          fold_left (fun s secret => s ∖ {[secret]}) existingSecrets secrets in
        if decide (secrets' = ∅) then ret None
        else ret (Some (SecretsMissing (sort_Slice StrOrd.lt (elements secrets'))))
    end.

Definition dryRunTelegraf (p : Pkg) : list DiffTelegraf :=
  map (newDiffTelegraf O) (pTelegrafs p).

(** The inner loop of [dryRunVariables]: the first platform variable that
    bears the name. *)
Fixpoint find_variable (name : string) (existing : list InfluxVariable)
  : option InfluxVariable :=
  match existing with
  | [] => None
  | existingVar :: rest =>
      if decide (Variable_Name existingVar = name) then Some existingVar
      else find_variable name rest
  end.

(** One turn of the loop of [dryRunVariables]. *)
Definition dryRunVariable (ctx : context) (orgID : ID) (pkgVar : variable)
  : ST (Sys W) (variable * DiffVariable) :=
  r <- svc_FindVariables ctx orgID ;;
  match r with
  | Ok existingLabels =>
      match find_variable (variable_name pkgVar) existingLabels with
      | Some existingVar =>
          let v' := variable_with_existing (Some existingVar) pkgVar in
          ret (v', newDiffVariable O v' (Some existingVar))
      | None => ret (pkgVar, newDiffVariable O pkgVar None)
      end
  | Failed _ => ret (pkgVar, newDiffVariable O pkgVar None)
  end.

Definition dryRunVariables (ctx : context) (orgID : ID) : ST (Sys W) (result (list DiffVariable)) :=
  variables <- gets (fun s => pVariables (pkg s)) ;;
  rs <- mapM (dryRunVariable ctx orgID) variables ;;
  modify (set_pkg (with_pVariables (rs.*1))) ;;;
  let mExistingLabels : gmap string DiffVariable :=
    fold_left (fun m r => <[variable_name (fst r) := snd r]> m) rs ∅ in
  ret (Ok (sort_by_name DiffVariable_Name (map_values mExistingLabels))).

(** pkg.mLabels[labelName].setMapping(la, exists): the label of that name
    is updated in place; a name the package does not hold yields a nil
    pointer, on which nothing is recorded. *)
Fixpoint mLabels_setMapping (labelName : string) (la : labelAssociater) (exist : bool)
  (labels : list label) : list label :=
  match labels with
  | [] => []
  | l :: rest =>
      if decide (label_name l = labelName)
      then label_setMapping O l la exist :: rest
      else l :: mLabels_setMapping labelName la exist rest
  end.

(** l.ID() for a label pointer [l] held by a resource. *)
Definition label_ptr_ID (p : Pkg) (name : string) : ID :=
  match List.find (fun l => bool_decide (label_name l = name)) (pLabels p) with
  | Some l => label_ID O l
  | None => 0%N
  end.

(** The closure handed to [dryRunResourceLabelMapping] by
    [dryRunLabelMappings]: it records the mapping on the package's label
    and yields the diff that the closure appends. *)
Definition mappingFn (la : labelAssociater) (labelID : ID) (labelName : string)
  (isNew : bool) : ST (Sys W) DiffLabelMapping :=
  modify (set_pkg (fun p =>
    with_pLabels (mLabels_setMapping labelName la (negb isNew) (pLabels p)) p)) ;;;
  ret (mkDiffLabelMapping isNew (la_ResourceType la) (la_ID la) (la_Name la)
                          labelID labelName).

(** mappingFn(l.ID(), l.Name(), true) for a label pointer of the package *)
Definition mappingFn_new (la : labelAssociater) (name : string) : ST (Sys W) DiffLabelMapping :=
  id <- gets (fun s => label_ptr_ID (pkg s) name) ;;
  mappingFn la id name true.

(** labelSlcToMap *)
Definition labelSlcToMap (labels : list string) : gmap string string :=
  fold_left (fun m name => <[name := name]> m) labels ∅.

Definition dryRunResourceLabelMapping (ctx : context) (la : labelAssociater)
  : ST (Sys W) (result (list DiffLabelMapping)) :=
  if negb (la_Exists la) then
    ds <- mapM (mappingFn_new la) (la_Labels la) ;;
    ret (Ok ds)
  else
    r <- svc_FindResourceLabels ctx (la_ID la) (la_ResourceType la) ;;
    match r with
    | Failed err => ret (Failed err)
    | Ok existingLabels =>
        let pkgLabels := labelSlcToMap (la_Labels la) in
        ds1 <- mapM (fun l => mappingFn la (Label_ID l) (Label_Name l) false)
                    existingLabels ;;
        let pkgLabels' :=
          fold_left (fun m l => delete (Label_Name l) m) existingLabels pkgLabels in
        ds2 <- mapM (mappingFn_new la) (map_values pkgLabels') ;;
        ret (Ok (ds1 ++ ds2))
    end.

(** The comparison of [dryRunLabelMappings]:
    res type ASC, then res name ASC, then label name ASC. *)
Definition labelMapping_less (n m : DiffLabelMapping) : bool :=
  if StrOrd.lt (DiffLabelMapping_ResType n) (DiffLabelMapping_ResType m) then true
  else if StrOrd.lt (DiffLabelMapping_ResType m) (DiffLabelMapping_ResType n) then false
  else if StrOrd.lt (DiffLabelMapping_ResName n) (DiffLabelMapping_ResName m) then true
  else if StrOrd.lt (DiffLabelMapping_ResName m) (DiffLabelMapping_ResName n) then false
  else StrOrd.lt (DiffLabelMapping_LabelName n) (DiffLabelMapping_LabelName m).

(** mappers: the associaters of the package, kind after kind. *)
Definition mappers (p : Pkg) : list labelAssociater :=
  map (mapperBuckets O) (pBuckets p)
  ++ map (mapperDashboards O) (pDashboards p)
  ++ map (mapperNotificationEndpoints O) (pEndpoints p)
  ++ map (mapperTelegrafs O) (pTelegrafs p)
  ++ map (mapperVariables O) (pVariables p).

Definition dryRunLabelMappings (ctx : context) : ST (Sys W) (result (list DiffLabelMapping)) :=
  las <- gets (fun s => mappers (pkg s)) ;;
  r <- mapM_err (dryRunResourceLabelMapping ctx) las ;;
  match r with
  | Failed err => ret (Failed err)
  | Ok dss => ret (Ok (sort_Slice labelMapping_less (concat dss)))
  end.

(** DryRun provides a dry run of the pkg application. *)
Definition DryRun (ctx : context) (orgID userID : ID)
  : ST (Sys W) (Summary O * Diff * option error) :=
  let fail (err : error) : ST (Sys W) (Summary O * Diff * option error) :=
    ret (Summary_zero O, Diff_empty, Some err) in
  parsed <- gets (fun s => isParsed (pkg s)) ;;
  v <- (if parsed then ret (Ok None)
        else
          p <- gets pkg ;;
          let (p', err) := pkg_Validate O p in
          modify (set_pkg (fun _ => p')) ;;;
          match err with
          | Some e => if IsParseErr e then ret (Ok (Some e)) else ret (Failed e)
          | None => ret (Ok None)
          end) ;;
  match v with
  | Failed err => fail err
  | Ok parseErr =>
  e <- dryRunSecrets ctx orgID ;;
  match e with
  | Some err => fail err
  | None =>
  r <- dryRunBuckets ctx orgID ;;
  match r with
  | Failed err => fail err
  | Ok diffBuckets =>
  r <- dryRunLabels ctx orgID ;;
  match r with
  | Failed err => fail err
  | Ok diffLabels =>
  r <- dryRunNotificationEndpoints ctx orgID ;;
  match r with
  | Failed err => fail err
  | Ok diffEndpoints =>
  r <- dryRunVariables ctx orgID ;;
  match r with
  | Failed err => fail err
  | Ok diffVars =>
  r <- dryRunLabelMappings ctx ;;
  match r with
  | Failed err => fail err
  | Ok diffLabelMappings =>
      modify (set_pkg (with_isVerified true)) ;;;
      p <- gets pkg ;;
      let diff := {|
        Diff_Buckets := diffBuckets;
        Diff_Dashboards := dryRunDashboards p;
        Diff_Labels := diffLabels;
        Diff_LabelMappings := diffLabelMappings;
        Diff_NotificationEndpoints := diffEndpoints;
        Diff_Telegrafs := dryRunTelegraf p;
        Diff_Variables := diffVars
      |} in
      ret (pkg_Summary O p, diff, parseErr)
  end end end end end end end.

(** *** The appliers *)

Definition bucket_with_OrgID (orgID : ID) (b : bucket) : bucket :=
  mkbucket (bucket_id b) orgID (bucket_Description b) (bucket_name b)
           (bucket_RetentionRules b) (bucket_labels b) (bucket_existing b).
Definition bucket_with_id (id : ID) (b : bucket) : bucket :=
  mkbucket id (bucket_OrgID b) (bucket_Description b) (bucket_name b)
           (bucket_RetentionRules b) (bucket_labels b) (bucket_existing b).
Definition label_with_OrgID (orgID : ID) (l : label) : label :=
  mklabel (label_id l) orgID (label_name l) (label_Color l)
          (label_Description l) (label_mappings l) (label_existing l).
Definition label_with_id (id : ID) (l : label) : label :=
  mklabel id (label_OrgID l) (label_name l) (label_Color l)
          (label_Description l) (label_mappings l) (label_existing l).
Definition variable_with_OrgID (orgID : ID) (v : variable) : variable :=
  mkvariable (variable_id v) orgID (variable_name v) (variable_Description v)
             (variable_args v) (variable_labels v) (variable_existing v).
Definition variable_with_id (id : ID) (v : variable) : variable :=
  mkvariable id (variable_OrgID v) (variable_name v) (variable_Description v)
             (variable_args v) (variable_labels v) (variable_existing v).
Definition dashboard_with_OrgID (orgID : ID) (d : dashboard) : dashboard :=
  mkdashboard (dashboard_id d) orgID (dashboard_name d) (dashboard_Description d)
              (dashboard_Charts d) (dashboard_labels d).
Definition dashboard_with_id (id : ID) (d : dashboard) : dashboard :=
  mkdashboard id (dashboard_OrgID d) (dashboard_name d) (dashboard_Description d)
              (dashboard_Charts d) (dashboard_labels d).
Definition endpoint_with_OrgID (orgID : ID) (n : notificationEndpoint)
  : notificationEndpoint :=
  mknotificationEndpoint (endpoint_id n) orgID (endpoint_name n)
    (endpoint_description n) (endpoint_status n) (endpoint_url n)
    (endpoint_routingKey n) (endpoint_token n) (endpoint_username n)
    (endpoint_password n) (endpoint_labels n) (endpoint_existing n).
Definition endpoint_with_id (id : ID) (n : notificationEndpoint) : notificationEndpoint :=
  mknotificationEndpoint id (endpoint_OrgID n) (endpoint_name n)
    (endpoint_description n) (endpoint_status n) (endpoint_url n)
    (endpoint_routingKey n) (endpoint_token n) (endpoint_username n)
    (endpoint_password n) (endpoint_labels n) (endpoint_existing n).
Definition TelegrafConfig_with_OrgID (orgID : ID) (c : TelegrafConfig) : TelegrafConfig :=
  mkTelegrafConfig (TelegrafConfig_ID c) orgID (TelegrafConfig_Name c)
                   (TelegrafConfig_Description c).
Definition telegraf_with_config (c : TelegrafConfig) (t : telegraf) : telegraf :=
  mktelegraf c (telegraf_labels t).

(** strings.HasSuffix *)
Definition HasSuffix (s suffix : string) : bool :=
  let n := String.length s in
  let k := String.length suffix in
  (k <=? n)%nat && String.eqb (String.substring (n - k) k s) suffix.

(** The switch over one secret field in [applyNotificationEndpoints]. *)
Definition endpoint_set_secret (n : notificationEndpoint) (secret : SecretField)
  : notificationEndpoint :=
  let key := SecretField_Key secret in
  let ref := mkreferences key in
  if HasSuffix key "-routing-key" then
    mknotificationEndpoint (endpoint_id n) (endpoint_OrgID n) (endpoint_name n)
      (endpoint_description n) (endpoint_status n) (endpoint_url n)
      ref (endpoint_token n) (endpoint_username n)
      (endpoint_password n) (endpoint_labels n) (endpoint_existing n)
  else if HasSuffix key "-token" then
    mknotificationEndpoint (endpoint_id n) (endpoint_OrgID n) (endpoint_name n)
      (endpoint_description n) (endpoint_status n) (endpoint_url n)
      (endpoint_routingKey n) ref (endpoint_username n)
      (endpoint_password n) (endpoint_labels n) (endpoint_existing n)
  else if HasSuffix key "-username" then
    mknotificationEndpoint (endpoint_id n) (endpoint_OrgID n) (endpoint_name n)
      (endpoint_description n) (endpoint_status n) (endpoint_url n)
      (endpoint_routingKey n) (endpoint_token n) ref
      (endpoint_password n) (endpoint_labels n) (endpoint_existing n)
  else if HasSuffix key "-password" then
    mknotificationEndpoint (endpoint_id n) (endpoint_OrgID n) (endpoint_name n)
      (endpoint_description n) (endpoint_status n) (endpoint_url n)
      (endpoint_routingKey n) (endpoint_token n) (endpoint_username n)
      ref (endpoint_labels n) (endpoint_existing n)
  else n.

(** Appending to the rollback list of an applier. *)
Definition push_rollbackBuckets (i : nat) (r : RollbackLists) : RollbackLists :=
  mkRollbackLists (rollbackBuckets_ r ++ [i]) (rollbackDashboards_ r) (rollBackLabels_ r)
    (rollbackEndpoints_ r) (rollbackTelegrafs_ r) (rollBackVars_ r) (rollbackMappings_ r).
Definition push_rollbackDashboards (i : nat) (r : RollbackLists) : RollbackLists :=
  mkRollbackLists (rollbackBuckets_ r) (rollbackDashboards_ r ++ [i]) (rollBackLabels_ r)
    (rollbackEndpoints_ r) (rollbackTelegrafs_ r) (rollBackVars_ r) (rollbackMappings_ r).
Definition push_rollBackLabels (i : nat) (r : RollbackLists) : RollbackLists :=
  mkRollbackLists (rollbackBuckets_ r) (rollbackDashboards_ r) (rollBackLabels_ r ++ [i])
    (rollbackEndpoints_ r) (rollbackTelegrafs_ r) (rollBackVars_ r) (rollbackMappings_ r).
Definition push_rollbackEndpoints (i : nat) (r : RollbackLists) : RollbackLists :=
  mkRollbackLists (rollbackBuckets_ r) (rollbackDashboards_ r) (rollBackLabels_ r)
    (rollbackEndpoints_ r ++ [i]) (rollbackTelegrafs_ r) (rollBackVars_ r)
    (rollbackMappings_ r).
Definition push_rollbackTelegrafs (i : nat) (r : RollbackLists) : RollbackLists :=
  mkRollbackLists (rollbackBuckets_ r) (rollbackDashboards_ r) (rollBackLabels_ r)
    (rollbackEndpoints_ r) (rollbackTelegrafs_ r ++ [i]) (rollBackVars_ r)
    (rollbackMappings_ r).
Definition push_rollBackVars (i : nat) (r : RollbackLists) : RollbackLists :=
  mkRollbackLists (rollbackBuckets_ r) (rollbackDashboards_ r) (rollBackLabels_ r)
    (rollbackEndpoints_ r) (rollbackTelegrafs_ r) (rollBackVars_ r ++ [i])
    (rollbackMappings_ r).
Definition push_rollbackMappings (m : LabelMapping) (r : RollbackLists) : RollbackLists :=
  mkRollbackLists (rollbackBuckets_ r) (rollbackDashboards_ r) (rollBackLabels_ r)
    (rollbackEndpoints_ r) (rollbackTelegrafs_ r) (rollBackVars_ r)
    (rollbackMappings_ r ++ [m]).

(** errs = append(errs, id.String()) when the call failed *)
Definition collect_failed {A B} (id : A) (r : result B) : list A :=
  match r with Ok _ => [] | Failed _ => [id] end.

(** if len(errs) > 0 { return fmt.Errorf(...) }; return nil *)
Definition rollback_error (resource : string) (errs : list string) : option error :=
  match errs with
  | [] => None
  | _ => Some (RollbackFailed resource errs)
  end.

(** **** Buckets *)

Definition applyBucket (ctx : context) (b : bucket) : ST (Sys W) (result Bucket) :=
  let rp := retentionRules_RP O (bucket_RetentionRules b) in
  match bucket_existing b with
  | Some _ =>
      svc_UpdateBucket ctx (bucket_ID O b)
        (mkBucketUpdate (Some (bucket_Description b)) (Some rp))
  | None =>
      let influxBucket :=
        mkBucket 0%N (bucket_OrgID b) (bucket_name b) (bucket_Description b) rp in
      svc_CreateBucket ctx influxBucket
  end.

(** createFn of [applyBuckets] *)
Definition applyBuckets_createFn (ctx : context) (i : nat) (orgID userID : ID)
  : ST (Sys W) (option applyErrBody) :=
  modify (set_pkg (fun p => with_pBuckets (alter (bucket_with_OrgID orgID) i (pBuckets p)) p)) ;;;
  ob <- gets (fun s => pBuckets (pkg s) !! i) ;;
  match ob with
  | None => ret None
  | Some b =>
      if negb (bucket_shouldApply O b) then ret None
      else
        r <- applyBucket ctx b ;;
        match r with
        | Failed err => ret (Some (mkApplyErrBody (bucket_name b) (error_Error err)))
        | Ok influxBucket =>
            modify (set_pkg (fun p =>
              with_pBuckets (alter (bucket_with_id (Bucket_ID influxBucket)) i (pBuckets p)) p)) ;;;
            modify (set_rbl (push_rollbackBuckets i)) ;;;
            ret None
        end
  end.

(** One turn of the loop of [rollbackBuckets]. *)
Definition rollbackBucket (b : bucket) : ST (Sys W) (list string) :=
  match bucket_existing b with
  | None =>
      r <- svc_DeleteBucket context_Background (bucket_ID O b) ;;
      ret (collect_failed (ID_String O (bucket_ID O b)) r)
  | Some _ =>
      let rp := retentionRules_RP O (bucket_RetentionRules b) in
      r <- svc_UpdateBucket context_Background (bucket_ID O b)
             (mkBucketUpdate (Some (bucket_Description b)) (Some rp)) ;;
      ret (collect_failed (ID_String O (bucket_ID O b)) r)
  end.

(** The records a rollback list points at, as the package holds them when
    the rollback runs. *)
Definition deref {A} (store : list A) (ptrs : list nat) : list A :=
  omap (fun i => store !! i) ptrs.

Definition rollbackBuckets (buckets : list bucket) : ST (Sys W) (option error) :=
  errs <- mapM rollbackBucket buckets ;;
  ret (rollback_error "bucket" (concat errs)).

(** **** deleteByIDs *)

Definition deleteByIDs (resource : string)
  (deleteFn : context -> ID -> ST (Sys W) (result unit)) (ids : list ID) : ST (Sys W) (option error) :=
  errs <- mapM (fun id => r <- deleteFn context_Background id ;;
                          ret (collect_failed (ID_String O id) r)) ids ;;
  ret (rollback_error resource (concat errs)).

(** **** Dashboards *)

Definition convertChartsToCells (ch : list chart) : list Cell :=
  map (fun c => mkCell (chart_XPos c) (chart_YPos c) (chart_Height c) (chart_Width c)
                       (mkView (chart_Name c) (chart_to_properties O c))) ch.

Definition applyDashboard (ctx : context) (d : dashboard) : ST (Sys W) (result Dashboard) :=
  let cells := convertChartsToCells (dashboard_Charts d) in
  let influxDashboard :=
    mkDashboard 0%N (dashboard_OrgID d) (dashboard_name d) (dashboard_Description d) cells in
  svc_CreateDashboard ctx influxDashboard.

Definition applyDashboards_createFn (ctx : context) (i : nat) (orgID userID : ID)
  : ST (Sys W) (option applyErrBody) :=
  modify (set_pkg (fun p =>
    with_pDashboards (alter (dashboard_with_OrgID orgID) i (pDashboards p)) p)) ;;;
  od <- gets (fun s => pDashboards (pkg s) !! i) ;;
  match od with
  | None => ret None
  | Some d =>
      r <- applyDashboard ctx d ;;
      match r with
      | Failed err => ret (Some (mkApplyErrBody (dashboard_name d) (error_Error err)))
      | Ok influxBucket =>
          modify (set_pkg (fun p =>
            with_pDashboards
              (alter (dashboard_with_id (Dashboard_ID influxBucket)) i (pDashboards p)) p)) ;;;
          modify (set_rbl (push_rollbackDashboards i)) ;;;
          ret None
      end
  end.

(** **** Labels *)

Definition applyLabel (ctx : context) (l : label) : ST (Sys W) (result Label) :=
  match label_existing l with
  | Some _ =>
      svc_UpdateLabel ctx (label_ID O l) (mkLabelUpdate (label_properties O l))
  | None =>
      let influxLabel := label_toInfluxLabel O l in
      svc_CreateLabel ctx influxLabel
  end.

Definition applyLabels_createFn (ctx : context) (i : nat) (orgID userID : ID)
  : ST (Sys W) (option applyErrBody) :=
  modify (set_pkg (fun p => with_pLabels (alter (label_with_OrgID orgID) i (pLabels p)) p)) ;;;
  ol <- gets (fun s => pLabels (pkg s) !! i) ;;
  match ol with
  | None => ret None
  | Some l =>
      if negb (label_shouldApply O l) then ret None
      else
        r <- applyLabel ctx l ;;
        match r with
        | Failed err => ret (Some (mkApplyErrBody (label_name l) (error_Error err)))
        | Ok influxLabel =>
            modify (set_pkg (fun p =>
              with_pLabels (alter (label_with_id (Label_ID influxLabel)) i (pLabels p)) p)) ;;;
            modify (set_rbl (push_rollBackLabels i)) ;;;
            ret None
        end
  end.

(** One turn of the loop of [rollbackLabels]. *)
Definition rollbackLabel (l : label) : ST (Sys W) (list string) :=
  match label_existing l with
  | None =>
      r <- svc_DeleteLabel context_Background (label_ID O l) ;;
      ret (collect_failed (ID_String O (label_ID O l)) r)
  | Some existing =>
      r <- svc_UpdateLabel context_Background (label_ID O l)
             (mkLabelUpdate (Label_Properties existing)) ;;
      ret (collect_failed (ID_String O (label_ID O l)) r)
  end.

Definition rollbackLabels (labels : list label) : ST (Sys W) (option error) :=
  errs <- mapM rollbackLabel labels ;;
  ret (rollback_error "label" (concat errs)).

(** **** Notification endpoints *)

Definition applyNotificationEndpoint (ctx : context) (e : notificationEndpoint)
  (userID : ID) : ST (Sys W) (result NotificationEndpoint) :=
  match endpoint_existing e with
  | Some existing =>
      svc_UpdateNotificationEndpoint ctx (endpoint_ID O e) existing userID
  | None =>
      let actual := endpoint_summarize O e in
      svc_CreateNotificationEndpoint ctx actual userID
  end.

Definition applyNotificationEndpoints_createFn (ctx : context) (i : nat)
  (orgID userID : ID) : ST (Sys W) (option applyErrBody) :=
  modify (set_pkg (fun p =>
    with_pEndpoints (alter (endpoint_with_OrgID orgID) i (pEndpoints p)) p)) ;;;
  oe <- gets (fun s => pEndpoints (pkg s) !! i) ;;
  match oe with
  | None => ret None
  | Some endpoint =>
      r <- applyNotificationEndpoint ctx endpoint userID ;;
      match r with
      | Failed err => ret (Some (mkApplyErrBody (endpoint_name endpoint) (error_Error err)))
      | Ok influxEndpoint =>
          modify (set_pkg (fun p =>
            with_pEndpoints
              (alter (fun n =>
                        fold_left endpoint_set_secret
                          (NotificationEndpoint_SecretFields influxEndpoint)
                          (endpoint_with_id (NotificationEndpoint_ID influxEndpoint) n))
                     i (pEndpoints p)) p)) ;;;
          modify (set_rbl (push_rollbackEndpoints i)) ;;;
          ret None
      end
  end.

(** One turn of the loop of [rollbackNotificationEndpoints]. *)
Definition rollbackNotificationEndpoint (e : notificationEndpoint) : ST (Sys W) (list string) :=
  match endpoint_existing e with
  | None =>
      r <- svc_DeleteNotificationEndpoint context_Background (endpoint_ID O e) ;;
      ret (collect_failed (ID_String O (endpoint_ID O e)) r)
  | Some existing =>
      r <- svc_UpdateNotificationEndpoint context_Background (endpoint_ID O e)
             existing 0%N ;;
      ret (collect_failed (ID_String O (endpoint_ID O e)) r)
  end.

Definition rollbackNotificationEndpoints (endpoints : list notificationEndpoint)
  : ST (Sys W) (option error) :=
  errs <- mapM rollbackNotificationEndpoint endpoints ;;
  ret (rollback_error "notication_endpoint" (concat errs)).

(** **** Telegraf configurations *)

Definition applyTelegrafs_createFn (ctx : context) (i : nat) (orgID userID : ID)
  : ST (Sys W) (option applyErrBody) :=
  modify (set_pkg (fun p =>
    with_pTelegrafs
      (alter (fun t => telegraf_with_config
                         (TelegrafConfig_with_OrgID orgID (telegraf_config t)) t)
             i (pTelegrafs p)) p)) ;;;
  ot <- gets (fun s => pTelegrafs (pkg s) !! i) ;;
  match ot with
  | None => ret None
  | Some t =>
      let cfg := telegraf_config t in
      r <- svc_CreateTelegrafConfig ctx cfg userID ;;
      match r with
      | Failed err => ret (Some (mkApplyErrBody (TelegrafConfig_Name cfg) (error_Error err)))
      | Ok cfg' =>
          modify (set_pkg (fun p =>
            with_pTelegrafs (alter (telegraf_with_config cfg') i (pTelegrafs p)) p)) ;;;
          modify (set_rbl (push_rollbackTelegrafs i)) ;;;
          ret None
      end
  end.

(** **** Variables *)

Definition applyVariable (ctx : context) (v : variable) : ST (Sys W) (result InfluxVariable) :=
  match variable_existing v with
  | Some _ =>
      svc_UpdateVariable ctx (variable_ID O v)
        (mkVariableUpdate (variable_Description v) (variable_influxVarArgs O v))
  | None =>
      let influxVar :=
        mkVariable 0%N (variable_OrgID v) (variable_name v) (variable_Description v)
                   (variable_influxVarArgs O v) in
      svc_CreateVariable ctx influxVar
  end.

Definition applyVariables_createFn (ctx : context) (i : nat) (orgID userID : ID)
  : ST (Sys W) (option applyErrBody) :=
  modify (set_pkg (fun p =>
    with_pVariables (alter (variable_with_OrgID orgID) i (pVariables p)) p)) ;;;
  ov <- gets (fun s => pVariables (pkg s) !! i) ;;
  match ov with
  | None => ret None
  | Some v =>
      if negb (variable_shouldApply O v) then ret None
      else
        r <- applyVariable ctx v ;;
        match r with
        | Failed err => ret (Some (mkApplyErrBody (variable_name v) (error_Error err)))
        | Ok influxVar =>
            modify (set_pkg (fun p =>
              with_pVariables
                (alter (variable_with_id (Variable_ID influxVar)) i (pVariables p)) p)) ;;;
            modify (set_rbl (push_rollBackVars i)) ;;;
            ret None
        end
  end.

(** One turn of the loop of [rollbackVariables]. *)
Definition rollbackVariable (v : variable) : ST (Sys W) (list string) :=
  match variable_existing v with
  | None =>
      r <- svc_DeleteVariable context_Background (variable_ID O v) ;;
      ret (collect_failed (ID_String O (variable_ID O v)) r)
  | Some existing =>
      r <- svc_UpdateVariable context_Background (variable_ID O v)
             (mkVariableUpdate (Variable_Description existing)
                               (Variable_Arguments existing)) ;;
      ret (collect_failed (ID_String O (variable_ID O v)) r)
  end.

Definition rollbackVariables (variables : list variable) : ST (Sys W) (option error) :=
  errs <- mapM rollbackVariable variables ;;
  ret (rollback_error "variable" (concat errs)).

(** **** Label mappings *)

(** fmt.Sprintf("%s:%s:%s", mapping.ResourceType, mapping.ResourceID, mapping.LabelID) *)
Definition mapping_name (mapping : SummaryLabelMapping) : string :=
  (slm_ResourceType mapping ++ ":" ++ ID_String O (slm_ResourceID mapping)
    ++ ":" ++ ID_String O (slm_LabelID mapping))%string.

Definition applyLabelMappings_createFn (labelMappings : list SummaryLabelMapping)
  (ctx : context) (i : nat) (orgID userID : ID) : ST (Sys W) (option applyErrBody) :=
  match labelMappings !! i with
  | None => ret None
  | Some mapping =>
      if slm_exists mapping then ret None
      else
        let m := mkLabelMapping (slm_LabelID mapping) (slm_ResourceID mapping)
                                (slm_ResourceType mapping) in
        r <- svc_CreateLabelMapping ctx m ;;
        match r with
        | Failed err =>
            ret (Some (mkApplyErrBody (mapping_name mapping) (error_Error err)))
        | Ok _ =>
            modify (set_rbl (push_rollbackMappings m)) ;;;
            ret None
        end
  end.

Definition rollbackLabelMappings (mappings : list LabelMapping) : ST (Sys W) (option error) :=
  errs <- mapM (fun l =>
            r <- svc_DeleteLabelMapping context_Background l ;;
            ret (collect_failed (ID_String O (LabelMapping_LabelID l) ++ ":"
                                   ++ ID_String O (LabelMapping_ResourceID l))%string r))
          mappings ;;
  match concat errs with
  | [] => ret None
  | pairs => ret (Some (RollbackMappingsFailed pairs))
  end.

(** *** Appliers as values

    An applier pairs a [creater] with a [rollbacker].  Their functions are
    closures over the applier's slice and rollback list; here a tag names
    the builder the closure comes from, and [creater_fn] / [rollbacker_fn]
    run it on the shared state. *)

Inductive ApplierKind :=
| ApLabels
| ApVariables
| ApBuckets
| ApDashboards
| ApNotificationEndpoints
| ApTelegrafs
| ApLabelMappings.

#[global] Instance ApplierKind_eq_dec : EqDecision ApplierKind.
Proof. solve_decision. Defined.

Record creater := mkCreater {
  entries : nat;
  creater_kind : ApplierKind;
  creater_labelMappings : list SummaryLabelMapping
    (* the slice [applyLabelMappings] was built over *)
}.

Record rollbacker := mkRollbacker {
  resource : string;
  rollbacker_kind : ApplierKind
}.

Record applier := mkApplier {
  applier_creater : creater;
  applier_rollbacker : rollbacker
}.

Definition creater_fn (c : creater) (ctx : context) (i : nat) (orgID userID : ID)
  : ST (Sys W) (option applyErrBody) :=
  match creater_kind c with
  | ApLabels => applyLabels_createFn ctx i orgID userID
  | ApVariables => applyVariables_createFn ctx i orgID userID
  | ApBuckets => applyBuckets_createFn ctx i orgID userID
  | ApDashboards => applyDashboards_createFn ctx i orgID userID
  | ApNotificationEndpoints => applyNotificationEndpoints_createFn ctx i orgID userID
  | ApTelegrafs => applyTelegrafs_createFn ctx i orgID userID
  | ApLabelMappings =>
      applyLabelMappings_createFn (creater_labelMappings c) ctx i orgID userID
  end.

Definition rollbacker_fn (r : rollbacker) : ST (Sys W) (option error) :=
  match rollbacker_kind r with
  | ApLabels =>
      ls <- gets (fun s => deref (pLabels (pkg s)) (rollBackLabels_ (rbl s))) ;;
      rollbackLabels ls
  | ApVariables =>
      vs <- gets (fun s => deref (pVariables (pkg s)) (rollBackVars_ (rbl s))) ;;
      rollbackVariables vs
  | ApBuckets =>
      bs <- gets (fun s => deref (pBuckets (pkg s)) (rollbackBuckets_ (rbl s))) ;;
      rollbackBuckets bs
  | ApDashboards =>
      ds <- gets (fun s => deref (pDashboards (pkg s)) (rollbackDashboards_ (rbl s))) ;;
      deleteByIDs "dashboard" svc_DeleteDashboard (map (dashboard_ID O) ds)
  | ApNotificationEndpoints =>
      es <- gets (fun s => deref (pEndpoints (pkg s)) (rollbackEndpoints_ (rbl s))) ;;
      rollbackNotificationEndpoints es
  | ApTelegrafs =>
      ts <- gets (fun s => deref (pTelegrafs (pkg s)) (rollbackTelegrafs_ (rbl s))) ;;
      deleteByIDs "telegraf" svc_DeleteTelegrafConfig (map (telegraf_ID O) ts)
  | ApLabelMappings =>
      ms <- gets (fun s => rollbackMappings_ (rbl s)) ;;
      rollbackLabelMappings ms
  end.

(** The builders: each makes its rollback list afresh and counts the
    entries of the slice it is given. *)
Definition applyLabels : ST (Sys W) applier :=
  n <- gets (fun s => length (pLabels (pkg s))) ;;
  modify (set_rbl (fun r =>
    mkRollbackLists (rollbackBuckets_ r) (rollbackDashboards_ r) []
      (rollbackEndpoints_ r) (rollbackTelegrafs_ r) (rollBackVars_ r)
      (rollbackMappings_ r))) ;;;
  ret (mkApplier (mkCreater n ApLabels []) (mkRollbacker "label" ApLabels)).

Definition applyVariables : ST (Sys W) applier :=
  n <- gets (fun s => length (pVariables (pkg s))) ;;
  modify (set_rbl (fun r =>
    mkRollbackLists (rollbackBuckets_ r) (rollbackDashboards_ r) (rollBackLabels_ r)
      (rollbackEndpoints_ r) (rollbackTelegrafs_ r) [] (rollbackMappings_ r))) ;;;
  ret (mkApplier (mkCreater n ApVariables []) (mkRollbacker "variable" ApVariables)).

Definition applyBuckets : ST (Sys W) applier :=
  n <- gets (fun s => length (pBuckets (pkg s))) ;;
  modify (set_rbl (fun r =>
    mkRollbackLists [] (rollbackDashboards_ r) (rollBackLabels_ r)
      (rollbackEndpoints_ r) (rollbackTelegrafs_ r) (rollBackVars_ r)
      (rollbackMappings_ r))) ;;;
  ret (mkApplier (mkCreater n ApBuckets []) (mkRollbacker "bucket" ApBuckets)).

Definition applyDashboards : ST (Sys W) applier :=
  n <- gets (fun s => length (pDashboards (pkg s))) ;;
  modify (set_rbl (fun r =>
    mkRollbackLists (rollbackBuckets_ r) [] (rollBackLabels_ r)
      (rollbackEndpoints_ r) (rollbackTelegrafs_ r) (rollBackVars_ r)
      (rollbackMappings_ r))) ;;;
  ret (mkApplier (mkCreater n ApDashboards []) (mkRollbacker "dashboard" ApDashboards)).

Definition applyNotificationEndpoints : ST (Sys W) applier :=
  n <- gets (fun s => length (pEndpoints (pkg s))) ;;
  modify (set_rbl (fun r =>
    mkRollbackLists (rollbackBuckets_ r) (rollbackDashboards_ r) (rollBackLabels_ r)
      [] (rollbackTelegrafs_ r) (rollBackVars_ r) (rollbackMappings_ r))) ;;;
  ret (mkApplier (mkCreater n ApNotificationEndpoints [])
                 (mkRollbacker "notification_endpoints" ApNotificationEndpoints)).

Definition applyTelegrafs : ST (Sys W) applier :=
  n <- gets (fun s => length (pTelegrafs (pkg s))) ;;
  modify (set_rbl (fun r =>
    mkRollbackLists (rollbackBuckets_ r) (rollbackDashboards_ r) (rollBackLabels_ r)
      (rollbackEndpoints_ r) [] (rollBackVars_ r) (rollbackMappings_ r))) ;;;
  ret (mkApplier (mkCreater n ApTelegrafs []) (mkRollbacker "telegrafs" ApTelegrafs)).

Definition applyLabelMappings (labelMappings : list SummaryLabelMapping) : ST (Sys W) applier :=
  modify (set_rbl (fun r =>
    mkRollbackLists (rollbackBuckets_ r) (rollbackDashboards_ r) (rollBackLabels_ r)
      (rollbackEndpoints_ r) (rollbackTelegrafs_ r) (rollBackVars_ r) [])) ;;;
  ret (mkApplier (mkCreater (length labelMappings) ApLabelMappings labelMappings)
                 (mkRollbacker "label_mapping" ApLabelMappings)).

(** *** The error stream

    The aggregating goroutine owns [mErrs]; it is [live] while it is in its
    loop and leaves the loop for good through the [<-e.done] case. *)

Record errStream := mkErrStream {
  mErrs : gmap string (list applyErrBody);
  live : bool
}.

Definition newErrStream : errStream := mkErrStream ∅ true.

(** mErrs[msg.resource] = append(mErrs[msg.resource], &msg.err) *)
Definition errStream_record (res : string) (err : applyErrBody) (e : errStream)
  : errStream :=
  mkErrStream (<[res := default [] (mErrs e !! res) ++ [err]]> (mErrs e)) (live e).

(** [add]: a select over [<-e.done] and the send.  The send can proceed
    while the aggregator is in its loop, the other case once the context
    is done; with both ready [send] tells which one is taken. *)
Definition errStream_add (done send : bool) (res : string) (err : applyErrBody)
  (e : errStream) : errStream :=
  match live e, done with
  | true, false => errStream_record res err e
  | true, true => if send then errStream_record res err e else e
  | false, _ => e
  end.

(** [close]: the stream is closed and the aggregator's verdict read.  An
    aggregator that left through [<-e.done] holds a nil map. *)
Definition errStream_close (e : errStream) : option error :=
  if live e then
    if decide (mErrs e = ∅) then None
    else Some (ApplyFailed (map_to_list (mErrs e)))
  else None.

(** *** The coordinator *)

(** What decides an execution beyond the program: which worker in flight
    finishes next and which case a select with two ready cases takes, when
    the parent context is cancelled, and when the aggregating goroutine
    notices it. *)
Inductive sched_event :=
| SRun (k : nat) (send : bool)
| SCancel
| SDone.

(** What the coordinator does, as it goes. *)
Inductive event :=
| EvCreate (res : string) (i : nat)      (* a worker ran app.creater.fn(ctx, i, ..) *)
| EvGroupEnd (err : option error)        (* errStr.close() returned err *)
| EvRollback (res : string).             (* rollback ran r.fn() *)

Record Coord := mkCoord {
  sys : Sys W;
  done : bool;                            (* the parent context is done *)
  oracle : list sched_event;
  rollbacks : list rollbacker;            (* rollbackCoordinator.rollbacks *)
  trace : list event;
  logged : list (string * error)          (* l.Error(msg, zap.Error(err)) *)
}.


Definition lift {A} (m : ST (Sys W) A) : ST Coord A :=
  fun c =>
    let (a, s') := m (sys c) in
    (a, mkCoord s' (done c) (oracle c) (rollbacks c) (trace c) (logged c)).

Definition emit (ev : event) : ST Coord unit :=
  modify (fun c => mkCoord (sys c) (done c) (oracle c) (rollbacks c)
                           (trace c ++ [ev]) (logged c)).

Definition log_Error (msg : string) (err : error) : ST Coord unit :=
  modify (fun c => mkCoord (sys c) (done c) (oracle c) (rollbacks c)
                           (trace c) (logged c ++ [(msg, err)])).

Definition set_rollbacks (f : list rollbacker -> list rollbacker) : ST Coord unit :=
  modify (fun c => mkCoord (sys c) (done c) (oracle c) (f (rollbacks c))
                           (trace c) (logged c)).

(** The cancellations and the aggregator's notices that come before the
    next worker finishes. *)
Fixpoint settle (o : list sched_event) (dn lv : bool) : list sched_event * bool * bool :=
  match o with
  | SCancel :: o' => settle o' true lv
  | SDone :: o' => settle o' dn (if dn then false else lv)
  | _ => (o, dn, lv)
  end.

Definition settle_st (es : errStream) : ST Coord errStream :=
  fun c =>
    let '(o, dn, lv) := settle (oracle c) (done c) (live es) in
    (mkErrStream (mErrs es) lv,
     mkCoord (sys c) dn o (rollbacks c) (trace c) (logged c)).

(** The next worker to finish and its choice; first come, first served
    once the oracle is silent. *)
Definition next_run : ST Coord (nat * bool) :=
  fun c =>
    match oracle c with
    | SRun k send :: o' =>
        ((k, send), mkCoord (sys c) (done c) o' (rollbacks c) (trace c) (logged c))
    | _ => ((0, true), c)
    end.

(** The workers in flight are the first of those not yet finished, as many
    as the semaphore admits; with a semaphore of no capacity none starts. *)
Definition pick {A} (limit k : nat) (pending : list A) : option (A * list A) :=
  match Nat.min limit (length pending) with
  | 0 => None
  | S w =>
      let j := k mod (S w) in
      match pending !! j with
      | Some x => Some (x, delete j pending)
      | None => None
      end
  end.

(** for idx := range make([]struct{}, app.creater.entries) { go func ... } *)
Definition work_items (appliers : list applier) : list (applier * nat) :=
  flat_map (fun app => map (fun idx => (app, idx)) (seq 0 (entries (applier_creater app))))
           appliers.

(** The body of a worker. *)
Definition run_worker (orgID userID : ID) (app : applier) (i : nat) (send : bool)
  (es : errStream) : ST Coord errStream :=
  ctx <- gets done ;;
  emit (EvCreate (resource (applier_rollbacker app)) i) ;;;
  r <- lift (creater_fn (applier_creater app) ctx i orgID userID) ;;
  match r with
  | None => ret es
  | Some err => ret (errStream_add ctx send (resource (applier_rollbacker app)) err es)
  end.

(** The workers of a group until wg.Wait() returns; [None] when the
    coordinator blocks on the semaphore for ever. *)
Fixpoint run_workers (limit : nat) (orgID userID : ID) (n : nat)
  (pending : list (applier * nat)) (es : errStream) : ST Coord (option errStream) :=
  match n with
  | 0 => ret (Some es)
  | S n' =>
      es1 <- settle_st es ;;
      ks <- next_run ;;
      match pick limit (fst ks) pending with
      | None => ret None
      | Some ((app, i), pending') =>
          es2 <- run_worker orgID userID app i (snd ks) es1 ;;
          run_workers limit orgID userID n' pending' es2
      end
  end.

Definition runTilEnd (limit : nat) (orgID userID : ID) (appliers : list applier)
  : ST Coord (option (option error)) :=
  set_rollbacks (fun rs => rs ++ map applier_rollbacker appliers) ;;;
  let items := work_items appliers in
  r <- run_workers limit orgID userID (length items) items newErrStream ;;
  match r with
  | None => ret None
  | Some es =>
      es' <- settle_st es ;;
      let err := errStream_close es' in
      emit (EvGroupEnd err) ;;;
      ret (Some err)
  end.

(** for _, r := range r.rollbacks { if err := r.fn(); err != nil { l.Error(..) } } *)
Fixpoint rollback_loop (rs : list rollbacker) : ST Coord unit :=
  match rs with
  | [] => ret tt
  | r :: rs' =>
      emit (EvRollback (resource r)) ;;;
      e <- lift (rollbacker_fn r) ;;
      match e with
      | Some err => log_Error ("failed to delete " ++ resource r)%string err
      | None => ret tt
      end ;;;
      rollback_loop rs'
  end.

Definition rollback (err : option error) : ST Coord unit :=
  match err with
  | None => ret tt
  | Some _ => rs <- gets rollbacks ;; rollback_loop rs
  end.

(** for _, group := range appliers { if err := coordinator.runTilEnd(..) ... } *)
Fixpoint run_groups (limit : nat) (orgID userID : ID) (groups : list (list applier))
  : ST Coord (option (option error)) :=
  match groups with
  | [] => ret (Some None)
  | group :: rest =>
      r <- runTilEnd limit orgID userID group ;;
      match r with
      | None => ret None
      | Some (Some err) => ret (Some (Some err))
      | Some None => run_groups limit orgID userID rest
      end
  end.

(** [Apply] from the point where the coordinator exists up to its return
    statement. *)
Definition Apply_body (limit : nat) (orgID userID : ID)
  : ST Coord (option (Summary O * option error)) :=
  labels <- lift applyLabels ;;
  variables <- lift applyVariables ;;
  buckets <- lift applyBuckets ;;
  dashboards <- lift applyDashboards ;;
  endpoints <- lift applyNotificationEndpoints ;;
  telegrafs <- lift applyTelegrafs ;;
  let appliers :=
    [ [ labels ];
      [ variables; buckets; dashboards; endpoints; telegrafs ] ] in
  r <- run_groups limit orgID userID appliers ;;
  match r with
  | None => ret None
  | Some (Some err) => ret (Some (Summary_zero O, Some err))
  | Some None =>
      mappings <- gets (fun c => pkg_labelMappings O (pkg (sys c))) ;;
      secondary <- lift (applyLabelMappings mappings) ;;
      r <- runTilEnd limit orgID userID [ secondary ] ;;
      match r with
      | None => ret None
      | Some (Some err) => ret (Some (Summary_zero O, Some err))
      | Some None =>
          p <- gets (fun c => pkg (sys c)) ;;
          ret (Some (pkg_Summary O p, None))
      end
  end.

(** Apply will apply all the resources identified in the provided pkg.
    [None] stands for a call that never returns. *)
Definition Apply (limit : nat) (orgID userID : ID)
  : ST Coord (option (Summary O * option error)) :=
  parsed <- gets (fun c => isParsed (pkg (sys c))) ;;
  verr <- (if parsed then ret None
           else lift (p <- gets pkg ;;
                      let (p', err) := pkg_Validate O p in
                      modify (set_pkg (fun _ => p')) ;;;
                      ret err)) ;;
  match verr with
  | Some err => ret (Some (Summary_zero O, Some err))
  | None =>
      verified <- gets (fun c => isVerified (pkg (sys c))) ;;
      derr <- (if verified then ret None
               else ctx <- gets done ;;
                    r <- lift (DryRun ctx orgID userID) ;;
                    ret (snd r)) ;;
      match derr with
      | Some err => ret (Some (Summary_zero O, Some err))
      | None =>
          set_rollbacks (fun _ => []) ;;;
          r <- Apply_body limit orgID userID ;;
          match r with
          | None => ret None
          | Some (sum, e) => rollback e ;;; ret (Some (sum, e))
          end
      end
  end.

End Service.

(** NewService: applyReqLimit: 5 *)
Definition NewService_applyReqLimit : nat := 5.

(** ** Vocabulary of the properties *)

(** Every run of [m] takes a state to one that [R] relates to it. *)
Definition respects {S A} (R : S -> S -> Prop) (m : ST S A) : Prop :=
  forall s, R s (snd (m s)).

(** A section of a diff is in ascending order of its names. *)
Definition ascending {A} (name : A -> string) (l : list A) : Prop :=
  StronglySorted (fun a b => StrOrd.le (name a) (name b) = true) l.

(** [b] may follow [a] among the label mappings: ascending resource type,
    then resource name, then label name. *)
Definition labelMapping_le (a b : DiffLabelMapping) : Prop :=
  StrOrd.lt (DiffLabelMapping_ResType a) (DiffLabelMapping_ResType b) = true \/
  (DiffLabelMapping_ResType a = DiffLabelMapping_ResType b /\
   (StrOrd.lt (DiffLabelMapping_ResName a) (DiffLabelMapping_ResName b) = true \/
    (DiffLabelMapping_ResName a = DiffLabelMapping_ResName b /\
     StrOrd.le (DiffLabelMapping_LabelName a) (DiffLabelMapping_LabelName b) = true))).

(** Every section of a diff is sorted by name, the label mappings by
    resource type, resource name and label name. *)
Definition all_sections_sorted (d : Diff) : Prop :=
  ascending DiffBucket_Name (Diff_Buckets d) /\
  ascending DiffDashboard_Name (Diff_Dashboards d) /\
  ascending DiffLabel_Name (Diff_Labels d) /\
  StronglySorted labelMapping_le (Diff_LabelMappings d) /\
  ascending DiffNotificationEndpoint_Name (Diff_NotificationEndpoints d) /\
  ascending (fun t => TelegrafConfig_Name (DiffTelegraf_Config t)) (Diff_Telegrafs d) /\
  ascending DiffVariable_Name (Diff_Variables d).

(** The calls of [cs] leave the platform as it is. *)
Definition read_only (cs : list (Call * bool)) : Prop :=
  Forall (fun c => mutating (fst c) = false) cs.

Section FrameVocabulary.
Context (O : PkgOps).

(** What a dry run may do to a label of the package: fill its [existing]
    slot and record mappings on it. *)
Inductive label_marked : label -> label -> Prop :=
| label_marked_refl l : label_marked l l
| label_marked_existing l l' e :
    label_marked l l' -> label_marked l (label_with_existing e l')
| label_marked_mapping l l' la ex :
    label_marked l l' -> label_marked l (label_setMapping O l' la ex).

(** The package [p'] is [p] but for the [existing] slots, the mappings
    recorded on its labels, and [isVerified], which may have been set. *)
Record dryRun_frame (p p' : Pkg) : Prop := mkDryRunFrame {
  frame_isParsed : isParsed p' = isParsed p;
  frame_isVerified : isVerified p' = isVerified p \/ isVerified p' = true;
  frame_buckets :
    Forall2 (fun b b' => exists e, b' = bucket_with_existing e b) (pBuckets p) (pBuckets p');
  frame_labels : Forall2 label_marked (pLabels p) (pLabels p');
  frame_dashboards : pDashboards p' = pDashboards p;
  frame_endpoints :
    Forall2 (fun n n' => exists e, n' = endpoint_with_existing e n)
            (pEndpoints p) (pEndpoints p');
  frame_telegrafs : pTelegrafs p' = pTelegrafs p;
  frame_variables :
    Forall2 (fun v v' => exists e, v' = variable_with_existing e v)
            (pVariables p) (pVariables p');
  frame_secrets : pSecrets p' = pSecrets p
}.

(** The claim that a dry run changes nothing of the package but the
    [existing] slots and [isVerified]. *)
Definition label_but_existing (l l' : label) : Prop :=
  exists e, l' = label_with_existing e l.

Record only_existing_and_verified (p p' : Pkg) : Prop := mkOnlyExisting {
  only_isParsed : isParsed p' = isParsed p;
  only_buckets :
    Forall2 (fun b b' => exists e, b' = bucket_with_existing e b) (pBuckets p) (pBuckets p');
  only_labels : Forall2 label_but_existing (pLabels p) (pLabels p');
  only_dashboards : pDashboards p' = pDashboards p;
  only_endpoints :
    Forall2 (fun n n' => exists e, n' = endpoint_with_existing e n)
            (pEndpoints p) (pEndpoints p');
  only_telegrafs : pTelegrafs p' = pTelegrafs p;
  only_variables :
    Forall2 (fun v v' => exists e, v' = variable_with_existing e v)
            (pVariables p) (pVariables p');
  only_secrets : pSecrets p' = pSecrets p
}.

(** The sections of a diff as the dry run orders them: four built from a
    map and sorted by name, the label mappings sorted by their triple, the
    dashboards and the telegraf configurations in the order of the
    package's accessors. *)
Definition sections_as_built (p : Pkg) (d : Diff) : Prop :=
  ascending DiffBucket_Name (Diff_Buckets d) /\
  ascending DiffLabel_Name (Diff_Labels d) /\
  ascending DiffNotificationEndpoint_Name (Diff_NotificationEndpoints d) /\
  ascending DiffVariable_Name (Diff_Variables d) /\
  StronglySorted labelMapping_le (Diff_LabelMappings d) /\
  Diff_Dashboards d = map (newDiffDashboard O) (pDashboards p) /\
  Diff_Telegrafs d = map (newDiffTelegraf O) (pTelegrafs p).

(** Modelled from the spec: the accessors [pkg.dashboards()] and
    [pkg.telegrafs()] and the constructors [newDiffDashboard] and
    [newDiffTelegraf] are declared in files of the package that are not
    among the sources.  The specification has the diffs of every kind
    sorted ascending by name, and for these two kinds the dry run lists
    what the accessors return, in their order: the accessors are taken to
    return the records of the package in ascending order of name, and the
    constructors to name a diff after its record. *)
Definition accessors_by_name (p : Pkg) : Prop :=
  ascending dashboard_name (pDashboards p) /\
  ascending (fun t => TelegrafConfig_Name (telegraf_config t)) (pTelegrafs p) /\
  (forall d, DiffDashboard_Name (newDiffDashboard O d) = dashboard_name d) /\
  (forall t, TelegrafConfig_Name (DiffTelegraf_Config (newDiffTelegraf O t)) =
             TelegrafConfig_Name (telegraf_config t)).

End FrameVocabulary.

(** *** Vocabulary of the apply *)

(** The rollback list of applier [k] gained the item the worker [i] was
    working on, and no other list changed. *)
Definition appended (k : ApplierKind) (i : nat) (r r' : RollbackLists) : Prop :=
  match k with
  | ApLabels => r' = push_rollBackLabels i r
  | ApVariables => r' = push_rollBackVars i r
  | ApBuckets => r' = push_rollbackBuckets i r
  | ApDashboards => r' = push_rollbackDashboards i r
  | ApNotificationEndpoints => r' = push_rollbackEndpoints i r
  | ApTelegrafs => r' = push_rollbackTelegrafs i r
  | ApLabelMappings => exists m, r' = push_rollbackMappings m r
  end.

(** The create and update calls of the port behind applier [k]. *)
Definition creates_or_updates (k : ApplierKind) (c : Call) : Prop :=
  match k, c with
  | ApLabels, (CCreateLabel _ | CUpdateLabel _ _) => True
  | ApVariables, (CCreateVariable _ | CUpdateVariable _ _) => True
  | ApBuckets, (CCreateBucket _ | CUpdateBucket _ _) => True
  | ApDashboards, CCreateDashboard _ => True
  | ApNotificationEndpoints,
    (CCreateNotificationEndpoint _ _ | CUpdateNotificationEndpoint _ _ _) => True
  | ApTelegrafs, CCreateTelegrafConfig _ _ => True
  | ApLabelMappings, CCreateLabelMapping _ => True
  | _, _ => False
  end.

(** What a create function does to the call log and to the rollback
    lists: it makes no call, or a call that fails, and appends nothing; or
    it makes one create or update call that succeeds and appends its item. *)
Definition createFn_outcome {W} (k : ApplierKind) (i : nat) (s : Sys W)
  (r : option applyErrBody * Sys W) : Prop :=
  (rbl (snd r) = rbl s /\
   (calls (snd r) = calls s \/
    exists call, calls (snd r) = calls s ++ [(call, false)] /\ fst r <> None)) \/
  (fst r = None /\
   exists call, creates_or_updates k call /\
                calls (snd r) = calls s ++ [(call, true)] /\
                appended k i (rbl s) (rbl (snd r))).

(** The workers of a group of [n]: one create event each. *)
Definition created (res : string) (n : nat) : list event :=
  map (EvCreate res) (seq 0 n).

(** The event a worker leaves. *)
Definition ev_of (it : applier * nat) : event :=
  EvCreate (resource (applier_rollbacker (fst it))) (snd it).

(** The create events of the appliers of a group, in spawning order. *)
Definition group_created (appliers : list applier) : list event :=
  flat_map (fun app => created (resource (applier_rollbacker app))
                               (entries (applier_creater app))) appliers.

Definition is_rollback (ev : event) : Prop :=
  match ev with EvRollback _ => True | _ => False end.

(** The rollback handlers invoked, in the order of their invocation. *)
Definition rollback_events (t : list event) : list string :=
  omap (fun ev => match ev with EvRollback r => Some r | _ => None end) t.

(** The events of [c'] that [c] did not have yet. *)
Definition new_events {W} (c c' : @Coord W) : list event :=
  drop (length (trace c)) (trace c').

(** An error that a rollback handler returns. *)
Definition is_rollback_error (e : error) : Prop :=
  match e with
  | RollbackFailed _ _ | RollbackMappingsFailed _ => True
  | _ => False
  end.

(** The entries a rollback may add to the log. *)
Definition rollback_log (rs : list rollbacker) (entry : string * error) : Prop :=
  exists r, In r rs /\ fst entry = ("failed to delete " ++ resource r)%string /\
            is_rollback_error (snd entry).

(** The rollbackers in the order in which [Apply] records them. *)
Definition recorded_labels : list rollbacker := [ mkRollbacker "label" ApLabels ].
Definition recorded_primaries : list rollbacker :=
  recorded_labels ++
  [ mkRollbacker "variable" ApVariables;
    mkRollbacker "bucket" ApBuckets;
    mkRollbacker "dashboard" ApDashboards;
    mkRollbacker "notification_endpoints" ApNotificationEndpoints;
    mkRollbacker "telegrafs" ApTelegrafs ].
Definition recorded_all : list rollbacker :=
  recorded_primaries ++ [ mkRollbacker "label_mapping" ApLabelMappings ].

(** The claim that the rollback handlers run last recorded, first invoked. *)
Definition rollbacks_in_reverse {W} (c c' : @Coord W) : Prop :=
  rollback_events (new_events c c') = rev (map resource (rollbacks c')).

(** The packages hold as many records of each kind. *)
Definition same_sizes (p p' : Pkg) : Prop :=
  length (pBuckets p') = length (pBuckets p) /\
  length (pLabels p') = length (pLabels p) /\
  length (pDashboards p') = length (pDashboards p) /\
  length (pEndpoints p') = length (pEndpoints p) /\
  length (pTelegrafs p') = length (pTelegrafs p) /\
  length (pVariables p') = length (pVariables p).

Definition sizes_kept {W} (s s' : Sys W) : Prop := same_sizes (pkg s) (pkg s').
Definition pkg_kept {W} (s s' : Sys W) : Prop := pkg s' = pkg s.

(** What the coordinator keeps beside the shared state. *)
Definition same_record {W} (c c' : @Coord W) : Prop :=
  trace c' = trace c /\ rollbacks c' = rollbacks c /\ logged c' = logged c.

(** A relation on the shared state, seen from the coordinator. *)
Definition kept {W} (R : Sys W -> Sys W -> Prop) (c c' : @Coord W) : Prop :=
  R (sys c) (sys c').

Section RollbackVocabulary.
Context {W : Type} (P : Ports W) (O : PkgOps).

(** The handlers of [rs] run one after the other, each once, on the shared
    state; what each of them returns. *)
Definition run_handlers (rs : list rollbacker)
  : ST (Sys W) (list (rollbacker * option error)) :=
  mapM (fun r => e <- rollbacker_fn P O r ;; ret (r, e)) rs.

(** The entries the log gains for them: one for every handler that
    returned an error, holding that error. *)
Definition handler_log (outs : list (rollbacker * option error))
  : list (string * error) :=
  omap (fun out =>
          match snd out with
          | Some err => Some (("failed to delete " ++ resource (fst out))%string, err)
          | None => None
          end) outs.

End RollbackVocabulary.

Section ApplyShapes.
Context (O : PkgOps) (p : Pkg).

(** The create events of each group, one per record of the package [p]:
    for the labels, for the primary resources in the order of their
    appliers, and for the label mappings that [p] reports. *)
Definition labels_created : list event :=
  created "label" (length (pLabels p)).

Definition primaries_created : list event :=
  created "variable" (length (pVariables p))
  ++ created "bucket" (length (pBuckets p))
  ++ created "dashboard" (length (pDashboards p))
  ++ created "notification_endpoints" (length (pEndpoints p))
  ++ created "telegrafs" (length (pTelegrafs p)).

Definition mappings_created : list event :=
  created "label_mapping" (length (pkg_labelMappings O p)).

(** The shape of what an [Apply] that returns [e] does.  Without a single
    event it returns an error, the one met before the coordinator exists.
    Otherwise the workers of the labels run, in any order, and their group
    ends; then, if that group ended without an error, the workers of the
    primary resources and the end of their group; then, if that one ended
    without an error, the workers of the label mappings and the end of
    their group.  The verdict of the last group that ran is what [Apply]
    returns: after an error rollbacks only follow, after a success
    nothing. *)
Inductive groups_in_order : option error -> list event -> Prop :=
| gio_early err : groups_in_order (Some err) []
| gio_labels_failed tA err rest :
    Permutation tA labels_created ->
    Forall is_rollback rest ->
    groups_in_order (Some err) (tA ++ EvGroupEnd (Some err) :: rest)
| gio_primaries_failed tA tB err rest :
    Permutation tA labels_created ->
    Permutation tB primaries_created ->
    Forall is_rollback rest ->
    groups_in_order (Some err)
      (tA ++ EvGroupEnd None :: tB ++ EvGroupEnd (Some err) :: rest)
| gio_mappings_failed tA tB tC err rest :
    Permutation tA labels_created ->
    Permutation tB primaries_created ->
    Permutation tC mappings_created ->
    Forall is_rollback rest ->
    groups_in_order (Some err)
      (tA ++ EvGroupEnd None :: tB ++ EvGroupEnd None :: tC
          ++ EvGroupEnd (Some err) :: rest)
| gio_all tA tB tC :
    Permutation tA labels_created ->
    Permutation tB primaries_created ->
    Permutation tC mappings_created ->
    groups_in_order None
      (tA ++ EvGroupEnd None :: tB ++ EvGroupEnd None :: tC ++ [EvGroupEnd None]).

(** What [Apply] has done when it reaches its return statement with the
    error [e]: the groups that ran, the rollbackers recorded, the events. *)
Inductive body_shape : option error -> list rollbacker -> list event -> Prop :=
| body_labels_failed tA errs :
    Permutation tA labels_created ->
    body_shape (Some (ApplyFailed errs)) recorded_labels
               (tA ++ [EvGroupEnd (Some (ApplyFailed errs))])
| body_primaries_failed tA tB errs :
    Permutation tA labels_created ->
    Permutation tB primaries_created ->
    body_shape (Some (ApplyFailed errs)) recorded_primaries
               (tA ++ EvGroupEnd None :: tB ++ [EvGroupEnd (Some (ApplyFailed errs))])
| body_all tA tB tC e :
    Permutation tA labels_created ->
    Permutation tB primaries_created ->
    Permutation tC mappings_created ->
    (e = None \/ exists errs, e = Some (ApplyFailed errs)) ->
    body_shape e recorded_all
               (tA ++ EvGroupEnd None :: tB ++ EvGroupEnd None :: tC ++ [EvGroupEnd e]).

End ApplyShapes.

Section WorkerVocabulary.
Context {W : Type} (P : Ports W) (O : PkgOps) (R : Sys W -> Sys W -> Prop).

(** The create function of an applier keeps [R]. *)
Definition creater_keeps (app : applier) : Prop :=
  forall ctx i orgID userID,
    respects R (creater_fn P O (applier_creater app) ctx i orgID userID).

End WorkerVocabulary.

Section DryRunVocabulary.
Context {W : Type} (O : PkgOps).

(** The calls grow by reads only; the rollback lists and the package stay. *)
Definition reads_only (s s' : Sys W) : Prop :=
  rbl s' = rbl s /\ pkg s' = pkg s /\
  exists cs, calls s' = calls s ++ cs /\ read_only cs.

(** The same, the package moving within the frame of a dry run. *)
Definition dry (s s' : Sys W) : Prop :=
  rbl s' = rbl s /\ dryRun_frame O (pkg s) (pkg s') /\
  exists cs, calls s' = calls s ++ cs /\ read_only cs.

(** The package a dry run works on: the one given, validated first when it
    has not been parsed. *)
Definition validated (p : Pkg) : Pkg :=
  if isParsed p then p else fst (pkg_Validate O p).

(** How a dry run ends: it gives up with an error, an empty diff and an
    empty summary, or it marks the package verified and reports. *)
Definition dryRun_outcome (r : Summary O * Diff * option error) (p' : Pkg) : Prop :=
  (exists err, r = (Summary_zero O, Diff_empty, Some err)) \/
  (isVerified p' = true /\ sections_as_built O p' (snd (fst r)) /\
   fst (fst r) = pkg_Summary O p').

End DryRunVocabulary.

Section DryRunEffect.
Context {W : Type} (P : Ports W) (O : PkgOps) (ctx : context) (orgID : ID).

(** The first step of [DryRun]: the validation of a package that was not
    parsed.  A parse error is kept for the end, any other error ends the
    dry run. *)
Definition DryRun_validate : ST (Sys W) (result (option error)) :=
  parsed <- gets (fun s => isParsed (pkg s)) ;;
  if parsed then ret (Ok None)
  else
    p <- gets pkg ;;
    let (p', err) := pkg_Validate O p in
    modify (set_pkg (fun _ => p')) ;;;
    match err with
    | Some e => if IsParseErr e then ret (Ok (Some e)) else ret (Failed e)
    | None => ret (Ok None)
    end.

(** The records [l] are looked up on the platform one after the other,
    each by the call [find] makes for it, while the platform moves from
    [w] to [w']; a record becomes what [fill] makes of it with the answer
    to its own call. *)
Inductive looked_up {A B} (find : A -> W -> W * B) (fill : A -> B -> A)
  : W -> list A -> list A -> W -> Prop :=
| looked_up_nil w : looked_up find fill w [] [] w
| looked_up_cons w a w1 ans l l' w2 :
    find a w = (w1, ans) ->
    looked_up find fill w1 l l' w2 ->
    looked_up find fill w (a :: l) (fill a ans :: l') w2.

(** A bucket is asked for by FindBucketByName(orgID, name); an answer
    without an error fills the slot. *)
Definition bucket_filled (b : bucket) (ans : result Bucket) : bucket :=
  match ans with
  | Ok existingBkt => bucket_with_existing (Some existingBkt) b
  | Failed _ => b
  end.

Definition buckets_looked_up : W -> list bucket -> list bucket -> W -> Prop :=
  looked_up (fun b w => FindBucketByName W P w ctx orgID (bucket_name b)) bucket_filled.

(** A label is asked for by FindLabels(name, orgID); the first label of an
    answer without an error fills the slot. *)
Definition label_filled (l : label) (ans : result (list Label)) : label :=
  match ans with
  | Ok (existingLabel :: _) => label_with_existing (Some existingLabel) l
  | _ => l
  end.

Definition labels_looked_up : W -> list label -> list label -> W -> Prop :=
  looked_up (fun l w => FindLabels W P w ctx (label_name l) orgID) label_filled.

(** For a variable the variables of the organisation are listed; the first
    of them that bears the name fills the slot. *)
Definition variable_filled (v : variable) (ans : result (list InfluxVariable))
  : variable :=
  match ans with
  | Ok existing =>
      match find_variable (variable_name v) existing with
      | Some existingVar => variable_with_existing (Some existingVar) v
      | None => v
      end
  | Failed _ => v
  end.

Definition variables_looked_up : W -> list variable -> list variable -> W -> Prop :=
  looked_up (fun v w => FindVariables W P w ctx orgID) variable_filled.

(** The notification endpoints of the organisation are listed once; the
    last of them that bears the name of an endpoint of the package fills
    its slot. *)
Definition endpoint_filled (existing : list NotificationEndpoint)
  (n : notificationEndpoint) : notificationEndpoint :=
  match List.find (fun e => bool_decide (NotificationEndpoint_Name e = endpoint_name n))
                  (rev existing) with
  | Some e => endpoint_with_existing (Some e) n
  | None => n
  end.

(** The platform after the check of the secrets: the keys are fetched when
    the package refers to a secret. *)
Definition secrets_checked (p : Pkg) (w : W) : W :=
  if decide (pSecrets p = ∅) then w else fst (GetSecretKeys W P w ctx orgID).

(** The associater of a resource with the diff made for one of its labels;
    recording it is [setMapping] on the label of that name, with the
    mapping existing when the diff is not new. *)
Definition mapping_record : Type := labelAssociater * DiffLabelMapping.

Definition record_mappings (recs : list mapping_record) (labels : list label)
  : list label :=
  fold_left (fun ls rec =>
               mLabels_setMapping O (DiffLabelMapping_LabelName (snd rec)) (fst rec)
                                  (negb (DiffLabelMapping_IsNew (snd rec))) ls)
            recs labels.

(** The diff [d] is about the resource behind [la]. *)
Definition about (la : labelAssociater) (d : DiffLabelMapping) : Prop :=
  DiffLabelMapping_ResType d = la_ResourceType la /\
  DiffLabelMapping_ResID d = la_ID la /\
  DiffLabelMapping_ResName d = la_Name la.

(** The diff of a record is about the resource behind its associater, one
    of the resources of [p]. *)
Definition diff_of (p : Pkg) (rec : mapping_record) : Prop :=
  In (fst rec) (mappers O p) /\ about (fst rec) (snd rec).

(** [s'] is [s] with the mappings [recs] recorded on the labels. *)
Definition recorded (recs : list mapping_record) (s s' : Sys W) : Prop :=
  pkg s' = with_pLabels (record_mappings recs (pLabels (pkg s))) (pkg s).

(** The package with its records looked up. *)
Definition looked_up_pkg (bs : list bucket) (ls : list label)
  (es : list notificationEndpoint) (vs : list variable) (p : Pkg) : Pkg :=
  with_pVariables vs (with_pEndpoints es (with_pLabels ls (with_pBuckets bs p))).

(** What a dry run that starts on the platform [w0] does to the package
    [p0] it works on, and what it returns.
    - It gives up at the validation or at the check of the secrets: the
      package is as it was.
    - It gives up because the notification endpoints cannot be listed:
      the buckets and the labels have been looked up.
    - It gives up because the labels of a resource cannot be listed: the
      buckets, labels, notification endpoints and variables have been
      looked up and the mappings diffed so far are recorded.
    - It returns a diff: every record has been looked up, every mapping of
      the diff is recorded, once, on the label it names, and the package
      is verified. *)
Inductive dryRun_effect (p0 : Pkg) (w0 : W)
  : Summary O * Diff * option error -> Pkg -> Prop :=
| effect_none err :
    dryRun_effect p0 w0 (Summary_zero O, Diff_empty, Some err) p0
| effect_endpoints_failed err bs w1 ls w2 w3 :
    buckets_looked_up (secrets_checked p0 w0) (pBuckets p0) bs w1 ->
    labels_looked_up w1 (pLabels p0) ls w2 ->
    FindNotificationEndpoints W P w2 ctx orgID = (w3, Failed err) ->
    dryRun_effect p0 w0 (Summary_zero O, Diff_empty, Some err)
                  (with_pLabels ls (with_pBuckets bs p0))
| effect_mappings_failed err bs w1 ls w2 existing w3 vs w4 recs :
    buckets_looked_up (secrets_checked p0 w0) (pBuckets p0) bs w1 ->
    labels_looked_up w1 (pLabels p0) ls w2 ->
    FindNotificationEndpoints W P w2 ctx orgID = (w3, Ok existing) ->
    variables_looked_up w3 (pVariables p0) vs w4 ->
    let p4 := looked_up_pkg bs ls (map (endpoint_filled existing) (pEndpoints p0)) vs p0 in
    Forall (diff_of p4) recs ->
    dryRun_effect p0 w0 (Summary_zero O, Diff_empty, Some err)
                  (with_pLabels (record_mappings recs ls) p4)
| effect_done sum d parseErr bs w1 ls w2 existing w3 vs w4 recs :
    buckets_looked_up (secrets_checked p0 w0) (pBuckets p0) bs w1 ->
    labels_looked_up w1 (pLabels p0) ls w2 ->
    FindNotificationEndpoints W P w2 ctx orgID = (w3, Ok existing) ->
    variables_looked_up w3 (pVariables p0) vs w4 ->
    let p4 := looked_up_pkg bs ls (map (endpoint_filled existing) (pEndpoints p0)) vs p0 in
    Forall (diff_of p4) recs ->
    Permutation (map snd recs) (Diff_LabelMappings d) ->
    dryRun_effect p0 w0 (sum, d, parseErr)
                  (with_isVerified true (with_pLabels (record_mappings recs ls) p4)).

End DryRunEffect.

Module Ref.

Definition is_nil {A} (o : option A) : bool :=
  match o with None => true | Some _ => false end.

#[global] Instance VariableArguments_eq_dec : EqDecision VariableArguments.
Proof. solve_decision. Defined.

(** id.String(): the digits of the ID. *)
Fixpoint digits (fuel : nat) (n : N) (acc : string) : string :=
  match fuel with
  | 0 => acc
  | S fuel' =>
      let d := String (Ascii.ascii_of_N (48 + n mod 10)) acc in
      if (n <? 10)%N then d else digits fuel' (n / 10)%N d
  end.
Definition ID_String (id : ID) : string := digits 20 id "".

Definition bucket_ID (b : bucket) : ID :=
  match bucket_existing b with Some e => Bucket_ID e | None => bucket_id b end.
Definition label_ID (l : label) : ID :=
  match label_existing l with Some e => Label_ID e | None => label_id l end.
Definition variable_ID (v : variable) : ID :=
  match variable_existing v with Some e => Variable_ID e | None => variable_id v end.
Definition endpoint_ID (e : notificationEndpoint) : ID :=
  match endpoint_existing e with
  | Some x => NotificationEndpoint_ID x
  | None => endpoint_id e
  end.

(** time.Duration(rule.Seconds) * time.Second of the first rule *)
Definition RP (rules : list Z) : Duration :=
  match rules with
  | [] => 0
  | seconds :: _ => seconds * 1000000000
  end%Z.

Definition bucket_shouldApply (b : bucket) : bool :=
  match bucket_existing b with
  | None => true
  | Some e =>
      negb (String.eqb (bucket_Description b) (Bucket_Description e))
      || negb (String.eqb (bucket_name b) (Bucket_Name e))
      || negb (Z.eqb (RP (bucket_RetentionRules b)) (Bucket_RetentionPeriod e))
  end.

Definition label_properties (l : label) : Properties :=
  [ ("color", label_Color l); ("description", label_Description l) ].

Definition properties_eqb (a b : Properties) : bool :=
  bool_decide (a = b).

Definition label_shouldApply (l : label) : bool :=
  match label_existing l with
  | None => true
  | Some e => negb (properties_eqb (label_properties l) (Label_Properties e))
  end.

Definition variable_shouldApply (v : variable) : bool :=
  match variable_existing v with
  | None => true
  | Some e =>
      negb (String.eqb (variable_Description v) (Variable_Description e))
      || negb (bool_decide (variable_args v = Variable_Arguments e))
  end.

Definition label_toInfluxLabel (l : label) : Label :=
  mkLabel (label_ID l) (label_OrgID l) (label_name l) (label_properties l).

Definition endpoint_summarize (e : notificationEndpoint) : NotificationEndpoint :=
  mkNotificationEndpoint (endpoint_ID e) (endpoint_OrgID e) (endpoint_name e)
    (endpoint_description e) (endpoint_status e) (endpoint_url e) [].

(** l.mappings[key{resType, name}] = exists *)
Fixpoint upsert (r : labelMapRec) (ms : list labelMapRec) : list labelMapRec :=
  match ms with
  | [] => [r]
  | m :: ms' =>
      if String.eqb (lmr_resType m) (lmr_resType r)
         && String.eqb (lmr_resName m) (lmr_resName r)
      then r :: ms'
      else m :: upsert r ms'
  end.

Definition label_setMapping (l : label) (la : labelAssociater) (exist : bool) : label :=
  mklabel (label_id l) (label_OrgID l) (label_name l) (label_Color l)
          (label_Description l)
          (upsert (mkLabelMapRec (la_ResourceType la) (la_Name la) exist) (label_mappings l))
          (label_existing l).

Definition mapperBuckets (b : bucket) : labelAssociater :=
  mkLabelAssociater (bucket_ID b) (bucket_name b) (bucket_labels b) "buckets"
                    (negb (is_nil (bucket_existing b))).
Definition mapperDashboards (d : dashboard) : labelAssociater :=
  mkLabelAssociater (dashboard_id d) (dashboard_name d) (dashboard_labels d)
                    "dashboards" false.
Definition mapperNotificationEndpoints (e : notificationEndpoint) : labelAssociater :=
  mkLabelAssociater (endpoint_ID e) (endpoint_name e) (endpoint_labels e)
                    "notificationEndpoints" (negb (is_nil (endpoint_existing e))).
Definition mapperTelegrafs (t : telegraf) : labelAssociater :=
  mkLabelAssociater (TelegrafConfig_ID (telegraf_config t))
                    (TelegrafConfig_Name (telegraf_config t)) (telegraf_labels t)
                    "telegrafs" false.
Definition mapperVariables (v : variable) : labelAssociater :=
  mkLabelAssociater (variable_ID v) (variable_name v) (variable_labels v) "variables"
                    (negb (is_nil (variable_existing v))).

(** The ID of the resource a recorded mapping names. *)
Definition resource_ID (p : Pkg) (m : labelMapRec) : ID :=
  let las := map mapperBuckets (pBuckets p)
             ++ map mapperDashboards (pDashboards p)
             ++ map mapperNotificationEndpoints (pEndpoints p)
             ++ map mapperTelegrafs (pTelegrafs p)
             ++ map mapperVariables (pVariables p) in
  match List.find (fun la => String.eqb (la_ResourceType la) (lmr_resType m)
                             && String.eqb (la_Name la) (lmr_resName m)) las with
  | Some la => la_ID la
  | None => 0%N
  end.

Definition labelMappings (p : Pkg) : list SummaryLabelMapping :=
  flat_map (fun l =>
    map (fun m => mkSummaryLabelMapping (lmr_exists m) (lmr_resName m) (label_name l)
                    (label_ID l) (resource_ID p m) (lmr_resType m))
        (label_mappings l)) (pLabels p).

Definition Validate (p : Pkg) : Pkg * option error :=
  (mkPkg true (isVerified p) (pBuckets p) (pLabels p) (pDashboards p) (pEndpoints p)
         (pTelegrafs p) (pVariables p) (pSecrets p), None).

Definition Pkg_empty : Pkg := mkPkg false false [] [] [] [] [] [] ∅.

(** Modelled from the spec: the methods and constructors of the package
    model that [service.go] calls and that are declared in the other files
    of the package ([ID()], [shouldApply()], [RP()], [summarize()],
    [setMapping], [labelMappings()], [Validate()], [Summary()], the
    [newDiff...] constructors, the label mappers).  A record's [ID()] is
    the platform ID once the record is bound to a platform resource and
    the stamped [id] otherwise; [shouldApply()] is false for a record that
    exists identically; a diff entry carries the record's name, whether it
    is new, the desired and the existing state; [setMapping] records the
    (resource, label) edge with its [exists] flag and [labelMappings()]
    lists the recorded edges; [Summary()] reports the package. *)
Definition ops : PkgOps :=
  mkPkgOps
    ID_String
    Pkg Pkg_empty (fun p => p)
    Validate
    labelMappings
    bucket_ID label_ID variable_ID endpoint_ID
    dashboard_id
    (fun t => TelegrafConfig_ID (telegraf_config t))
    bucket_shouldApply label_shouldApply variable_shouldApply
    RP
    label_properties label_toInfluxLabel
    variable_args
    endpoint_summarize
    chart_properties
    label_setMapping
    mapperBuckets mapperDashboards mapperNotificationEndpoints mapperTelegrafs
    mapperVariables
    (fun b e => mkDiffBucket (is_nil e) (bucket_name b) b e)
    (fun d => mkDiffDashboard (dashboard_name d) (dashboard_Description d)
                              (dashboard_Charts d))
    (fun l e => mkDiffLabel (is_nil e) (label_name l) l e)
    (fun n e => mkDiffNotificationEndpoint (is_nil e) (endpoint_name n) n e)
    (fun t => mkDiffTelegraf (telegraf_config t))
    (fun v e => mkDiffVariable (is_nil e) (variable_name v) v e).

End Ref.

(** ** A platform in memory and a reading of the package helpers

    Used to run the service on concrete packages. *)

Module Mem.

(** An in-memory platform: what each service stores, the next ID it hands
    out, and the resource names on which a create fails. *)
Record World := mkWorld {
  w_buckets : list Bucket;
  w_labels : list Label;
  w_variables : list InfluxVariable;
  w_endpoints : list NotificationEndpoint;
  w_telegrafs : list TelegrafConfig;
  w_dashboards : list Dashboard;
  w_mappings : list LabelMapping;
  w_secrets : list string;
  w_nextID : ID;
  w_failing : list string
}.

Definition canceled {A} : result A := Failed (PortError "context canceled").
Definition boom {A} : result A := Failed (PortError "boom").
Definition not_found {A} : result A := Failed (PortError "not found").

Definition fails (w : World) (name : string) : bool :=
  existsb (String.eqb name) (w_failing w).

Definition bump (w : World) : ID := (w_nextID w + 1)%N.

Definition find_bucket (w : World) (ctx : context) (orgID : ID) (name : string)
  : World * result Bucket :=
  if ctx then (w, canceled)
  else match List.find (fun b => N.eqb (Bucket_OrgID b) orgID && String.eqb (Bucket_Name b) name)
                       (w_buckets w) with
       | Some b => (w, Ok b)
       | None => (w, not_found)
       end.

Definition create_bucket (w : World) (ctx : context) (b : Bucket) : World * result Bucket :=
  if ctx then (w, canceled)
  else if fails w (Bucket_Name b) then (w, boom)
  else
    let b' := mkBucket (w_nextID w) (Bucket_OrgID b) (Bucket_Name b)
                       (Bucket_Description b) (Bucket_RetentionPeriod b) in
    (mkWorld (w_buckets w ++ [b']) (w_labels w) (w_variables w) (w_endpoints w)
             (w_telegrafs w) (w_dashboards w) (w_mappings w) (w_secrets w)
             (bump w) (w_failing w), Ok b').

Definition patch_bucket (upd : BucketUpdate) (b : Bucket) : Bucket :=
  mkBucket (Bucket_ID b) (Bucket_OrgID b) (Bucket_Name b)
           (default (Bucket_Description b) (BucketUpdate_Description upd))
           (default (Bucket_RetentionPeriod b) (BucketUpdate_RetentionPeriod upd)).

Definition update_bucket (w : World) (ctx : context) (id : ID) (upd : BucketUpdate)
  : World * result Bucket :=
  if ctx then (w, canceled)
  else match List.find (fun b => N.eqb (Bucket_ID b) id) (w_buckets w) with
       | None => (w, not_found)
       | Some b =>
           if fails w (Bucket_Name b) then (w, boom)
           else
             let b' := patch_bucket upd b in
             (mkWorld (map (fun x => if N.eqb (Bucket_ID x) id then b' else x) (w_buckets w))
                      (w_labels w) (w_variables w) (w_endpoints w)
                      (w_telegrafs w) (w_dashboards w) (w_mappings w) (w_secrets w)
                      (w_nextID w) (w_failing w), Ok b')
       end.

Definition delete_bucket (w : World) (ctx : context) (id : ID) : World * result unit :=
  (mkWorld (List.filter (fun x => negb (N.eqb (Bucket_ID x) id)) (w_buckets w))
           (w_labels w) (w_variables w) (w_endpoints w)
           (w_telegrafs w) (w_dashboards w) (w_mappings w) (w_secrets w)
           (w_nextID w) (w_failing w), Ok tt).

Definition create_dashboard (w : World) (ctx : context) (d : Dashboard)
  : World * result Dashboard :=
  if ctx then (w, canceled)
  else if fails w (Dashboard_Name d) then (w, boom)
  else
    let d' := mkDashboard (w_nextID w) (Dashboard_OrganizationID d) (Dashboard_Name d)
                          (Dashboard_Description d) (Dashboard_Cells d) in
    (mkWorld (w_buckets w) (w_labels w) (w_variables w) (w_endpoints w)
             (w_telegrafs w) (w_dashboards w ++ [d']) (w_mappings w) (w_secrets w)
             (bump w) (w_failing w), Ok d').

Definition delete_dashboard (w : World) (ctx : context) (id : ID) : World * result unit :=
  (mkWorld (w_buckets w) (w_labels w) (w_variables w) (w_endpoints w) (w_telegrafs w)
           (List.filter (fun x => negb (N.eqb (Dashboard_ID x) id)) (w_dashboards w))
           (w_mappings w) (w_secrets w) (w_nextID w) (w_failing w), Ok tt).

Definition find_labels (w : World) (ctx : context) (name : string) (orgID : ID)
  : World * result (list Label) :=
  if ctx then (w, canceled)
  else (w, Ok (firstn 1 (List.filter
                 (fun l => N.eqb (Label_OrgID l) orgID && String.eqb (Label_Name l) name)
                 (w_labels w)))).

Definition create_label (w : World) (ctx : context) (l : Label) : World * result Label :=
  if ctx then (w, canceled)
  else if fails w (Label_Name l) then (w, boom)
  else
    let l' := mkLabel (w_nextID w) (Label_OrgID l) (Label_Name l) (Label_Properties l) in
    (mkWorld (w_buckets w) (w_labels w ++ [l']) (w_variables w) (w_endpoints w)
             (w_telegrafs w) (w_dashboards w) (w_mappings w) (w_secrets w)
             (bump w) (w_failing w), Ok l').

Definition update_label (w : World) (ctx : context) (id : ID) (upd : LabelUpdate)
  : World * result Label :=
  if ctx then (w, canceled)
  else match List.find (fun l => N.eqb (Label_ID l) id) (w_labels w) with
       | None => (w, not_found)
       | Some l =>
           let l' := mkLabel (Label_ID l) (Label_OrgID l) (Label_Name l)
                             (LabelUpdate_Properties upd) in
           (mkWorld (w_buckets w)
                    (map (fun x => if N.eqb (Label_ID x) id then l' else x) (w_labels w))
                    (w_variables w) (w_endpoints w)
                    (w_telegrafs w) (w_dashboards w) (w_mappings w) (w_secrets w)
                    (w_nextID w) (w_failing w), Ok l')
       end.

Definition delete_label (w : World) (ctx : context) (id : ID) : World * result unit :=
  (mkWorld (w_buckets w)
           (List.filter (fun x => negb (N.eqb (Label_ID x) id)) (w_labels w))
           (w_variables w) (w_endpoints w)
           (w_telegrafs w) (w_dashboards w) (w_mappings w) (w_secrets w)
           (w_nextID w) (w_failing w), Ok tt).

Definition find_resource_labels (w : World) (ctx : context) (rid : ID) (rt : ResourceType)
  : World * result (list Label) :=
  if ctx then (w, canceled)
  else
    let ids := map LabelMapping_LabelID
                 (List.filter (fun m => N.eqb (LabelMapping_ResourceID m) rid
                                        && String.eqb (LabelMapping_ResourceType m) rt)
                              (w_mappings w)) in
    (w, Ok (List.filter (fun l => existsb (N.eqb (Label_ID l)) ids) (w_labels w))).

Definition create_label_mapping (w : World) (ctx : context) (m : LabelMapping)
  : World * result unit :=
  if ctx then (w, canceled)
  else
    (mkWorld (w_buckets w) (w_labels w) (w_variables w) (w_endpoints w)
             (w_telegrafs w) (w_dashboards w) (w_mappings w ++ [m]) (w_secrets w)
             (w_nextID w) (w_failing w), Ok tt).

Definition same_mapping (a b : LabelMapping) : bool :=
  N.eqb (LabelMapping_LabelID a) (LabelMapping_LabelID b)
  && N.eqb (LabelMapping_ResourceID a) (LabelMapping_ResourceID b)
  && String.eqb (LabelMapping_ResourceType a) (LabelMapping_ResourceType b).

Definition delete_label_mapping (w : World) (ctx : context) (m : LabelMapping)
  : World * result unit :=
  (mkWorld (w_buckets w) (w_labels w) (w_variables w) (w_endpoints w)
           (w_telegrafs w) (w_dashboards w)
           (List.filter (fun x => negb (same_mapping x m)) (w_mappings w)) (w_secrets w)
           (w_nextID w) (w_failing w), Ok tt).

Definition find_endpoints (w : World) (ctx : context) (orgID : ID)
  : World * result (list NotificationEndpoint) :=
  if ctx then (w, canceled)
  else (w, Ok (List.filter (fun e => N.eqb (NotificationEndpoint_OrgID e) orgID)
                           (w_endpoints w))).

Definition create_endpoint (w : World) (ctx : context) (e : NotificationEndpoint)
  (userID : ID) : World * result NotificationEndpoint :=
  if ctx then (w, canceled)
  else if fails w (NotificationEndpoint_Name e) then (w, boom)
  else
    let e' := mkNotificationEndpoint (w_nextID w) (NotificationEndpoint_OrgID e)
                (NotificationEndpoint_Name e) (NotificationEndpoint_Description e)
                (NotificationEndpoint_Status e) (NotificationEndpoint_URL e)
                (NotificationEndpoint_SecretFields e) in
    (mkWorld (w_buckets w) (w_labels w) (w_variables w) (w_endpoints w ++ [e'])
             (w_telegrafs w) (w_dashboards w) (w_mappings w) (w_secrets w)
             (bump w) (w_failing w), Ok e').

Definition update_endpoint (w : World) (ctx : context) (id : ID)
  (e : NotificationEndpoint) (userID : ID) : World * result NotificationEndpoint :=
  if ctx then (w, canceled)
  else
    (mkWorld (w_buckets w) (w_labels w) (w_variables w)
             (map (fun x => if N.eqb (NotificationEndpoint_ID x) id then e else x)
                  (w_endpoints w))
             (w_telegrafs w) (w_dashboards w) (w_mappings w) (w_secrets w)
             (w_nextID w) (w_failing w), Ok e).

Definition delete_endpoint (w : World) (ctx : context) (id : ID) : World * result unit :=
  (mkWorld (w_buckets w) (w_labels w) (w_variables w)
           (List.filter (fun x => negb (N.eqb (NotificationEndpoint_ID x) id)) (w_endpoints w))
           (w_telegrafs w) (w_dashboards w) (w_mappings w) (w_secrets w)
           (w_nextID w) (w_failing w), Ok tt).

Definition get_secret_keys (w : World) (ctx : context) (orgID : ID)
  : World * result (list string) :=
  if ctx then (w, canceled) else (w, Ok (w_secrets w)).

Definition create_telegraf (w : World) (ctx : context) (c : TelegrafConfig) (userID : ID)
  : World * result TelegrafConfig :=
  if ctx then (w, canceled)
  else if fails w (TelegrafConfig_Name c) then (w, boom)
  else
    let c' := mkTelegrafConfig (w_nextID w) (TelegrafConfig_OrgID c)
                (TelegrafConfig_Name c) (TelegrafConfig_Description c) in
    (mkWorld (w_buckets w) (w_labels w) (w_variables w) (w_endpoints w)
             (w_telegrafs w ++ [c']) (w_dashboards w) (w_mappings w) (w_secrets w)
             (bump w) (w_failing w), Ok c').

Definition delete_telegraf (w : World) (ctx : context) (id : ID) : World * result unit :=
  (mkWorld (w_buckets w) (w_labels w) (w_variables w) (w_endpoints w)
           (List.filter (fun x => negb (N.eqb (TelegrafConfig_ID x) id)) (w_telegrafs w))
           (w_dashboards w) (w_mappings w) (w_secrets w)
           (w_nextID w) (w_failing w), Ok tt).

Definition find_variables (w : World) (ctx : context) (orgID : ID)
  : World * result (list InfluxVariable) :=
  if ctx then (w, canceled)
  else (w, Ok (List.filter (fun v => N.eqb (Variable_OrganizationID v) orgID)
                           (w_variables w))).

Definition create_variable (w : World) (ctx : context) (v : InfluxVariable)
  : World * result InfluxVariable :=
  if ctx then (w, canceled)
  else if fails w (Variable_Name v) then (w, boom)
  else
    let v' := mkVariable (w_nextID w) (Variable_OrganizationID v) (Variable_Name v)
                         (Variable_Description v) (Variable_Arguments v) in
    (mkWorld (w_buckets w) (w_labels w) (w_variables w ++ [v']) (w_endpoints w)
             (w_telegrafs w) (w_dashboards w) (w_mappings w) (w_secrets w)
             (bump w) (w_failing w), Ok v').

Definition update_variable (w : World) (ctx : context) (id : ID) (upd : VariableUpdate)
  : World * result InfluxVariable :=
  if ctx then (w, canceled)
  else match List.find (fun v => N.eqb (Variable_ID v) id) (w_variables w) with
       | None => (w, not_found)
       | Some v =>
           let v' := mkVariable (Variable_ID v) (Variable_OrganizationID v)
                       (Variable_Name v) (VariableUpdate_Description upd)
                       (VariableUpdate_Arguments upd) in
           (mkWorld (w_buckets w) (w_labels w)
                    (map (fun x => if N.eqb (Variable_ID x) id then v' else x)
                         (w_variables w))
                    (w_endpoints w) (w_telegrafs w) (w_dashboards w) (w_mappings w)
                    (w_secrets w) (w_nextID w) (w_failing w), Ok v')
       end.

Definition delete_variable (w : World) (ctx : context) (id : ID) : World * result unit :=
  (mkWorld (w_buckets w) (w_labels w)
           (List.filter (fun x => negb (N.eqb (Variable_ID x) id)) (w_variables w))
           (w_endpoints w) (w_telegrafs w) (w_dashboards w) (w_mappings w)
           (w_secrets w) (w_nextID w) (w_failing w), Ok tt).

Definition ports : Ports World := {|
  FindBucketByName := find_bucket;
  CreateBucket := create_bucket;
  UpdateBucket := update_bucket;
  DeleteBucket := delete_bucket;
  CreateDashboard := create_dashboard;
  DeleteDashboard := delete_dashboard;
  FindLabels := find_labels;
  CreateLabel := create_label;
  UpdateLabel := update_label;
  DeleteLabel := delete_label;
  FindResourceLabels := find_resource_labels;
  CreateLabelMapping := create_label_mapping;
  DeleteLabelMapping := delete_label_mapping;
  FindNotificationEndpoints := find_endpoints;
  CreateNotificationEndpoint := create_endpoint;
  UpdateNotificationEndpoint := update_endpoint;
  DeleteNotificationEndpoint := delete_endpoint;
  GetSecretKeys := get_secret_keys;
  CreateTelegrafConfig := create_telegraf;
  DeleteTelegrafConfig := delete_telegraf;
  FindVariables := find_variables;
  CreateVariable := create_variable;
  UpdateVariable := update_variable;
  DeleteVariable := delete_variable
|}.

(** The same platform behind a label service that refuses every delete. *)
Definition refuse_delete (w : World) (ctx : context) (id : ID) : World * result unit :=
  (w, boom).

Definition ports_keeping_labels : Ports World := {|
  FindBucketByName := find_bucket;
  CreateBucket := create_bucket;
  UpdateBucket := update_bucket;
  DeleteBucket := delete_bucket;
  CreateDashboard := create_dashboard;
  DeleteDashboard := delete_dashboard;
  FindLabels := find_labels;
  CreateLabel := create_label;
  UpdateLabel := update_label;
  DeleteLabel := refuse_delete;
  FindResourceLabels := find_resource_labels;
  CreateLabelMapping := create_label_mapping;
  DeleteLabelMapping := delete_label_mapping;
  FindNotificationEndpoints := find_endpoints;
  CreateNotificationEndpoint := create_endpoint;
  UpdateNotificationEndpoint := update_endpoint;
  DeleteNotificationEndpoint := delete_endpoint;
  GetSecretKeys := get_secret_keys;
  CreateTelegrafConfig := create_telegraf;
  DeleteTelegrafConfig := delete_telegraf;
  FindVariables := find_variables;
  CreateVariable := create_variable;
  UpdateVariable := update_variable;
  DeleteVariable := delete_variable
|}.

End Mem.

(** ** Scenarios *)

Module Scenario.

Definition orgID : ID := 1%N.
Definition userID : ID := 2%N.

Definition bkt (name desc : string) (seconds : Z) (labels : list string) : bucket :=
  mkbucket 0%N 0%N desc name [seconds] labels None.
Definition lbl (name : string) : label := mklabel 0%N 0%N name "red" "" [] None.
Definition var (name : string) : variable := mkvariable 0%N 0%N name "" None [] None.
Definition dash (name : string) : dashboard := mkdashboard 0%N 0%N name "" [] [].

(** An empty platform, and one that holds the bucket [b1] and refuses to
    create the variable [v_bad]. *)
Definition platform_empty : Mem.World :=
  Mem.mkWorld [] [] [] [] [] [] [] [] 100%N [].
Definition platform_b1 : Mem.World :=
  Mem.mkWorld [mkBucket 7%N orgID "b1" "old" 60%Z] [] [] [] [] [] [] [] 100%N ["v_bad"].

Definition sys0 (w : Mem.World) (p : Pkg) : Sys Mem.World :=
  mkSys w [] p RollbackLists_empty.
Definition start (w : Mem.World) (p : Pkg) (o : list sched_event) : Coord :=
  mkCoord (sys0 w p) false o [] [] [].

(** A parsed package: the bucket [B1] labelled [L1], the label [L1], and
    the dashboards [a] and [b]. *)
Definition pkg_labelled : Pkg :=
  mkPkg true false [bkt "B1" "d" 3600 ["L1"]] [lbl "L1"] [dash "a"; dash "b"]
        [] [] [] ∅.

(** A parsed package: the buckets [B2] and [B1], the labels [L2] and [L1],
    the dashboards [a] and [b] and the telegraf configurations [s] and
    [t]. *)
Definition tele (name : string) : telegraf :=
  mktelegraf (mkTelegrafConfig 0%N 0%N name "") [].
Definition pkg_by_name : Pkg :=
  mkPkg true false [bkt "B2" "d" 3600 ["L2"; "L1"]; bkt "B1" "d" 3600 ["L1"]]
        [lbl "L2"; lbl "L1"] [dash "a"; dash "b"] [] [tele "s"; tele "t"] [] ∅.

(** A parsed package: the label [L1], the bucket [b1] with a new
    description and retention, and the variable [v_bad]. *)
Definition pkg_update : Pkg :=
  mkPkg true false [bkt "b1" "new" 3600 []] [lbl "L1"] [] [] [] [var "v_bad"] ∅.

(** A parsed package: the label [L1] and the buckets [B1] and [B2]. *)
Definition pkg_two_buckets : Pkg :=
  mkPkg true false [bkt "B1" "d" 3600 []; bkt "B2" "d" 3600 []] [lbl "L1"]
        [] [] [] [] ∅.

(** The label and the first bucket are created, then the context is
    cancelled and the aggregating goroutine notices it, then the worker of
    the second bucket runs. *)
Definition cancel_mid_group : list sched_event :=
  [ SRun 0 true; SRun 0 true; SCancel; SDone; SRun 0 true ].

(** A dry run of [pkg_labelled] on the empty platform. *)
Definition labelled_start : Sys Mem.World := sys0 platform_empty pkg_labelled.
Definition labelled_dry :=
  DryRun Mem.ports Ref.ops false orgID userID labelled_start.

(** A dry run of [pkg_by_name] on the empty platform. *)
Definition by_name_start : Sys Mem.World := sys0 platform_empty pkg_by_name.
Definition by_name_dry :=
  DryRun Mem.ports Ref.ops false orgID userID by_name_start.

(** An apply of [pkg_update] on the platform that holds [b1]: the label is
    created, the bucket updated, the variable refused. *)
Definition update_start : Coord := start platform_b1 pkg_update [].
Definition update_run :=
  Apply Mem.ports Ref.ops NewService_applyReqLimit orgID userID update_start.

(** The dry run of [pkg_update] on that platform. *)
Definition update_dry :=
  DryRun Mem.ports Ref.ops false orgID userID (sys update_start).

(** The same apply behind a label service that refuses to delete: the
    rollback handler of the labels fails on [L1]. *)
Definition stuck_run :=
  Apply Mem.ports_keeping_labels Ref.ops NewService_applyReqLimit orgID userID
        update_start.

(** An apply of [pkg_two_buckets] on the empty platform, its context
    cancelled between the two buckets. *)
Definition cancel_start : Coord := start platform_empty pkg_two_buckets cancel_mid_group.
Definition cancel_run :=
  Apply Mem.ports Ref.ops NewService_applyReqLimit orgID userID cancel_start.

(** A notification endpoint of a package that the dry run bound to the
    platform endpoint [platform_endpoint]. *)
Definition platform_endpoint : NotificationEndpoint :=
  mkNotificationEndpoint 9%N orgID "e1" "as on the platform" "active"
                         "https://platform.example" [].
Definition endpoint_bound : notificationEndpoint :=
  mknotificationEndpoint 0%N orgID "e1" "as the package declares" "inactive"
    "https://package.example" (mkreferences "") (mkreferences "")
    (mkreferences "") (mkreferences "") [] (Some platform_endpoint).

(** The resources of a package cloned from a label and a telegraf
    configuration. *)
Definition cloned : list Resource :=
  [ mkResource KindLabel "l"; mkResource KindTelegraf "t" ].

(** The scenarios of the specification. *)

(** S1: one bucket, nothing on the platform. *)
Definition s1_run :=
  Apply Mem.ports Ref.ops NewService_applyReqLimit orgID userID
    (start platform_empty (mkPkg true false [bkt "b1" "" 3600 []] [] [] [] [] [] ∅) []).

(** S2: the bucket exists with another retention. *)
Definition s2_run :=
  Apply Mem.ports Ref.ops NewService_applyReqLimit orgID userID
    (start (Mem.mkWorld [mkBucket 7%N orgID "b1" "" 60000000000%Z] [] [] [] [] [] [] []
                        100%N [])
           (mkPkg true false [bkt "b1" "" 3600 []] [] [] [] [] [] ∅) []).

(** S3: the second label fails. *)
Definition s3_run :=
  Apply Mem.ports Ref.ops NewService_applyReqLimit orgID userID
    (start (Mem.mkWorld [] [] [] [] [] [] [] [] 100%N ["L2"])
           (mkPkg true false [bkt "B1" "" 3600 []; bkt "B2" "" 3600 []]
                  [lbl "L1"; lbl "L2"] [] [] [] [] ∅) []).

(** S5: a secret is referenced that the platform does not hold. *)
Definition s5_run :=
  Apply Mem.ports Ref.ops NewService_applyReqLimit orgID userID
    (start platform_empty
           (mkPkg true false [bkt "b1" "" 3600 []] [] [] [] [] []
                  {[ "pagerduty-routing-key" ]}) []).

End Scenario.

(** * Properties *)

(** ** The order on strings *)

Module StrOrdFacts.
Import StrOrd.

Lemma compare_lt_iff a b : String.compare a b = Lt <-> String_as_OT.lt a b.
Proof. apply String_as_OT.cmp_lt. Qed.

Lemma compare_refl a : String.compare a a = Eq.
Proof. apply String_as_OT.cmp_eq. reflexivity. Qed.

Lemma compare_gt_lt a b : String.compare a b = Gt <-> String.compare b a = Lt.
Proof.
  rewrite (String.compare_antisym b a).
  destruct (String.compare a b); simpl; split; congruence.
Qed.

Lemma lt_irrefl a : lt a a = false.
Proof. unfold lt, String.ltb. now rewrite compare_refl. Qed.

Lemma lt_true_iff a b : lt a b = true <-> String.compare a b = Lt.
Proof. unfold lt, String.ltb. destruct (String.compare a b); split; congruence. Qed.

Lemma lt_trans a b c : lt a b = true -> lt b c = true -> lt a c = true.
Proof.
  rewrite !lt_true_iff, !compare_lt_iff. apply String_as_OT.lt_trans.
Qed.

Lemma lt_asym a b : lt a b = true -> lt b a = false.
Proof.
  intros H. destruct (lt b a) eqn:E; [|reflexivity].
  pose proof (lt_trans _ _ _ H E) as F. now rewrite lt_irrefl in F.
Qed.

Lemma le_lt a b : le a b = negb (lt b a).
Proof.
  unfold le, lt, String.leb, String.ltb.
  rewrite (String.compare_antisym a b).
  destruct (String.compare b a); reflexivity.
Qed.

Lemma lt_total a b : lt a b = false -> lt b a = false -> a = b.
Proof.
  unfold lt, String.ltb. intros H1 H2.
  destruct (String.compare a b) eqn:E.
  - now apply String.compare_eq_iff.
  - discriminate.
  - apply compare_gt_lt in E. now rewrite E in H2.
Qed.

Lemma le_refl a : le a a = true.
Proof. now rewrite le_lt, lt_irrefl. Qed.

Lemma le_trans a b c : le a b = true -> le b c = true -> le a c = true.
Proof.
  rewrite !le_lt, !negb_true_iff. intros H1 H2.
  destruct (lt c a) eqn:E; [|reflexivity].
  destruct (lt a b) eqn:F.
  - pose proof (lt_trans _ _ _ E F) as G. congruence.
  - pose proof (lt_total _ _ F H1). subst. congruence.
Qed.

Lemma lt_le a b : lt a b = true -> le a b = true.
Proof. intros H. rewrite le_lt. now rewrite (lt_asym _ _ H). Qed.

Lemma le_neq_lt a b : le a b = true -> a <> b -> lt a b = true.
Proof.
  rewrite le_lt, negb_true_iff. intros H Hne.
  destruct (lt a b) eqn:E; [reflexivity|].
  exfalso. apply Hne. now apply lt_total.
Qed.


End StrOrdFacts.

(** ** [sort.Slice] sorts *)

Section SortSliceFacts.
Context {A : Type} (less : A -> A -> bool).

Hypothesis less_asym : forall a b, less a b = true -> less b a = false.

Lemma sift_HdRel x y rp :
  less y x = false ->
  HdRel (fun a b => less a b = false) y rp ->
  HdRel (fun a b => less a b = false) y (sift less x rp).
Proof.
  intros Hyx Hd. destruct rp as [|z rp]; simpl.
  - constructor. exact Hyx.
  - destruct (less x z); constructor; [now inversion Hd | exact Hyx].
Qed.

Lemma sift_Sorted x rp :
  Sorted (fun a b => less a b = false) rp ->
  Sorted (fun a b => less a b = false) (sift less x rp).
Proof.
  induction rp as [|y rp IH]; simpl; intros Hs.
  - repeat constructor.
  - destruct (less x y) eqn:E.
    + inversion Hs; subst. constructor; [now apply IH|].
      apply sift_HdRel; [now apply less_asym | assumption].
    + constructor; [assumption | constructor; exact E].
Qed.

Lemma fold_sift_Sorted l rp :
  Sorted (fun a b => less a b = false) rp ->
  Sorted (fun a b => less a b = false) (fold_left (fun rp x => sift less x rp) l rp).
Proof.
  revert rp. induction l as [|x l IH]; simpl; intros rp Hs; [assumption|].
  apply IH. now apply sift_Sorted.
Qed.

Lemma sift_Permutation x rp : Permutation (x :: rp) (sift less x rp).
Proof.
  induction rp as [|y rp IH]; simpl; [reflexivity|].
  destruct (less x y); [|reflexivity].
  rewrite perm_swap. now constructor.
Qed.

Lemma fold_sift_Permutation l rp :
  Permutation (rev l ++ rp) (fold_left (fun rp x => sift less x rp) l rp).
Proof.
  revert rp. induction l as [|x l IH]; simpl; intros rp; [reflexivity|].
  rewrite <- IH, <- sift_Permutation, <- app_assoc. reflexivity.
Qed.

Lemma sort_Slice_Permutation l : Permutation l (sort_Slice less l).
Proof.
  unfold sort_Slice. rewrite <- Permutation_rev.
  rewrite <- fold_sift_Permutation, app_nil_r. apply Permutation_rev.
Qed.

Lemma StronglySorted_snoc (R : A -> A -> Prop) l a :
  StronglySorted R l -> List.Forall (fun x => R x a) l ->
  StronglySorted R (l ++ [a]).
Proof.
  induction 1 as [|b l Hs IH Hb]; simpl; intros Hall.
  - repeat constructor.
  - inversion Hall; subst. constructor; [now apply IH|].
    apply List.Forall_app. split; [assumption|]. repeat constructor. assumption.
Qed.

Lemma Sorted_rev_flip (R : A -> A -> Prop) l :
  (forall a b c, R a b -> R b c -> R a c) ->
  Sorted R l -> StronglySorted (fun a b => R b a) (rev l).
Proof.
  intros Htr Hs. apply Sorted_StronglySorted in Hs; [|exact Htr].
  induction Hs as [|a l Hs IH Hall]; simpl; [constructor|].
  apply StronglySorted_snoc; [exact IH|].
  apply List.Forall_forall. intros x Hx. apply List.in_rev in Hx.
  revert x Hx. now apply List.Forall_forall.
Qed.

Hypothesis less_negtrans :
  forall a b c, less a b = false -> less b c = false -> less a c = false.

(** With a comparison that is asymmetric and whose complement is
    transitive, the outcome is sorted: no element is less than one that
    stands before it. *)
Lemma sort_Slice_StronglySorted l : StronglySorted (not_after less) (sort_Slice less l).
Proof.
  unfold sort_Slice, not_after.
  apply (Sorted_rev_flip (fun a b => less a b = false)).
  - exact less_negtrans.
  - apply fold_sift_Sorted. constructor.
Qed.


End SortSliceFacts.

(** ** Reasoning about computations in the state monad *)

Section Respects.
Context {S : Type} (R : S -> S -> Prop).

Hypothesis R_refl : forall s, R s s.
Hypothesis R_trans : forall s1 s2 s3, R s1 s2 -> R s2 s3 -> R s1 s3.

Lemma respects_ret {A} (a : A) : respects R (ret a).
Proof. intros s. apply R_refl. Qed.

Lemma respects_gets {A} (f : S -> A) : respects R (gets f).
Proof. intros s. apply R_refl. Qed.

Lemma respects_modify (f : S -> S) : (forall s, R s (f s)) -> respects R (modify f).
Proof. intros H s. apply H. Qed.

Lemma respects_bind {A B} (m : ST S A) (k : A -> ST S B) :
  respects R m -> (forall a, respects R (k a)) -> respects R (bind m k).
Proof.
  intros Hm Hk s. unfold bind. specialize (Hm s).
  destruct (m s) as [a s1]. simpl in Hm.
  eapply R_trans; [exact Hm | apply Hk].
Qed.

Lemma respects_mapM {A B} (f : A -> ST S B) (l : list A) :
  (forall a, respects R (f a)) -> respects R (mapM f l).
Proof.
  intros Hf. induction l as [|x l IH]; simpl.
  - apply respects_ret.
  - apply respects_bind; [apply Hf|]. intros y.
    apply respects_bind; [apply IH|]. intros ys. apply respects_ret.
Qed.

Lemma respects_mapM_err {A B} (f : A -> ST S (result B)) (l : list A) :
  (forall a, respects R (f a)) -> respects R (mapM_err f l).
Proof.
  intros Hf. induction l as [|x l IH]; simpl.
  - apply respects_ret.
  - apply respects_bind; [apply Hf|]. intros [y|e]; [|apply respects_ret].
    apply respects_bind; [apply IH|]. intros [ys|e]; apply respects_ret.
Qed.

End Respects.

(** A run equation through [bind]. *)
Lemma bind_run {S A B} (m : ST S A) (k : A -> ST S B) s b s' :
  bind m k s = (b, s') ->
  exists a s1, m s = (a, s1) /\ k a s1 = (b, s').
Proof.
  unfold bind. destruct (m s) as [a s1]. intros H. now exists a, s1.
Qed.

Lemma mapM_length {S A B} (f : A -> ST S B) (l : list A) s :
  length (fst (mapM f l s)) = length l.
Proof.
  revert s. induction l as [|x l IH]; intros s; simpl; [reflexivity|].
  unfold bind. destruct (f x s) as [y s1]. specialize (IH s1).
  destruct (mapM f l s1) as [ys s2]. simpl in *. now rewrite IH.
Qed.

(** What [mapM] yields, element by element. *)
Lemma mapM_Forall2 {S A B} (Q : A -> B -> Prop) (f : A -> ST S B) (l : list A) s :
  (forall a s0, Q a (fst (f a s0))) ->
  Forall2 Q l (fst (mapM f l s)).
Proof.
  intros Hf. revert s. induction l as [|x l IH]; intros s; simpl; [constructor|].
  unfold bind. pose proof (Hf x s) as Hx. destruct (f x s) as [y s1].
  specialize (IH s1). destruct (mapM f l s1) as [ys s2]. simpl in *.
  now constructor.
Qed.

(** ** The sections of a diff *)

Section SortedFacts.
Import StrOrd StrOrdFacts.

Lemma StronglySorted_weaken {A} (R R' : A -> A -> Prop) l :
  (forall a b, R a b -> R' a b) -> StronglySorted R l -> StronglySorted R' l.
Proof.
  intros HR. induction 1 as [|a l Hs IH Ha]; constructor; [exact IH|].
  eapply List.Forall_impl; [|exact Ha]. intros b. apply HR.
Qed.

Lemma sort_by_name_ascending {A} (name : A -> string) (l : list A) :
  ascending name (sort_by_name name l).
Proof.
  unfold ascending, sort_by_name.
  pose proof (sort_Slice_StronglySorted (fun x y => lt (name x) (name y))) as H.
  eapply StronglySorted_weaken; [| apply H].
  - intros a b Hab. unfold not_after in Hab. now rewrite le_lt, Hab.
  - intros a b. apply lt_asym.
  - intros a b c H1 H2.
    destruct (lt (name a) (name c)) eqn:E; [|reflexivity].
    assert (Hba : le (name b) (name a) = true) by now rewrite le_lt, H1.
    assert (Hcb : le (name c) (name b) = true) by now rewrite le_lt, H2.
    pose proof (le_trans _ _ _ Hcb Hba) as Hca.
    rewrite le_lt, E in Hca. discriminate.
Qed.

Lemma lt_cases x y :
  (x = y /\ lt x y = false /\ lt y x = false) \/
  (lt x y = true /\ lt y x = false) \/
  (lt x y = false /\ lt y x = true).
Proof.
  destruct (lt x y) eqn:E1.
  - right. left. split; [reflexivity | now apply lt_asym].
  - destruct (lt y x) eqn:E2.
    + right. right. now split.
    + left. split; [now apply lt_total | now split].
Qed.

Lemma labelMapping_less_asym a b :
  labelMapping_less a b = true -> labelMapping_less b a = false.
Proof.
  unfold labelMapping_less.
  destruct (lt_cases (DiffLabelMapping_ResType a) (DiffLabelMapping_ResType b))
    as [(_ & -> & ->) | [(-> & ->) | (-> & ->)]]; try congruence.
  destruct (lt_cases (DiffLabelMapping_ResName a) (DiffLabelMapping_ResName b))
    as [(_ & -> & ->) | [(-> & ->) | (-> & ->)]]; try congruence.
  apply lt_asym.
Qed.

Lemma labelMapping_less_false a b :
  labelMapping_less b a = false <-> labelMapping_le a b.
Proof.
  unfold labelMapping_less, labelMapping_le.
  destruct (lt_cases (DiffLabelMapping_ResType a) (DiffLabelMapping_ResType b))
    as [(Ht & Ht1 & Ht2) | [(Ht1 & Ht2) | (Ht1 & Ht2)]]; rewrite ?Ht1, ?Ht2.
  - destruct (lt_cases (DiffLabelMapping_ResName a) (DiffLabelMapping_ResName b))
      as [(Hn & Hn1 & Hn2) | [(Hn1 & Hn2) | (Hn1 & Hn2)]]; rewrite ?Hn1, ?Hn2.
    + rewrite le_lt. split.
      * intros ->. right. split; [exact Ht|]. right. now split.
      * intros [H | (_ & [H | (_ & H)])]; try discriminate.
        now apply negb_true_iff in H.
    + split; [intros _ | reflexivity]. right. split; [exact Ht|]. now left.
    + split; [discriminate|].
      intros [H | (_ & [H | (Hn & _)])]; try discriminate.
      rewrite Hn, lt_irrefl in Hn2. discriminate.
  - split; [intros _; now left | reflexivity].
  - split; [discriminate|].
    intros [H | (Ht & _)]; [discriminate|].
    rewrite Ht, lt_irrefl in Ht2. discriminate.
Qed.

Lemma labelMapping_le_trans a b c :
  labelMapping_le a b -> labelMapping_le b c -> labelMapping_le a c.
Proof.
  unfold labelMapping_le.
  intros [H1 | (E1 & H1)] [H2 | (E2 & H2)].
  - left. eapply lt_trans; eassumption.
  - left. now rewrite <- E2.
  - left. now rewrite E1.
  - right. split; [congruence|].
    destruct H1 as [H1 | (F1 & H1)], H2 as [H2 | (F2 & H2)].
    + left. eapply lt_trans; eassumption.
    + left. now rewrite <- F2.
    + left. now rewrite F1.
    + right. split; [congruence|]. eapply le_trans; eassumption.
Qed.

Lemma sort_labelMappings_sorted l :
  StronglySorted labelMapping_le (sort_Slice labelMapping_less l).
Proof.
  pose proof (sort_Slice_StronglySorted labelMapping_less) as H.
  eapply StronglySorted_weaken; [| apply H].
  - intros a b Hab. now apply labelMapping_less_false.
  - apply labelMapping_less_asym.
  - intros a b c H1 H2. apply labelMapping_less_false.
    apply labelMapping_less_false in H1, H2.
    eapply labelMapping_le_trans; eassumption.
Qed.

End SortedFacts.

(** ** The dry run *)

Section DryRunFacts.
Context {W : Type} (P : Ports W) (O : PkgOps).

Lemma reads_only_refl (s : Sys W) : reads_only s s.
Proof.
  repeat split. exists []. split; [now rewrite app_nil_r | constructor].
Qed.

Lemma reads_only_trans (s1 s2 s3 : Sys W) :
  reads_only s1 s2 -> reads_only s2 s3 -> reads_only s1 s3.
Proof.
  intros (Hr1 & Hp1 & cs1 & Hc1 & Ho1) (Hr2 & Hp2 & cs2 & Hc2 & Ho2).
  repeat split; try congruence.
  exists (cs1 ++ cs2). split.
  - now rewrite Hc2, Hc1, app_assoc.
  - apply Forall_app. now split.
Qed.

Lemma bucket_with_existing_id b : bucket_with_existing (bucket_existing b) b = b.
Proof. now destruct b. Qed.
Lemma endpoint_with_existing_id n : endpoint_with_existing (endpoint_existing n) n = n.
Proof. now destruct n. Qed.
Lemma variable_with_existing_id v : variable_with_existing (variable_existing v) v = v.
Proof. now destruct v. Qed.

Lemma Forall2_refl_on {A} (Q : A -> A -> Prop) (l : list A) :
  (forall a, Q a a) -> Forall2 Q l l.
Proof. intros H. induction l; constructor; auto. Qed.

Lemma Forall2_trans_on {A} (Q : A -> A -> Prop) (l1 l2 l3 : list A) :
  (forall a b c, Q a b -> Q b c -> Q a c) ->
  Forall2 Q l1 l2 -> Forall2 Q l2 l3 -> Forall2 Q l1 l3.
Proof.
  intros Ht H12. revert l3. induction H12; intros l3 H23; inversion H23; subst;
    constructor; eauto.
Qed.

Lemma label_marked_trans a b c :
  label_marked O a b -> label_marked O b c -> label_marked O a c.
Proof.
  intros Hab Hbc. induction Hbc.
  - exact Hab.
  - constructor. auto.
  - constructor. auto.
Qed.

Lemma dryRun_frame_refl p : dryRun_frame O p p.
Proof.
  constructor; try reflexivity; try (now left).
  - apply Forall2_refl_on. intros b. exists (bucket_existing b).
    symmetry. apply bucket_with_existing_id.
  - apply Forall2_refl_on. intros l. constructor.
  - apply Forall2_refl_on. intros n. exists (endpoint_existing n).
    symmetry. apply endpoint_with_existing_id.
  - apply Forall2_refl_on. intros v. exists (variable_existing v).
    symmetry. apply variable_with_existing_id.
Qed.

Lemma dryRun_frame_trans p1 p2 p3 :
  dryRun_frame O p1 p2 -> dryRun_frame O p2 p3 -> dryRun_frame O p1 p3.
Proof.
  intros [A1 A2 A3 A4 A5 A6 A7 A8 A9] [B1 B2 B3 B4 B5 B6 B7 B8 B9].
  constructor; try congruence.
  - destruct B2 as [B2|B2]; [|now right]. rewrite B2. exact A2.
  - eapply Forall2_trans_on; [| exact A3 | exact B3].
    intros a b c (e1 & ->) (e2 & ->). exists e2. now destruct a.
  - eapply Forall2_trans_on; [| exact A4 | exact B4]. apply label_marked_trans.
  - eapply Forall2_trans_on; [| exact A6 | exact B6].
    intros a b c (e1 & ->) (e2 & ->). exists e2. now destruct a.
  - eapply Forall2_trans_on; [| exact A8 | exact B8].
    intros a b c (e1 & ->) (e2 & ->). exists e2. now destruct a.
Qed.

Lemma dry_refl (s : Sys W) : (@dry W O) s s.
Proof.
  split; [reflexivity|]. split; [apply dryRun_frame_refl|].
  exists []. split; [now rewrite app_nil_r | constructor].
Qed.

Lemma dry_trans (s1 s2 s3 : Sys W) : (@dry W O) s1 s2 -> (@dry W O) s2 s3 -> (@dry W O) s1 s3.
Proof.
  intros (Hr1 & Hp1 & cs1 & Hc1 & Ho1) (Hr2 & Hp2 & cs2 & Hc2 & Ho2).
  split; [congruence|]. split; [eapply dryRun_frame_trans; eassumption|].
  exists (cs1 ++ cs2). split.
  - now rewrite Hc2, Hc1, app_assoc.
  - apply Forall_app. now split.
Qed.

Lemma reads_only_dry (s s' : Sys W) : reads_only s s' -> (@dry W O) s s'.
Proof.
  intros (Hr & Hp & Hc). split; [exact Hr|]. split; [|exact Hc].
  rewrite Hp. apply dryRun_frame_refl.
Qed.

Lemma respects_reads_only_dry {A} (m : ST (Sys W) A) :
  respects (@reads_only W) m -> respects (@dry W O) m.
Proof. intros H s. apply reads_only_dry, H. Qed.

Lemma invoke_reads_only {A} (c : Call) (f : W -> W * result A) :
  mutating c = false -> respects (@reads_only W) (invoke c f).
Proof.
  intros Hc s. unfold invoke. destruct (f (world s)) as [w' r]. simpl.
  repeat split. eexists. split; [reflexivity|]. repeat constructor. exact Hc.
Qed.

Lemma frame_with_pBuckets p l :
  Forall2 (fun b b' => exists e, b' = bucket_with_existing e b) (pBuckets p) l ->
  dryRun_frame O p (with_pBuckets l p).
Proof.
  intros H. pose proof (dryRun_frame_refl p) as [A1 A2 A3 A4 A5 A6 A7 A8 A9].
  constructor; simpl; assumption.
Qed.

Lemma frame_with_pLabels p l :
  Forall2 (label_marked O) (pLabels p) l ->
  dryRun_frame O p (with_pLabels l p).
Proof.
  intros H. pose proof (dryRun_frame_refl p) as [A1 A2 A3 A4 A5 A6 A7 A8 A9].
  constructor; simpl; assumption.
Qed.

Lemma frame_with_pEndpoints p l :
  Forall2 (fun n n' => exists e, n' = endpoint_with_existing e n) (pEndpoints p) l ->
  dryRun_frame O p (with_pEndpoints l p).
Proof.
  intros H. pose proof (dryRun_frame_refl p) as [A1 A2 A3 A4 A5 A6 A7 A8 A9].
  constructor; simpl; assumption.
Qed.

Lemma frame_with_pVariables p l :
  Forall2 (fun v v' => exists e, v' = variable_with_existing e v) (pVariables p) l ->
  dryRun_frame O p (with_pVariables l p).
Proof.
  intros H. pose proof (dryRun_frame_refl p) as [A1 A2 A3 A4 A5 A6 A7 A8 A9].
  constructor; simpl; assumption.
Qed.

Lemma frame_with_isVerified p : dryRun_frame O p (with_isVerified true p).
Proof.
  pose proof (dryRun_frame_refl p) as [A1 A2 A3 A4 A5 A6 A7 A8 A9].
  constructor; simpl; try assumption. now right.
Qed.

(** A loop that fills the [existing] slots of one kind and then stores the
    records back. *)
Lemma fill_loop_dry {A D} (f : A -> ST (Sys W) (A * D)) (l : list A)
  (store : list A -> Pkg -> Pkg) (s : Sys W) :
  (forall a, respects (@reads_only W) (f a)) ->
  dryRun_frame O (pkg s) (store (fst (mapM f l s)).*1 (pkg s)) ->
  (@dry W O) s (set_pkg (store (fst (mapM f l s)).*1) (snd (mapM f l s))).
Proof.
  intros Hf Hframe.
  pose proof (respects_mapM reads_only reads_only_refl reads_only_trans f l Hf s)
    as (Hr & Hp & Hc).
  destruct (mapM f l s) as [rs s1] eqn:E. simpl in *.
  split; [exact Hr|]. split; [|exact Hc].
  simpl. rewrite Hp. exact Hframe.
Qed.

Lemma dryRunBucket_reads ctx orgID b :
  respects (@reads_only W) (dryRunBucket P O ctx orgID b).
Proof.
  unfold dryRunBucket.
  apply respects_bind; [apply reads_only_trans | now apply invoke_reads_only |].
  intros [x|e]; apply respects_ret, reads_only_refl.
Qed.

Lemma dryRunBucket_fills ctx orgID b s :
  exists e, fst (fst (dryRunBucket P O ctx orgID b s)) = bucket_with_existing e b.
Proof.
  unfold dryRunBucket, bind, svc_FindBucketByName, invoke.
  destruct (FindBucketByName W P (world s) ctx orgID (bucket_name b)) as [w' [x|e]];
    simpl.
  - now eexists.
  - exists (bucket_existing b). symmetry. apply bucket_with_existing_id.
Qed.

Lemma dryRunBuckets_eq ctx orgID s :
  dryRunBuckets P O ctx orgID s =
  let rs := mapM (dryRunBucket P O ctx orgID) (pBuckets (pkg s)) s in
  (Ok (sort_by_name DiffBucket_Name
         (map_values (fold_left (fun m r => <[bucket_name (fst r) := snd r]> m)
                                (fst rs) ∅))),
   set_pkg (with_pBuckets (fst rs).*1) (snd rs)).
Proof.
  unfold dryRunBuckets, bind, gets, modify, ret. simpl.
  now destruct (mapM _ _ s).
Qed.

Lemma dryRunBuckets_dry ctx orgID : respects (@dry W O) (dryRunBuckets P O ctx orgID).
Proof.
  intros s. rewrite dryRunBuckets_eq. simpl.
  apply fill_loop_dry; [apply dryRunBucket_reads|].
  apply frame_with_pBuckets.
  apply Forall2_fmap_r.
  apply (mapM_Forall2 (fun b r => exists e, fst r = bucket_with_existing e b)).
  intros a s0. apply dryRunBucket_fills.
Qed.

Lemma dryRunBuckets_sorted ctx orgID s l :
  fst (dryRunBuckets P O ctx orgID s) = Ok l -> ascending DiffBucket_Name l.
Proof.
  rewrite dryRunBuckets_eq. simpl. intros [= <-]. apply sort_by_name_ascending.
Qed.

Lemma label_with_existing_id l : label_with_existing (label_existing l) l = l.
Proof. now destruct l. Qed.

Lemma dryRunLabel_reads ctx orgID l :
  respects (@reads_only W) (dryRunLabel P O ctx orgID l).
Proof.
  unfold dryRunLabel.
  apply respects_bind; [apply reads_only_trans | now apply invoke_reads_only |].
  intros [[|x xs]|e]; apply respects_ret, reads_only_refl.
Qed.

Lemma dryRunLabel_fills ctx orgID l s :
  label_marked O l (fst (fst (dryRunLabel P O ctx orgID l s))).
Proof.
  unfold dryRunLabel, bind, svc_FindLabels, invoke.
  destruct (FindLabels W P (world s) ctx (label_name l) orgID) as [w' [[|x xs]|e]];
    simpl; repeat constructor.
Qed.

Lemma dryRunLabels_eq ctx orgID s :
  dryRunLabels P O ctx orgID s =
  let rs := mapM (dryRunLabel P O ctx orgID) (pLabels (pkg s)) s in
  (Ok (sort_by_name DiffLabel_Name
         (map_values (fold_left (fun m r => <[label_name (fst r) := snd r]> m)
                                (fst rs) ∅))),
   set_pkg (with_pLabels (fst rs).*1) (snd rs)).
Proof.
  unfold dryRunLabels, bind, gets, modify, ret. simpl.
  now destruct (mapM _ _ s).
Qed.

Lemma dryRunLabels_dry ctx orgID : respects (@dry W O) (dryRunLabels P O ctx orgID).
Proof.
  intros s. rewrite dryRunLabels_eq. simpl.
  apply fill_loop_dry; [apply dryRunLabel_reads|].
  apply frame_with_pLabels.
  apply Forall2_fmap_r.
  apply (mapM_Forall2 (fun l r => label_marked O l (fst r))).
  intros a s0. apply dryRunLabel_fills.
Qed.

Lemma dryRunLabels_sorted ctx orgID s l :
  fst (dryRunLabels P O ctx orgID s) = Ok l -> ascending DiffLabel_Name l.
Proof.
  rewrite dryRunLabels_eq. simpl. intros [= <-]. apply sort_by_name_ascending.
Qed.

Lemma dryRunVariable_reads ctx orgID v :
  respects (@reads_only W) (dryRunVariable P O ctx orgID v).
Proof.
  unfold dryRunVariable.
  apply respects_bind; [apply reads_only_trans | now apply invoke_reads_only |].
  intros [xs|e]; [destruct (find_variable _ _)|]; apply respects_ret, reads_only_refl.
Qed.

Lemma dryRunVariable_fills ctx orgID v s :
  exists e, fst (fst (dryRunVariable P O ctx orgID v s)) = variable_with_existing e v.
Proof.
  unfold dryRunVariable, bind, svc_FindVariables, invoke.
  destruct (FindVariables W P (world s) ctx orgID) as [w' [xs|e]]; simpl.
  - destruct (find_variable _ _); simpl; [now eexists|].
    exists (variable_existing v). symmetry. apply variable_with_existing_id.
  - exists (variable_existing v). symmetry. apply variable_with_existing_id.
Qed.

Lemma dryRunVariables_eq ctx orgID s :
  dryRunVariables P O ctx orgID s =
  let rs := mapM (dryRunVariable P O ctx orgID) (pVariables (pkg s)) s in
  (Ok (sort_by_name DiffVariable_Name
         (map_values (fold_left (fun m r => <[variable_name (fst r) := snd r]> m)
                                (fst rs) ∅))),
   set_pkg (with_pVariables (fst rs).*1) (snd rs)).
Proof.
  unfold dryRunVariables, bind, gets, modify, ret. simpl.
  now destruct (mapM _ _ s).
Qed.

Lemma dryRunVariables_dry ctx orgID : respects (@dry W O) (dryRunVariables P O ctx orgID).
Proof.
  intros s. rewrite dryRunVariables_eq. simpl.
  apply fill_loop_dry; [apply dryRunVariable_reads|].
  apply frame_with_pVariables.
  apply Forall2_fmap_r.
  apply (mapM_Forall2 (fun v r => exists e, fst r = variable_with_existing e v)).
  intros a s0. apply dryRunVariable_fills.
Qed.

Lemma dryRunVariables_sorted ctx orgID s l :
  fst (dryRunVariables P O ctx orgID s) = Ok l -> ascending DiffVariable_Name l.
Proof.
  rewrite dryRunVariables_eq. simpl. intros [= <-]. apply sort_by_name_ascending.
Qed.

Lemma dryRunNotificationEndpoint_fills m n :
  exists e, fst (dryRunNotificationEndpoint O m n) = endpoint_with_existing e n.
Proof.
  unfold dryRunNotificationEndpoint. destruct (m !! endpoint_name n); simpl.
  - now eexists.
  - exists (endpoint_existing n). symmetry. apply endpoint_with_existing_id.
Qed.

Lemma modify_pkg_dry (f : Pkg -> Pkg) :
  (forall p, dryRun_frame O p (f p)) -> respects (@dry W O) (modify (set_pkg f)).
Proof.
  intros H s. simpl. split; [reflexivity|]. split; [apply H|].
  exists []. split; [now rewrite app_nil_r | constructor].
Qed.

Lemma dryRunNotificationEndpoints_dry ctx orgID :
  respects (@dry W O) (dryRunNotificationEndpoints P O ctx orgID).
Proof.
  unfold dryRunNotificationEndpoints.
  apply respects_bind; [apply dry_trans | |].
  { apply respects_reads_only_dry. now apply invoke_reads_only. }
  intros [xs|e]; [|apply respects_ret, dry_refl].
  intros s. unfold bind, gets, modify, ret. simpl.
  split; [reflexivity|]. split.
  - apply frame_with_pEndpoints. apply Forall2_fmap_r.
    apply Forall2_fmap_r.
    apply Forall2_refl_on. intros n. apply dryRunNotificationEndpoint_fills.
  - exists []. split; [now rewrite app_nil_r | constructor].
Qed.

Lemma dryRunNotificationEndpoints_sorted ctx orgID s l :
  fst (dryRunNotificationEndpoints P O ctx orgID s) = Ok l ->
  ascending DiffNotificationEndpoint_Name l.
Proof.
  unfold dryRunNotificationEndpoints, bind, gets, modify, ret.
  destruct (svc_FindNotificationEndpoints P ctx orgID s) as [[xs|e] s1]; simpl.
  - intros [= <-]. apply sort_by_name_ascending.
  - discriminate.
Qed.

Lemma dryRunSecrets_dry ctx orgID : respects (@dry W O) (dryRunSecrets P ctx orgID).
Proof.
  apply respects_reads_only_dry. unfold dryRunSecrets.
  apply respects_bind; [apply reads_only_trans | apply respects_gets, reads_only_refl |].
  intros secrets. destruct (decide (secrets = ∅)); [apply respects_ret, reads_only_refl|].
  apply respects_bind; [apply reads_only_trans | now apply invoke_reads_only |].
  intros [xs|e]; [|apply respects_ret, reads_only_refl].
  destruct (decide _); apply respects_ret, reads_only_refl.
Qed.

Lemma mLabels_setMapping_marked name la ex ls :
  Forall2 (label_marked O) ls (mLabels_setMapping O name la ex ls).
Proof.
  induction ls as [|l ls IH]; simpl; [constructor|].
  destruct (decide (label_name l = name)).
  - constructor; [repeat constructor|]. apply Forall2_refl_on. constructor.
  - constructor; [constructor | exact IH].
Qed.

Lemma mappingFn_dry la id name isNew : respects (@dry W O) (mappingFn O la id name isNew).
Proof.
  unfold mappingFn.
  apply respects_bind; [apply dry_trans | | intros; apply respects_ret, dry_refl].
  apply modify_pkg_dry. intros p. apply frame_with_pLabels.
  apply mLabels_setMapping_marked.
Qed.

Lemma mappingFn_new_dry la name : respects (@dry W O) (mappingFn_new O la name).
Proof.
  unfold mappingFn_new.
  apply respects_bind; [apply dry_trans | apply respects_gets, dry_refl |].
  intros id. apply mappingFn_dry.
Qed.

Lemma dryRunResourceLabelMapping_dry ctx la :
  respects (@dry W O) (dryRunResourceLabelMapping P O ctx la).
Proof.
  unfold dryRunResourceLabelMapping. destruct (negb (la_Exists la)).
  - apply respects_bind; [apply dry_trans | | intros; apply respects_ret, dry_refl].
    apply respects_mapM; [apply dry_refl | apply dry_trans |].
    intros name. apply mappingFn_new_dry.
  - apply respects_bind; [apply dry_trans | |].
    { apply respects_reads_only_dry. now apply invoke_reads_only. }
    intros [xs|e]; [|apply respects_ret, dry_refl].
    apply respects_bind; [apply dry_trans | |].
    { apply respects_mapM; [apply dry_refl | apply dry_trans |].
      intros l. apply mappingFn_dry. }
    intros ds1.
    apply respects_bind; [apply dry_trans | | intros; apply respects_ret, dry_refl].
    apply respects_mapM; [apply dry_refl | apply dry_trans |].
    intros name. apply mappingFn_new_dry.
Qed.

Lemma dryRunLabelMappings_dry ctx : respects (@dry W O) (dryRunLabelMappings P O ctx).
Proof.
  unfold dryRunLabelMappings.
  apply respects_bind; [apply dry_trans | apply respects_gets, dry_refl |].
  intros las.
  apply respects_bind; [apply dry_trans | |].
  { apply respects_mapM_err; [apply dry_refl | apply dry_trans |].
    intros la. apply dryRunResourceLabelMapping_dry. }
  intros [dss|e]; apply respects_ret, dry_refl.
Qed.

Lemma dryRunLabelMappings_sorted ctx s l :
  fst (dryRunLabelMappings P O ctx s) = Ok l -> StronglySorted labelMapping_le l.
Proof.
  unfold dryRunLabelMappings, bind, gets, ret.
  destruct (mapM_err _ _ s) as [[dss|e] s1]; simpl.
  - intros [= <-]. apply sort_labelMappings_sorted.
  - discriminate.
Qed.

Lemma DryRun_run ctx orgID userID s r s' :
  DryRun P O ctx orgID userID s = (r, s') ->
  (@dry W O) (mkSys (world s) (calls s) ((validated O) (pkg s)) (rbl s)) s' /\
  (dryRun_outcome O) r (pkg s').
Proof.
  unfold DryRun, validated.
  set (s0 := mkSys (world s) (calls s)
                   (if isParsed (pkg s) then pkg s else fst (pkg_Validate O (pkg s)))
                   (rbl s)).
  unfold bind at 1. unfold gets at 1. unfold bind at 1.
  assert (Hv : exists v,
    (if isParsed (pkg s) then ret (Ok None)
     else bind (gets pkg) (fun p =>
            let (p', err) := pkg_Validate O p in
            bind (modify (set_pkg (fun _ => p'))) (fun _ =>
              match err with
              | Some e => if IsParseErr e then ret (Ok (Some e)) else ret (Failed e)
              | None => ret (Ok None)
              end))) s = (v, s0)).
  { subst s0. destruct (isParsed (pkg s)).
    - eexists. unfold ret. f_equal. now destruct s.
    - unfold bind, gets, modify, ret. simpl.
      destruct (pkg_Validate O (pkg s)) as [p' [e|]]; simpl.
      + destruct (IsParseErr e); now eexists.
      + now eexists. }
  destruct Hv as [v ->].
  assert (Hfail : forall err s1, (@dry W O) s0 s1 ->
            (Summary_zero O, Diff_empty, Some err, s1) = (r, s') ->
            (@dry W O) s0 s' /\ (dryRun_outcome O) r (pkg s')).
  { intros err s1 Hd [= <- <-]. split; [exact Hd | left; now eexists]. }
  destruct v as [parseErr|err]; [|apply Hfail, dry_refl].
  unfold bind at 1.
  pose proof (dryRunSecrets_dry ctx orgID s0) as D1.
  destruct (dryRunSecrets P ctx orgID s0) as [[err|] s1]; simpl in D1;
    [now apply Hfail|].
  unfold bind at 1.
  pose proof (dryRunBuckets_dry ctx orgID s1) as D2.
  pose proof (dryRunBuckets_sorted ctx orgID s1) as S2.
  destruct (dryRunBuckets P O ctx orgID s1) as [[diffBuckets|err] s2]; simpl in D2, S2;
    [|apply Hfail; eapply dry_trans; eassumption].
  unfold bind at 1.
  pose proof (dryRunLabels_dry ctx orgID s2) as D3.
  pose proof (dryRunLabels_sorted ctx orgID s2) as S3.
  destruct (dryRunLabels P O ctx orgID s2) as [[diffLabels|err] s3]; simpl in D3, S3;
    [|apply Hfail; repeat (eapply dry_trans; [eassumption|]); apply dry_refl].
  unfold bind at 1.
  pose proof (dryRunNotificationEndpoints_dry ctx orgID s3) as D4.
  pose proof (dryRunNotificationEndpoints_sorted ctx orgID s3) as S4.
  destruct (dryRunNotificationEndpoints P O ctx orgID s3) as [[diffEndpoints|err] s4];
    simpl in D4, S4;
    [|apply Hfail; repeat (eapply dry_trans; [eassumption|]); apply dry_refl].
  unfold bind at 1.
  pose proof (dryRunVariables_dry ctx orgID s4) as D5.
  pose proof (dryRunVariables_sorted ctx orgID s4) as S5.
  destruct (dryRunVariables P O ctx orgID s4) as [[diffVars|err] s5]; simpl in D5, S5;
    [|apply Hfail; repeat (eapply dry_trans; [eassumption|]); apply dry_refl].
  unfold bind at 1.
  pose proof (dryRunLabelMappings_dry ctx s5) as D6.
  pose proof (dryRunLabelMappings_sorted ctx s5) as S6.
  destruct (dryRunLabelMappings P O ctx s5) as [[diffLabelMappings|err] s6];
    simpl in D6, S6;
    [|apply Hfail; repeat (eapply dry_trans; [eassumption|]); apply dry_refl].
  unfold bind, modify, gets, ret. simpl. intros [= <- <-]. split.
  - repeat (eapply dry_trans; [eassumption|]).
    split; [reflexivity|]. split; [apply frame_with_isVerified|].
    exists []. split; [now rewrite app_nil_r | constructor].
  - right. split; [reflexivity|]. split; [|reflexivity].
    unfold sections_as_built. simpl. repeat split; auto.
Qed.

End DryRunFacts.
Section DryRunSteps.
Context {W : Type} (P : Ports W) (O : PkgOps).

(** [DryRun], step by step. *)
Lemma DryRun_eq ctx orgID userID (s : Sys W) :
  DryRun P O ctx orgID userID s =
  let fail (err : error) (s0 : Sys W) :=
    ((Summary_zero O, Diff_empty, Some err), s0) in
  let (v, s0) := DryRun_validate O s in
  match v with
  | Failed err => fail err s0
  | Ok parseErr =>
  let (e, s1) := dryRunSecrets P ctx orgID s0 in
  match e with
  | Some err => fail err s1
  | None =>
  let (rB, s2) := dryRunBuckets P O ctx orgID s1 in
  match rB with
  | Failed err => fail err s2
  | Ok diffBuckets =>
  let (rL, s3) := dryRunLabels P O ctx orgID s2 in
  match rL with
  | Failed err => fail err s3
  | Ok diffLabels =>
  let (rE, s4) := dryRunNotificationEndpoints P O ctx orgID s3 in
  match rE with
  | Failed err => fail err s4
  | Ok diffEndpoints =>
  let (rV, s5) := dryRunVariables P O ctx orgID s4 in
  match rV with
  | Failed err => fail err s5
  | Ok diffVars =>
  let (rM, s6) := dryRunLabelMappings P O ctx s5 in
  match rM with
  | Failed err => fail err s6
  | Ok diffLabelMappings =>
      let p := with_isVerified true (pkg s6) in
      ((pkg_Summary O p,
        mkDiff diffBuckets (dryRunDashboards O p) diffLabels diffLabelMappings
               diffEndpoints (dryRunTelegraf O p) diffVars,
        parseErr),
       set_pkg (with_isVerified true) s6)
  end end end end end end end.
Proof.
  unfold DryRun, DryRun_validate, bind, gets, modify, ret.
  destruct (isParsed (pkg s));
    [|destruct (pkg_Validate O (pkg s)) as [p' [e|]]; [destruct (IsParseErr e)|]];
    repeat first
      [ reflexivity
      | match goal with
        | |- context [dryRunSecrets P ctx orgID ?s0] =>
            destruct (dryRunSecrets P ctx orgID s0) as [[?|] ?]
        | |- context [dryRunBuckets P O ctx orgID ?s0] =>
            destruct (dryRunBuckets P O ctx orgID s0) as [[?|?] ?]
        | |- context [dryRunLabels P O ctx orgID ?s0] =>
            destruct (dryRunLabels P O ctx orgID s0) as [[?|?] ?]
        | |- context [dryRunNotificationEndpoints P O ctx orgID ?s0] =>
            destruct (dryRunNotificationEndpoints P O ctx orgID s0) as [[?|?] ?]
        | |- context [dryRunVariables P O ctx orgID ?s0] =>
            destruct (dryRunVariables P O ctx orgID s0) as [[?|?] ?]
        | |- context [dryRunLabelMappings P O ctx ?s0] =>
            destruct (dryRunLabelMappings P O ctx s0) as [[?|?] ?]
        end ].
Qed.

Lemma DryRun_validate_run (s : Sys W) :
  pkg (snd (DryRun_validate O s)) = validated O (pkg s) /\
  world (snd (DryRun_validate O s)) = world s.
Proof.
  unfold DryRun_validate, validated, bind, gets, modify, ret.
  destruct (isParsed (pkg s)); [now split|].
  destruct (pkg_Validate O (pkg s)) as [p' [e|]]; simpl; [|now split].
  destruct (IsParseErr e); now split.
Qed.

Lemma dryRunSecrets_run ctx orgID (s : Sys W) :
  pkg (snd (dryRunSecrets P ctx orgID s)) = pkg s /\
  world (snd (dryRunSecrets P ctx orgID s)) = secrets_checked P ctx orgID (pkg s) (world s).
Proof.
  unfold dryRunSecrets, secrets_checked, bind, gets, svc_GetSecretKeys, invoke. simpl.
  destruct (decide (pSecrets (pkg s) = ∅)); [now split|].
  destruct (GetSecretKeys W P (world s) ctx orgID) as [w' [keys|e]]; simpl;
    [|now split].
  destruct (decide (_ = ∅)); now split.
Qed.

(** A loop that looks its records up one after the other. *)
Lemma mapM_looked_up {A B D} (f : A -> ST (Sys W) (A * D))
      (find : A -> W -> W * B) (fill : A -> B -> A) :
  (forall a s,
     fst (fst (f a s)) = fill a (snd (find a (world s))) /\
     world (snd (f a s)) = fst (find a (world s)) /\
     pkg (snd (f a s)) = pkg s) ->
  forall l s,
    looked_up find fill (world s) l (fst (mapM f l s)).*1 (world (snd (mapM f l s))) /\
    pkg (snd (mapM f l s)) = pkg s.
Proof.
  intros Hf. induction l as [|a l IH]; intros s; simpl.
  - split; [constructor | reflexivity].
  - unfold bind. destruct (Hf a s) as (H1 & H2 & H3).
    destruct (f a s) as [[a' d] s1]. simpl in H1, H2, H3.
    destruct (IH s1) as (H4 & H5).
    destruct (mapM f l s1) as [rs s2]. simpl in *.
    split; [|congruence]. subst a'.
    apply (looked_up_cons find fill (world s) a (fst (find a (world s)))).
    + now destruct (find a (world s)).
    + rewrite <- H2. exact H4.
Qed.

Lemma dryRunBuckets_effect ctx orgID (s : Sys W) :
  exists bs,
    buckets_looked_up P ctx orgID (world s) (pBuckets (pkg s)) bs
                      (world (snd (dryRunBuckets P O ctx orgID s))) /\
    pkg (snd (dryRunBuckets P O ctx orgID s)) = with_pBuckets bs (pkg s).
Proof.
  rewrite dryRunBuckets_eq. cbv zeta.
  destruct (mapM_looked_up (dryRunBucket P O ctx orgID)
              (fun b w => FindBucketByName W P w ctx orgID (bucket_name b))
              bucket_filled) with (l := pBuckets (pkg s)) (s := s) as (H1 & H2).
  { intros b s0. unfold dryRunBucket, bind, svc_FindBucketByName, invoke.
    destruct (FindBucketByName W P (world s0) ctx orgID (bucket_name b)) as [w' [x|e]];
      simpl; now repeat split. }
  eexists. split; [exact H1|]. simpl. now rewrite H2.
Qed.

Lemma dryRunLabels_effect ctx orgID (s : Sys W) :
  exists ls,
    labels_looked_up P ctx orgID (world s) (pLabels (pkg s)) ls
                     (world (snd (dryRunLabels P O ctx orgID s))) /\
    pkg (snd (dryRunLabels P O ctx orgID s)) = with_pLabels ls (pkg s).
Proof.
  rewrite dryRunLabels_eq. cbv zeta.
  destruct (mapM_looked_up (dryRunLabel P O ctx orgID)
              (fun l w => FindLabels W P w ctx (label_name l) orgID)
              label_filled) with (l := pLabels (pkg s)) (s := s) as (H1 & H2).
  { intros l s0. unfold dryRunLabel, bind, svc_FindLabels, invoke.
    destruct (FindLabels W P (world s0) ctx (label_name l) orgID) as [w' [[|x xs]|e]];
      simpl; now repeat split. }
  eexists. split; [exact H1|]. simpl. now rewrite H2.
Qed.

Lemma dryRunVariables_effect ctx orgID (s : Sys W) :
  exists vs,
    variables_looked_up P ctx orgID (world s) (pVariables (pkg s)) vs
                        (world (snd (dryRunVariables P O ctx orgID s))) /\
    pkg (snd (dryRunVariables P O ctx orgID s)) = with_pVariables vs (pkg s).
Proof.
  rewrite dryRunVariables_eq. cbv zeta.
  destruct (mapM_looked_up (dryRunVariable P O ctx orgID)
              (fun v w => FindVariables W P w ctx orgID)
              variable_filled) with (l := pVariables (pkg s)) (s := s) as (H1 & H2).
  { intros v s0. unfold dryRunVariable, bind, svc_FindVariables, invoke.
    destruct (FindVariables W P (world s0) ctx orgID) as [w' [xs|e]]; simpl;
      [|now repeat split].
    destruct (find_variable (variable_name v) xs); simpl; now repeat split. }
  eexists. split; [exact H1|]. simpl. now rewrite H2.
Qed.

(** The map built from a list answers with the last entry of a name. *)
Lemma fold_insert_lookup (l : list NotificationEndpoint)
      (m : gmap string NotificationEndpoint) (k : string) :
  fold_left (fun m e => <[NotificationEndpoint_Name e := e]> m) l m !! k =
  match List.find (fun e => bool_decide (NotificationEndpoint_Name e = k)) (rev l) with
  | Some e => Some e
  | None => m !! k
  end.
Proof.
  induction l as [|x l IH] using rev_ind; [reflexivity|].
  rewrite fold_left_app, rev_unit. simpl.
  destruct (decide (NotificationEndpoint_Name x = k)) as [<-|Hne].
  - rewrite bool_decide_eq_true_2 by reflexivity. apply lookup_insert_eq.
  - rewrite bool_decide_eq_false_2 by exact Hne.
    rewrite lookup_insert_ne by exact Hne. exact IH.
Qed.

Lemma dryRunNotificationEndpoint_filled (existing : list NotificationEndpoint) n :
  fst (dryRunNotificationEndpoint O
         (fold_left (fun m e => <[NotificationEndpoint_Name e := e]> m) existing ∅) n) =
  endpoint_filled existing n.
Proof.
  unfold dryRunNotificationEndpoint, endpoint_filled.
  rewrite fold_insert_lookup, lookup_empty.
  now destruct (List.find _ (rev existing)).
Qed.

Lemma dryRunNotificationEndpoints_effect ctx orgID (s : Sys W) :
  match FindNotificationEndpoints W P (world s) ctx orgID with
  | (w', Ok existing) =>
      is_Ok (fst (dryRunNotificationEndpoints P O ctx orgID s)) = true /\
      world (snd (dryRunNotificationEndpoints P O ctx orgID s)) = w' /\
      pkg (snd (dryRunNotificationEndpoints P O ctx orgID s)) =
        with_pEndpoints (map (endpoint_filled existing) (pEndpoints (pkg s))) (pkg s)
  | (w', Failed err) =>
      fst (dryRunNotificationEndpoints P O ctx orgID s) = Failed err /\
      world (snd (dryRunNotificationEndpoints P O ctx orgID s)) = w' /\
      pkg (snd (dryRunNotificationEndpoints P O ctx orgID s)) = pkg s
  end.
Proof.
  unfold dryRunNotificationEndpoints, bind, svc_FindNotificationEndpoints, invoke.
  destruct (FindNotificationEndpoints W P (world s) ctx orgID) as [w' [existing|e]];
    [|now repeat split].
  unfold gets, modify, ret. simpl. split; [reflexivity|]. split; [reflexivity|].
  f_equal. rewrite <- list_fmap_compose. apply map_ext. intros n. simpl.
  apply dryRunNotificationEndpoint_filled.
Qed.

End DryRunSteps.

Section DryRunMappings.
Context {W : Type} (P : Ports W) (O : PkgOps).

Lemma with_pLabels_same p : with_pLabels (pLabels p) p = p.
Proof. now destruct p. Qed.

Lemma recorded_nil (s s' : Sys W) : pkg s' = pkg s -> recorded O [] s s'.
Proof. intros H. unfold recorded. simpl. now rewrite with_pLabels_same. Qed.

Lemma recorded_app recs1 recs2 (s1 s2 s3 : Sys W) :
  recorded O recs1 s1 s2 -> recorded O recs2 s2 s3 -> recorded O (recs1 ++ recs2) s1 s3.
Proof.
  unfold recorded, record_mappings. intros H1 H2. rewrite H2, H1.
  rewrite fold_left_app. reflexivity.
Qed.

Lemma mappingFn_run la id name isNew (s : Sys W) :
  recorded O [(la, fst (mappingFn O la id name isNew s))] s
           (snd (mappingFn O la id name isNew s)) /\
  about la (fst (mappingFn O la id name isNew s)).
Proof. split; [reflexivity | now repeat split]. Qed.

Lemma mappingFn_new_run la name (s : Sys W) :
  recorded O [(la, fst (mappingFn_new O la name s))] s
           (snd (mappingFn_new O la name s)) /\
  about la (fst (mappingFn_new O la name s)).
Proof. split; [reflexivity | now repeat split]. Qed.

(** A loop of turns that each record the diff they yield. *)
Lemma mapM_recorded {A} la (f : A -> ST (Sys W) DiffLabelMapping) :
  (forall x s, recorded O [(la, fst (f x s))] s (snd (f x s)) /\ about la (fst (f x s))) ->
  forall l s,
    recorded O (map (pair la) (fst (mapM f l s))) s (snd (mapM f l s)) /\
    Forall (about la) (fst (mapM f l s)).
Proof.
  intros Hf. induction l as [|x l IH]; intros s; simpl.
  - split; [now apply recorded_nil | constructor].
  - unfold bind. destruct (Hf x s) as (H1 & H2). destruct (f x s) as [d s1].
    destruct (IH s1) as (H3 & H4). destruct (mapM f l s1) as [ds s2]. simpl in *.
    split; [|now constructor].
    apply (recorded_app [(la, d)] _ s s1 s2); assumption.
Qed.

Lemma dryRunResourceLabelMapping_effect ctx la (s : Sys W) r s' :
  dryRunResourceLabelMapping P O ctx la s = (r, s') ->
  exists ds,
    recorded O (map (pair la) ds) s s' /\
    Forall (about la) ds /\
    forall l, r = Ok l -> l = ds.
Proof.
  unfold dryRunResourceLabelMapping. destruct (negb (la_Exists la)).
  - unfold bind, ret.
    destruct (mapM_recorded la (mappingFn_new O la) (mappingFn_new_run la)
                (la_Labels la) s) as (H1 & H2).
    destruct (mapM (mappingFn_new O la) (la_Labels la) s) as [ds s1]. simpl in *.
    intros [= <- <-].
    exists ds. split; [exact H1|]. split; [exact H2|]. now intros l [= <-].
  - unfold bind at 1. unfold svc_FindResourceLabels, invoke.
    destruct (FindResourceLabels W P (world s) ctx (la_ID la) (la_ResourceType la))
      as [w' [existing|e]].
    + set (s0 := mkSys w' _ (pkg s) (rbl s)).
      unfold bind, ret.
      destruct (mapM_recorded la
                  (fun l => mappingFn O la (Label_ID l) (Label_Name l) false)
                  (fun l => mappingFn_run la (Label_ID l) (Label_Name l) false)
                  existing s0) as (H1 & H2).
      destruct (mapM _ existing s0) as [ds1 s1]. simpl in H1, H2.
      match goal with
      | |- context [mapM (mappingFn_new O la) ?news s1] =>
          destruct (mapM_recorded la (mappingFn_new O la) (mappingFn_new_run la)
                      news s1) as (H3 & H4);
          destruct (mapM (mappingFn_new O la) news s1) as [ds2 s2]
      end.
      simpl in *. intros [= <- <-]. exists (ds1 ++ ds2). split; [|split].
      * rewrite map_app. apply (recorded_app _ _ s s1 s2); [|exact H3].
        exact H1.
      * apply List.Forall_app. now split.
      * now intros l [= <-].
    + unfold ret. intros [= <- <-]. exists [].
      split; [now apply recorded_nil|].
      split; [constructor | discriminate].
Qed.

Lemma pair_about la las ds :
  Forall (about la) ds ->
  Forall (fun rec : mapping_record => In (fst rec) (la :: las) /\ about (fst rec) (snd rec))
         (map (pair la) ds).
Proof.
  intros H. apply List.Forall_forall. intros rec Hin.
  apply List.in_map_iff in Hin. destruct Hin as (d & <- & Hd). simpl.
  split; [now left|]. rewrite List.Forall_forall in H. now apply H.
Qed.

Lemma mapM_err_recorded ctx (las : list labelAssociater) (s : Sys W) r s' :
  mapM_err (dryRunResourceLabelMapping P O ctx) las s = (r, s') ->
  exists recs,
    recorded O recs s s' /\
    Forall (fun rec => In (fst rec) las /\ about (fst rec) (snd rec)) recs /\
    forall dss, r = Ok dss -> map snd recs = concat dss.
Proof.
  revert s r s'. induction las as [|la las IH]; intros s r s'; simpl.
  - intros [= <- <-]. exists []. split; [now apply recorded_nil|].
    split; [constructor|]. now intros dss [= <-].
  - unfold bind at 1.
    destruct (dryRunResourceLabelMapping P O ctx la s) as [[l|e] s1] eqn:E1;
      apply dryRunResourceLabelMapping_effect in E1;
      destruct E1 as (ds & H1 & H2 & H3).
    + specialize (H3 l eq_refl). subst l.
      unfold bind at 1.
      destruct (mapM_err (dryRunResourceLabelMapping P O ctx) las s1)
        as [[dss|e] s2] eqn:E2;
        apply IH in E2; destruct E2 as (recs & H4 & H5 & H6);
        unfold ret; intros [= <- <-];
        exists (map (pair la) ds ++ recs);
        (split; [apply (recorded_app _ _ s s1 s2); assumption|]);
        (split; [apply List.Forall_app; split; [now apply pair_about|];
                 eapply List.Forall_impl; [|exact H5];
                 intros rec (Hin & Hab); split; [now right | exact Hab]|]).
      * intros dss' [= <-]. simpl. rewrite map_app, (H6 dss eq_refl).
        f_equal. rewrite map_map. simpl. apply map_id.
      * discriminate.
    + unfold ret. intros [= <- <-].
      exists (map (pair la) ds). split; [exact H1|]. split; [|discriminate].
      now apply pair_about.
Qed.

Lemma dryRunLabelMappings_effect ctx (s : Sys W) r s' :
  dryRunLabelMappings P O ctx s = (r, s') ->
  exists recs,
    recorded O recs s s' /\
    Forall (diff_of O (pkg s)) recs /\
    forall l, r = Ok l -> Permutation (map snd recs) l.
Proof.
  unfold dryRunLabelMappings, bind, gets.
  destruct (mapM_err (dryRunResourceLabelMapping P O ctx) (mappers O (pkg s)) s)
    as [[dss|e] s1] eqn:E;
    apply mapM_err_recorded in E; destruct E as (recs & H1 & H2 & H3);
    unfold ret; intros [= <- <-]; exists recs;
    (split; [exact H1|]);
    (split; [eapply List.Forall_impl; [|exact H2];
             intros rec (Hin & Hab); now split|]).
  - intros l [= <-]. rewrite (H3 dss eq_refl). apply sort_Slice_Permutation.
  - discriminate.
Qed.

End DryRunMappings.

Section DryRunEffectFacts.
Context {W : Type} (P : Ports W) (O : PkgOps).

Lemma dryRunBuckets_Ok ctx orgID (s : Sys W) :
  is_Ok (fst (dryRunBuckets P O ctx orgID s)) = true.
Proof. now rewrite dryRunBuckets_eq. Qed.

Lemma dryRunLabels_Ok ctx orgID (s : Sys W) :
  is_Ok (fst (dryRunLabels P O ctx orgID s)) = true.
Proof. now rewrite dryRunLabels_eq. Qed.

Lemma dryRunVariables_Ok ctx orgID (s : Sys W) :
  is_Ok (fst (dryRunVariables P O ctx orgID s)) = true.
Proof. now rewrite dryRunVariables_eq. Qed.

(** What a dry run does to the package, case by case. *)
Lemma DryRun_effect ctx orgID userID (s : Sys W) :
  dryRun_effect P O ctx orgID (validated O (pkg s)) (world s)
                (fst (DryRun P O ctx orgID userID s))
                (pkg (snd (DryRun P O ctx orgID userID s))).
Proof.
  rewrite DryRun_eq. cbv zeta.
  destruct (DryRun_validate_run O s) as (Hp0 & Hw0).
  destruct (DryRun_validate O s) as [[parseErr|err] s0]; simpl in Hp0, Hw0;
    [|simpl; rewrite Hp0; constructor].
  destruct (dryRunSecrets_run P ctx orgID s0) as (Hp1 & Hw1).
  destruct (dryRunSecrets P ctx orgID s0) as [[err|] s1]; simpl in Hp1, Hw1;
    [simpl; rewrite Hp1, Hp0; constructor|].
  rewrite Hp0, Hw0 in *. clear Hp0 Hw0.
  set (p0 := validated O (pkg s)) in *.
  destruct (dryRunBuckets_effect P O ctx orgID s1) as (bs & HB & Hp2).
  pose proof (dryRunBuckets_Ok ctx orgID s1) as OB.
  destruct (dryRunBuckets P O ctx orgID s1) as [[diffBuckets|err] s2];
    simpl in HB, Hp2, OB; [|discriminate].
  rewrite Hp1, Hw1 in *. clear Hp1 Hw1 OB.
  destruct (dryRunLabels_effect P O ctx orgID s2) as (ls & HL & Hp3).
  pose proof (dryRunLabels_Ok ctx orgID s2) as OL.
  destruct (dryRunLabels P O ctx orgID s2) as [[diffLabels|err] s3];
    simpl in HL, Hp3, OL; [|discriminate].
  rewrite Hp2 in *. simpl in HL. clear Hp2 OL.
  pose proof (dryRunNotificationEndpoints_effect P O ctx orgID s3) as HE.
  destruct (FindNotificationEndpoints W P (world s3) ctx orgID)
    as [w3 [existing|errE]] eqn:EF.
  2:{ destruct HE as (E1 & E2 & E3).
      destruct (dryRunNotificationEndpoints P O ctx orgID s3) as [rE s4].
      simpl in E1, E2, E3. subst rE. simpl. rewrite E3, Hp3.
      econstructor; eassumption. }
  destruct HE as (E1 & E2 & E3).
  destruct (dryRunNotificationEndpoints P O ctx orgID s3) as [[diffEndpoints|err] s4];
    simpl in E1, E2, E3; [|discriminate].
  rewrite Hp3 in E3. simpl in E3. clear E1.
  destruct (dryRunVariables_effect P O ctx orgID s4) as (vs & HV & Hp5).
  pose proof (dryRunVariables_Ok ctx orgID s4) as OV.
  destruct (dryRunVariables P O ctx orgID s4) as [[diffVars|err] s5];
    simpl in HV, Hp5, OV; [|discriminate].
  rewrite E2, E3 in *. simpl in HV. clear OV.
  destruct (dryRunLabelMappings P O ctx s5) as [rM s6] eqn:EM.
  apply dryRunLabelMappings_effect in EM. destruct EM as (recs & HR & HD & HP).
  unfold recorded in HR. rewrite Hp5 in HR, HD. simpl in HR.
  destruct rM as [diffLabelMappings|err]; simpl; rewrite HR.
  - apply (effect_done P O ctx orgID p0 (world s)) with (w1 := world s2)
      (w2 := world s3) (w3 := w3) (w4 := world s5); try assumption.
    now apply HP.
  - apply (effect_mappings_failed P O ctx orgID p0 (world s)) with (w1 := world s2)
      (w2 := world s3) (w3 := w3) (w4 := world s5); assumption.
Qed.

End DryRunEffectFacts.

Section DryRunClaims.
Context {W : Type} (P : Ports W) (O : PkgOps).

(** C6 (as amended).  A dry run makes no mutating call on any port and
    leaves the rollback lists alone.  To the package (validated first when
    it was not parsed) it does what [dryRun_effect] tells, and nothing
    else: every bucket, label and variable is looked up by a call of its
    own, for the organisation and under its name, and its [existing] slot
    is filled with the answer when there is one; the notification
    endpoints are matched by name against those listed for the
    organisation; every mapping of the diff is recorded through
    [setMapping] on the label it names; and [isVerified] is set once the
    sections are computed.  A dry run that gives up has done these steps
    up to the call that failed and has not set [isVerified]. *)
Theorem DryRun_reads_and_marks (ctx : context) (orgID userID : ID) (s : Sys W) :
  let r := DryRun P O ctx orgID userID s in
  rbl (snd r) = rbl s /\
  (exists cs, calls (snd r) = calls s ++ cs /\ read_only cs) /\
  dryRun_frame O (validated O (pkg s)) (pkg (snd r)) /\
  ((exists err, fst r = (Summary_zero O, Diff_empty, Some err)) \/
   isVerified (pkg (snd r)) = true) /\
  dryRun_effect P O ctx orgID (validated O (pkg s)) (world s) (fst r) (pkg (snd r)).
Proof.
  intros r. subst r.
  pose proof (DryRun_effect P O ctx orgID userID s) as He.
  destruct (DryRun P O ctx orgID userID s) as [r s'] eqn:E.
  apply DryRun_run in E. destruct E as ((Hr & Hf & Hc) & Ho). simpl in *.
  split; [exact Hr|]. split; [exact Hc|]. split; [exact Hf|].
  split; [|exact He].
  destruct Ho as [Hg | (Hv & _)]; [now left | now right].
Qed.

(** In the diff of a dry run that does not give up, the Buckets, Labels,
    NotificationEndpoints and Variables sections are in ascending order of
    name, the LabelMappings section is in ascending order of resource
    type, resource name and label name, and the Dashboards and Telegrafs
    sections list the package's dashboards and telegraf configurations in
    the order of the package's accessors. *)
Lemma DryRun_sections_order (ctx : context) (orgID userID : ID) (s : Sys W) :
  let r := DryRun P O ctx orgID userID s in
  (exists err, fst r = (Summary_zero O, Diff_empty, Some err)) \/
  sections_as_built O (pkg (snd r)) (snd (fst (fst r))).
Proof.
  intros r. subst r.
  destruct (DryRun P O ctx orgID userID s) as [r s'] eqn:E.
  apply DryRun_run in E. destruct E as (_ & Ho). simpl in *.
  destruct Ho as [He | (_ & Hs & _)]; [now left | now right].
Qed.

End DryRunClaims.

(** C6 (as stated) fails: the dry run of a package whose bucket [B1] is
    labelled [L1] records the mapping on the label [L1], which is neither
    an [existing] slot nor [isVerified]. *)
Lemma DryRun_changes_more_than_existing :
  ~ only_existing_and_verified (pkg Scenario.labelled_start)
                               (pkg (snd Scenario.labelled_dry)).
Proof.
  intros [_ _ Hl _ _ _ _ _].
  vm_compute in Hl. inversion Hl as [|? ? ? ? (e & He) _]; subst.
  discriminate He.
Qed.
Section SectionsSorted.
Context {W : Type} (P : Ports W) (O : PkgOps).

Lemma ascending_map {A B} (f : A -> B) (nameA : A -> string) (nameB : B -> string)
      (l : list A) :
  (forall a, nameB (f a) = nameA a) ->
  ascending nameA l -> ascending nameB (map f l).
Proof.
  intros Hn. unfold ascending.
  induction 1 as [|a l Hs IH Ha]; simpl; constructor; [exact IH|].
  apply List.Forall_forall. intros b Hb.
  apply List.in_map_iff in Hb. destruct Hb as (x & <- & Hx).
  rewrite !Hn. rewrite List.Forall_forall in Ha. now apply Ha.
Qed.

Lemma Diff_empty_sorted : all_sections_sorted Diff_empty.
Proof. repeat split; constructor. Qed.

(** C8.  Every section of the diff that a dry run returns is in ascending
    order of name, and the label mappings are in ascending order of
    resource type, resource name and label name, whatever the package and
    the ports: the buckets, labels, notification endpoints, variables and
    label mappings because the dry run sorts them, the dashboards and the
    telegraf configurations because the accessors of the package the dry
    run works on hand them over by name. *)
Theorem DryRun_sections_sorted (ctx : context) (orgID userID : ID) (s : Sys W) :
  accessors_by_name O (validated O (pkg s)) ->
  all_sections_sorted (snd (fst (fst (DryRun P O ctx orgID userID s)))).
Proof.
  intros (Sd & St & Hd & Ht).
  destruct (DryRun P O ctx orgID userID s) as [r s'] eqn:E. simpl.
  apply DryRun_run in E. destruct E as ((_ & Hf & _) & [(err & ->) | (_ & Hs & _)]).
  - apply Diff_empty_sorted.
  - destruct Hs as (Hb & Hl & He & Hv & Hm & Ed & Et).
    unfold all_sections_sorted.
    rewrite Ed, Et, (frame_dashboards _ _ _ Hf), (frame_telegrafs _ _ _ Hf).
    split; [exact Hb|]. split; [now apply (ascending_map _ dashboard_name)|].
    split; [exact Hl|]. split; [exact Hm|]. split; [exact He|].
    split; [|exact Hv].
    now apply (ascending_map _ (fun t => TelegrafConfig_Name (telegraf_config t))).
Qed.

End SectionsSorted.

Lemma DryRun_sections_sorted_witness :
  all_sections_sorted (snd (fst (fst Scenario.by_name_dry))).
Proof.
  apply (DryRun_sections_sorted Mem.ports Ref.ops false Scenario.orgID Scenario.userID
           Scenario.by_name_start).
  split; [vm_compute; repeat constructor|].
  split; [vm_compute; repeat constructor|].
  split; intros x; reflexivity.
Defined.

(** ** The coordinator *)

Section CoordFacts.
Context {W : Type} (P : Ports W) (O : PkgOps).

Local Open Scope st_scope.

Lemma same_record_refl (c : @Coord W) : same_record c c.
Proof. now repeat split. Qed.

Lemma same_record_trans (c1 c2 c3 : @Coord W) :
  same_record c1 c2 -> same_record c2 c3 -> same_record c1 c3.
Proof. intros (A1 & A2 & A3) (B1 & B2 & B3). repeat split; congruence. Qed.

Lemma lift_same {A} (m : ST (Sys W) A) : respects (@same_record W) (lift m).
Proof. intros c. unfold lift. destruct (m (sys c)). now repeat split. Qed.

Lemma settle_st_same es : respects (@same_record W) (settle_st es).
Proof.
  intros c. unfold settle_st.
  destruct (settle (oracle c) (done c) (live es)) as [[o dn] lv]. now repeat split.
Qed.

Lemma next_run_same : respects (@same_record W) (@next_run W).
Proof.
  intros c. unfold next_run. destruct (oracle c) as [|[k send| |] o]; now repeat split.
Qed.

Lemma run_worker_run orgID userID app i send es c :
  let r := run_worker P O orgID userID app i send es c in
  trace (snd r) = trace c ++ [ev_of (app, i)] /\
  rollbacks (snd r) = rollbacks c /\ logged (snd r) = logged c.
Proof.
  unfold run_worker, bind, gets, emit, modify, lift. simpl.
  destruct (creater_fn P O (applier_creater app) (done c) i orgID userID (sys c))
    as [[err|] s']; simpl; now repeat split.
Qed.

Lemma pick_Some {A} limit k (pending : list A) x pending' :
  pick limit k pending = Some (x, pending') ->
  Permutation pending (x :: pending') /\ length pending = S (length pending').
Proof.
  unfold pick. destruct (Nat.min limit (length pending)) as [|w]; [discriminate|].
  destruct (pending !! (k mod S w)) as [y|] eqn:E; [|discriminate].
  intros [= <- <-]. split.
  - now apply delete_Permutation.
  - rewrite length_delete by eauto.
    apply lookup_lt_Some in E. lia.
Qed.

Lemma run_workers_run limit orgID userID n pending es c es' c' :
  n = length pending ->
  run_workers P O limit orgID userID n pending es c = (Some es', c') ->
  exists t, trace c' = trace c ++ t /\ Permutation t (map ev_of pending) /\
            rollbacks c' = rollbacks c /\ logged c' = logged c.
Proof.
  revert pending es c. induction n as [|n IH]; intros pending es c Hn; simpl.
  - intros [= <- <-]. exists []. symmetry in Hn. apply nil_length_inv in Hn. subst.
    rewrite app_nil_r. now repeat split.
  - unfold bind at 1.
    pose proof (settle_st_same es c) as (T1 & R1 & L1).
    destruct (settle_st es c) as [es1 c1]. simpl in T1, R1, L1.
    unfold bind at 1.
    pose proof (next_run_same c1) as (T2 & R2 & L2).
    destruct (next_run c1) as [ks c2]. simpl in T2, R2, L2.
    destruct (pick limit (fst ks) pending) as [[[app i] pending']|] eqn:Ep;
      [|discriminate].
    apply pick_Some in Ep. destruct Ep as (Hperm & Hlen).
    unfold bind at 1.
    pose proof (run_worker_run orgID userID app i (snd ks) es1 c2) as (T3 & R3 & L3).
    destruct (run_worker P O orgID userID app i (snd ks) es1 c2) as [es2 c3].
    simpl in T3, R3, L3.
    intros Hrun. apply IH in Hrun; [|lia].
    destruct Hrun as (t & Ht & Hp & Hr & Hl).
    exists (ev_of (app, i) :: t). split; [|split; [|split]].
    + rewrite Ht, T3, T2, T1, <- app_assoc. reflexivity.
    + rewrite Hperm. simpl. now constructor.
    + congruence.
    + congruence.
Qed.

Lemma work_items_events appliers :
  map ev_of (work_items appliers) = group_created appliers.
Proof.
  unfold work_items, group_created.
  induction appliers as [|app apps IH]; simpl; [reflexivity|].
  rewrite map_app, IH. f_equal. unfold created.
  rewrite map_map. reflexivity.
Qed.

Lemma errStream_close_cases es :
  errStream_close es = None \/ exists errs, errStream_close es = Some (ApplyFailed errs).
Proof.
  unfold errStream_close. destruct (live es); [|now left].
  destruct (decide (mErrs es = ∅)); [now left | right; now eexists].
Qed.

Lemma runTilEnd_run limit orgID userID appliers c err c' :
  runTilEnd P O limit orgID userID appliers c = (Some err, c') ->
  (exists t, trace c' = trace c ++ t ++ [EvGroupEnd err] /\
             Permutation t (group_created appliers)) /\
  rollbacks c' = rollbacks c ++ map applier_rollbacker appliers /\
  logged c' = logged c /\
  (err = None \/ exists errs, err = Some (ApplyFailed errs)).
Proof.
  unfold runTilEnd. unfold bind at 1. unfold set_rollbacks, modify at 1.
  set (c0 := mkCoord (sys c) (done c) (oracle c)
                     (rollbacks c ++ map applier_rollbacker appliers)
                     (trace c) (logged c)).
  unfold bind at 1.
  destruct (run_workers P O limit orgID userID (length (work_items appliers))
              (work_items appliers) newErrStream c0) as [[es|] c1] eqn:E;
    [|discriminate].
  apply run_workers_run in E; [|reflexivity].
  destruct E as (t & Ht & Hp & Hr & Hl).
  unfold bind at 1.
  pose proof (settle_st_same es c1) as (T1 & R1 & L1).
  destruct (settle_st es c1) as [es' c2]. simpl in T1, R1, L1.
  unfold bind, emit, modify, ret. simpl. intros [= <- <-]. simpl.
  split; [|split; [|split]].
  - exists t. split.
    + rewrite T1, Ht. simpl. now rewrite <- app_assoc.
    + now rewrite <- work_items_events.
  - rewrite R1, Hr. reflexivity.
  - rewrite L1, Hl. reflexivity.
  - destruct (errStream_close_cases es') as [-> | (errs & ->)];
      [now left | right; now eexists].
Qed.

(** *** What the workers keep of the shared state *)

Section Kept.
Context (R : Sys W -> Sys W -> Prop).
Hypothesis R_refl : forall s, R s s.
Hypothesis R_trans : forall s1 s2 s3, R s1 s2 -> R s2 s3 -> R s1 s3.

Lemma kept_refl c : kept R c c.
Proof. apply R_refl. Qed.

Lemma kept_trans c1 c2 c3 : kept R c1 c2 -> kept R c2 c3 -> kept R c1 c3.
Proof. apply R_trans. Qed.

Lemma lift_kept {A} (m : ST (Sys W) A) : respects R m -> respects (kept R) (lift m).
Proof.
  intros H c. unfold kept, lift. specialize (H (sys c)).
  now destruct (m (sys c)).
Qed.

Lemma modify_kept (f : @Coord W -> @Coord W) :
  (forall c, sys (f c) = sys c) -> respects (kept R) (modify f).
Proof. intros H c. unfold kept, modify. simpl. rewrite H. apply R_refl. Qed.

Lemma settle_st_kept es : respects (kept R) (settle_st es).
Proof.
  intros c. unfold kept, settle_st.
  destruct (settle (oracle c) (done c) (live es)) as [[o dn] lv]. apply R_refl.
Qed.

Lemma next_run_kept : respects (kept R) (@next_run W).
Proof.
  intros c. unfold kept, next_run.
  destruct (oracle c) as [|[k send| |] o]; apply R_refl.
Qed.

Lemma run_worker_kept orgID userID app i send es :
  (creater_keeps P O R) app ->
  respects (kept R) (run_worker P O orgID userID app i send es).
Proof.
  intros Hk. unfold run_worker.
  apply respects_bind; [apply kept_trans | apply respects_gets, kept_refl |].
  intros ctx.
  apply respects_bind; [apply kept_trans | now apply modify_kept |].
  intros _.
  apply respects_bind; [apply kept_trans | apply lift_kept, Hk |].
  intros [err|]; apply respects_ret, kept_refl.
Qed.

Lemma run_workers_kept limit orgID userID n pending es :
  List.Forall (fun it => (creater_keeps P O R) (fst it)) pending ->
  respects (kept R) (run_workers P O limit orgID userID n pending es).
Proof.
  revert pending es. induction n as [|n IH]; intros pending es Hall; simpl.
  - apply respects_ret, kept_refl.
  - apply respects_bind; [apply kept_trans | apply settle_st_kept |].
    intros es1.
    apply respects_bind; [apply kept_trans | apply next_run_kept |].
    intros ks.
    destruct (pick limit (fst ks) pending) as [[[app i] pending']|] eqn:Ep;
      [|apply respects_ret, kept_refl].
    apply pick_Some in Ep. destruct Ep as (Hperm & _).
    assert (Hall' : List.Forall (fun it => (creater_keeps P O R) (fst it))
                                ((app, i) :: pending')).
    { apply List.Forall_forall. intros it Hin.
      rewrite List.Forall_forall in Hall. apply Hall.
      eapply Permutation_in; [symmetry; exact Hperm | exact Hin]. }
    inversion Hall' as [|? ? Happ Hrest]; subst.
    apply respects_bind; [apply kept_trans | now apply run_worker_kept |].
    intros es2. now apply IH.
Qed.

Lemma work_items_keep appliers :
  List.Forall (creater_keeps P O R) appliers ->
  List.Forall (fun it => (creater_keeps P O R) (fst it)) (work_items appliers).
Proof.
  intros Hall. apply List.Forall_forall. intros [app i] Hin.
  unfold work_items in Hin. apply List.in_flat_map in Hin.
  destruct Hin as (app' & Happ & Hin). apply List.in_map_iff in Hin.
  destruct Hin as (j & [= <- <-] & _).
  rewrite List.Forall_forall in Hall. now apply Hall.
Qed.

Lemma runTilEnd_kept limit orgID userID appliers :
  List.Forall (creater_keeps P O R) appliers ->
  respects (kept R) (runTilEnd P O limit orgID userID appliers).
Proof.
  intros Hall. unfold runTilEnd.
  apply respects_bind; [apply kept_trans | now apply modify_kept |].
  intros _.
  apply respects_bind; [apply kept_trans | |].
  { apply run_workers_kept. now apply work_items_keep. }
  intros [es|]; [|apply respects_ret, kept_refl].
  apply respects_bind; [apply kept_trans | apply settle_st_kept |].
  intros es'.
  apply respects_bind; [apply kept_trans | now apply modify_kept |].
  intros _. apply respects_ret, kept_refl.
Qed.

Lemma rollback_loop_kept rs :
  (forall r, respects R (rollbacker_fn P O r)) ->
  respects (kept R) (rollback_loop P O rs).
Proof.
  intros Hr. induction rs as [|r rs IH]; simpl.
  - apply respects_ret, kept_refl.
  - apply respects_bind; [apply kept_trans | now apply modify_kept |].
    intros _.
    apply respects_bind; [apply kept_trans | apply lift_kept, Hr |].
    intros e.
    apply respects_bind; [apply kept_trans | | intros _; exact IH].
    destruct e; [now apply modify_kept | apply respects_ret, kept_refl].
Qed.

Lemma rollback_kept e :
  (forall r, respects R (rollbacker_fn P O r)) ->
  respects (kept R) (rollback P O e).
Proof.
  intros Hr. unfold rollback. destruct e; [|apply respects_ret, kept_refl].
  apply respects_bind; [apply kept_trans | apply respects_gets, kept_refl |].
  intros rs. now apply rollback_loop_kept.
Qed.

End Kept.

End CoordFacts.

Section WorkersKeep.
Context {W : Type} (P : Ports W) (O : PkgOps).

Local Open Scope st_scope.

Lemma same_sizes_refl p : same_sizes p p.
Proof. now repeat split. Qed.

Lemma same_sizes_trans p1 p2 p3 :
  same_sizes p1 p2 -> same_sizes p2 p3 -> same_sizes p1 p3.
Proof.
  intros (A1 & A2 & A3 & A4 & A5 & A6) (B1 & B2 & B3 & B4 & B5 & B6).
  repeat split; congruence.
Qed.

Lemma sizes_kept_refl (s : Sys W) : sizes_kept s s.
Proof. apply same_sizes_refl. Qed.

Lemma sizes_kept_trans (s1 s2 s3 : Sys W) :
  sizes_kept s1 s2 -> sizes_kept s2 s3 -> sizes_kept s1 s3.
Proof. apply same_sizes_trans. Qed.

Lemma pkg_kept_refl (s : Sys W) : pkg_kept s s.
Proof. reflexivity. Qed.

Lemma pkg_kept_trans (s1 s2 s3 : Sys W) :
  pkg_kept s1 s2 -> pkg_kept s2 s3 -> pkg_kept s1 s3.
Proof. unfold pkg_kept. congruence. Qed.

Lemma pkg_kept_sizes (s s' : Sys W) : pkg_kept s s' -> sizes_kept s s'.
Proof. unfold pkg_kept, sizes_kept. intros ->. apply same_sizes_refl. Qed.

Lemma invoke_pkg_kept {A} (c : Call) (f : W -> W * result A) :
  respects (@pkg_kept W) (invoke c f).
Proof. intros s. unfold invoke. now destruct (f (world s)). Qed.

Lemma set_rbl_pkg_kept (f : RollbackLists -> RollbackLists) :
  respects (@pkg_kept W) (modify (set_rbl f)).
Proof. intros s. reflexivity. Qed.

Lemma set_pkg_sizes_kept (f : Pkg -> Pkg) :
  (forall p, same_sizes p (f p)) -> respects (@sizes_kept W) (modify (set_pkg f)).
Proof. intros H s. apply H. Qed.

Ltac sizes_alter :=
  intros p; unfold same_sizes; simpl; rewrite ?length_alter; now repeat split.

Ltac keeps_sizes_step :=
  first
    [ apply respects_ret, sizes_kept_refl
    | apply respects_gets, sizes_kept_refl
    | apply set_pkg_sizes_kept; sizes_alter
    | intros s0; apply pkg_kept_sizes; apply set_rbl_pkg_kept
    | intros s0; apply pkg_kept_sizes; apply invoke_pkg_kept
    | apply respects_bind; [apply sizes_kept_trans | | intros ?] ].

Ltac keeps_sizes :=
  repeat first
    [ keeps_sizes_step
    | match goal with
      | |- respects _ (match ?x with _ => _ end) => destruct x
      | |- respects _ (if ?b then _ else _) => destruct b
      end ].

Lemma creater_fn_sizes cr ctx i orgID userID :
  respects (@sizes_kept W) (creater_fn P O cr ctx i orgID userID).
Proof.
  unfold creater_fn. destruct (creater_kind cr);
    unfold applyLabels_createFn, applyVariables_createFn, applyBuckets_createFn,
      applyDashboards_createFn, applyNotificationEndpoints_createFn,
      applyTelegrafs_createFn, applyLabelMappings_createFn,
      applyLabel, applyVariable, applyBucket, applyDashboard,
      applyNotificationEndpoint,
      svc_CreateLabel, svc_UpdateLabel, svc_CreateVariable, svc_UpdateVariable,
      svc_CreateBucket, svc_UpdateBucket, svc_CreateDashboard,
      svc_CreateNotificationEndpoint, svc_UpdateNotificationEndpoint,
      svc_CreateTelegrafConfig, svc_CreateLabelMapping;
    keeps_sizes.
Qed.

Ltac keeps_pkg :=
  repeat first
    [ apply respects_ret, pkg_kept_refl
    | apply respects_gets, pkg_kept_refl
    | apply set_rbl_pkg_kept
    | apply invoke_pkg_kept
    | apply respects_bind; [apply pkg_kept_trans | | intros ?]
    | apply respects_mapM; [apply pkg_kept_refl | apply pkg_kept_trans | intros ?]
    | match goal with
      | |- respects _ (match ?x with _ => _ end) => destruct x
      | |- respects _ (if ?b then _ else _) => destruct b
      end ].

Lemma applyLabelMappings_createFn_pkg ms ctx i orgID userID :
  respects (@pkg_kept W) (applyLabelMappings_createFn P O ms ctx i orgID userID).
Proof.
  unfold applyLabelMappings_createFn, svc_CreateLabelMapping. keeps_pkg.
Qed.

Lemma rollbacker_fn_pkg r : respects (@pkg_kept W) (rollbacker_fn P O r).
Proof.
  unfold rollbacker_fn. destruct (rollbacker_kind r);
    unfold rollbackLabels, rollbackVariables, rollbackBuckets, deleteByIDs,
      rollbackNotificationEndpoints, rollbackLabelMappings,
      rollbackLabel, rollbackVariable, rollbackBucket, rollbackNotificationEndpoint,
      svc_DeleteLabel, svc_UpdateLabel, svc_DeleteVariable, svc_UpdateVariable,
      svc_DeleteBucket, svc_UpdateBucket, svc_DeleteDashboard,
      svc_DeleteNotificationEndpoint, svc_UpdateNotificationEndpoint,
      svc_DeleteTelegrafConfig, svc_DeleteLabelMapping;
    keeps_pkg.
Qed.

Lemma builders_pkg :
  respects (@pkg_kept W) applyLabels /\
  respects (@pkg_kept W) applyVariables /\
  respects (@pkg_kept W) applyBuckets /\
  respects (@pkg_kept W) applyDashboards /\
  respects (@pkg_kept W) applyNotificationEndpoints /\
  respects (@pkg_kept W) applyTelegrafs /\
  (forall ms, respects (@pkg_kept W) (applyLabelMappings ms)).
Proof. repeat split; intros; intros s; reflexivity. Qed.

End WorkersKeep.

Section ApplyFacts.
Context {W : Type} (P : Ports W) (O : PkgOps).

Local Open Scope st_scope.

Lemma rollback_error_cases res errs :
  rollback_error res errs = None \/
  exists e, rollback_error res errs = Some e /\ is_rollback_error e.
Proof.
  destruct errs; [now left|]. right. eexists. split; [reflexivity|]. exact I.
Qed.

Lemma rollbacker_fn_error r s :
  fst (rollbacker_fn P O r s) = None \/
  exists e, fst (rollbacker_fn P O r s) = Some e /\ is_rollback_error e.
Proof.
  unfold rollbacker_fn.
  destruct (rollbacker_kind r); unfold bind, gets, ret;
    unfold rollbackLabels, rollbackVariables, rollbackBuckets, deleteByIDs,
      rollbackNotificationEndpoints, rollbackLabelMappings, bind, ret;
    match goal with |- context [mapM ?f ?l ?s0] => destruct (mapM f l s0) as [errs s1] end;
    simpl; try apply rollback_error_cases.
  destruct (concat errs); [now left|]. right. eexists. split; [reflexivity|]. exact I.
Qed.

Lemma rollback_loop_run rs c u c' :
  rollback_loop P O rs c = (u, c') ->
  trace c' = trace c ++ map (fun r => EvRollback (resource r)) rs /\
  rollbacks c' = rollbacks c /\
  exists l, logged c' = logged c ++ l /\ List.Forall (rollback_log rs) l.
Proof.
  revert c. induction rs as [|r rs IH]; intros c; simpl.
  - intros [= <- <-]. rewrite app_nil_r. repeat split. exists [].
    now rewrite app_nil_r.
  - unfold bind at 1. unfold emit, modify at 1.
    set (c0 := mkCoord (sys c) (done c) (oracle c) (rollbacks c)
                       (trace c ++ [EvRollback (resource r)]) (logged c)).
    unfold bind at 1. unfold lift at 1.
    pose proof (rollbacker_fn_error r (sys c0)) as He.
    destruct (rollbacker_fn P O r (sys c0)) as [e s1]. simpl in He.
    unfold bind at 1.
    set (c1 := mkCoord s1 (done c0) (oracle c0) (rollbacks c0) (trace c0) (logged c0)).
    assert (Hlog : exists c2 l0,
      (match e with
       | Some err => log_Error ("failed to delete " ++ resource r)%string err
       | None => ret tt
       end) c1 = (tt, c2) /\
      trace c2 = trace c1 /\ rollbacks c2 = rollbacks c1 /\
      logged c2 = logged c1 ++ l0 /\ List.Forall (rollback_log (r :: rs)) l0).
    { destruct He as [-> | (err & -> & Herr)].
      - exists c1, []. rewrite app_nil_r. now repeat split.
      - eexists _, [_]. unfold log_Error, modify. split; [reflexivity|]. simpl.
        repeat split. constructor; [|constructor].
        exists r. simpl. repeat split; auto. }
    destruct Hlog as (c2 & l0 & -> & T2 & R2 & L2 & F2).
    intros Hrun. apply IH in Hrun. destruct Hrun as (T3 & R3 & l & L3 & F3).
    split; [|split].
    + rewrite T3, T2. subst c1 c0. simpl. now rewrite <- app_assoc.
    + rewrite R3, R2. reflexivity.
    + exists (l0 ++ l). split.
      * rewrite L3, L2. subst c1 c0. simpl. now rewrite <- app_assoc.
      * apply List.Forall_app. split; [exact F2|].
        eapply List.Forall_impl; [|exact F3].
        intros entry (r0 & Hin & Hrest). exists r0. split; [now right | exact Hrest].
Qed.

Lemma rollback_run e c u c' :
  rollback P O e c = (u, c') ->
  trace c' = trace c ++
    match e with
    | Some _ => map (fun r => EvRollback (resource r)) (rollbacks c)
    | None => []
    end /\
  rollbacks c' = rollbacks c /\
  exists l, logged c' = logged c ++ l /\ List.Forall (rollback_log (rollbacks c)) l.
Proof.
  unfold rollback. destruct e as [err|].
  - unfold bind, gets. apply rollback_loop_run.
  - intros [= <- <-]. rewrite app_nil_r. repeat split.
    exists []. now rewrite app_nil_r.
Qed.

Lemma lift_fst {A} (m : ST (Sys W) A) c : fst (lift m c) = fst (m (sys c)).
Proof. unfold lift. now destruct (m (sys c)). Qed.

(** A builder leaves the package alone; its applier counts the records of
    the package. *)
Lemma builder_run {A} (m : ST (Sys W) A) c :
  respects (@pkg_kept W) m ->
  same_record c (snd (lift m c)) /\ pkg (sys (snd (lift m c))) = pkg (sys c) /\
  fst (lift m c) = fst (m (sys c)).
Proof.
  intros Hm. split; [apply lift_same|]. split; [|apply lift_fst].
  apply (lift_kept pkg_kept m Hm c).
Qed.

Lemma all_creaters_keep_sizes appliers :
  List.Forall (creater_keeps P O (@sizes_kept W)) appliers.
Proof.
  apply List.Forall_forall. intros app _ ctx i orgID userID.
  apply creater_fn_sizes.
Qed.

Lemma Apply_body_run limit orgID userID c sum e c' :
  Apply_body P O limit orgID userID c = (Some (sum, e), c') ->
  logged c' = logged c /\
  exists recorded t,
    rollbacks c' = rollbacks c ++ recorded /\
    trace c' = trace c ++ t /\
    body_shape O (pkg (sys c')) e recorded t.
Proof.
  destruct (builders_pkg (W := W)) as (B1 & B2 & B3 & B4 & B5 & B6 & B7).
  unfold Apply_body.
  unfold bind at 1.
  destruct (builder_run applyLabels c B1) as ((T1 & R1 & L1) & K1 & F1).
  destruct (lift applyLabels c) as [labels c1]. simpl in T1, R1, L1, K1, F1.
  unfold bind at 1.
  destruct (builder_run applyVariables c1 B2) as ((T2 & R2 & L2) & K2 & F2).
  destruct (lift applyVariables c1) as [variables c2]. simpl in T2, R2, L2, K2, F2.
  unfold bind at 1.
  destruct (builder_run applyBuckets c2 B3) as ((T3 & R3 & L3) & K3 & F3).
  destruct (lift applyBuckets c2) as [buckets c3]. simpl in T3, R3, L3, K3, F3.
  unfold bind at 1.
  destruct (builder_run applyDashboards c3 B4) as ((T4 & R4 & L4) & K4 & F4).
  destruct (lift applyDashboards c3) as [dashboards c4]. simpl in T4, R4, L4, K4, F4.
  unfold bind at 1.
  destruct (builder_run applyNotificationEndpoints c4 B5) as ((T5 & R5 & L5) & K5 & F5).
  destruct (lift applyNotificationEndpoints c4) as [endpoints c5].
  simpl in T5, R5, L5, K5, F5.
  unfold bind at 1.
  destruct (builder_run applyTelegrafs c5 B6) as ((T6 & R6 & L6) & K6 & F6).
  destruct (lift applyTelegrafs c5) as [telegrafs c6]. simpl in T6, R6, L6, K6, F6.
  assert (T0 : trace c6 = trace c) by congruence.
  assert (R0 : rollbacks c6 = rollbacks c) by congruence.
  assert (L0 : logged c6 = logged c) by congruence.
  rewrite K1 in K2. rewrite K2 in K3. rewrite K3 in K4. rewrite K4 in K5.
  rewrite K5 in K6.
  unfold applyLabels, applyVariables, applyBuckets, applyDashboards,
    applyNotificationEndpoints, applyTelegrafs, bind, gets, modify, ret in F1, F2, F3,
    F4, F5, F6.
  simpl in F1, F2, F3, F4, F5, F6.
  rewrite K1 in F2. rewrite K2 in F3. rewrite K3 in F4. rewrite K4 in F5.
  rewrite K5 in F6.
  clear T1 T2 T3 T4 T5 T6 R1 R2 R3 R4 R5 R6 L1 L2 L3 L4 L5 L6 B1 B2 B3 B4 B5 B6.
  clear K1 K2 K3 K4 K5.
  unfold bind at 1. simpl run_groups.
  unfold bind at 1.
  pose proof (runTilEnd_kept P O sizes_kept sizes_kept_refl sizes_kept_trans
                limit orgID userID [labels] (all_creaters_keep_sizes _) c6) as SA.
  destruct (runTilEnd P O limit orgID userID [labels] c6) as [[eA|] cA] eqn:EA;
    [|discriminate].
  apply runTilEnd_run in EA.
  destruct EA as ((tA & TA & PA) & RA & LA & CA).
  unfold kept, sizes_kept in SA. simpl in SA. rewrite K6 in SA.
  subst labels. simpl in PA, RA. rewrite app_nil_r in PA.
  destruct eA as [errA|].
  { destruct CA as [CA | (errs & CA)]; [discriminate|]. injection CA as ->.
    unfold ret. intros [= <- <- <-].
    split; [congruence|].
    exists recorded_labels, (tA ++ [EvGroupEnd (Some (ApplyFailed errs))]).
    split; [now rewrite RA, R0|]. split; [now rewrite TA, T0|].
    constructor. unfold labels_created.
    destruct SA as (_ & -> & _). exact PA. }
  unfold bind at 1.
  pose proof (runTilEnd_kept P O sizes_kept sizes_kept_refl sizes_kept_trans
                limit orgID userID
                [variables; buckets; dashboards; endpoints; telegrafs]
                (all_creaters_keep_sizes _) cA) as SB.
  destruct (runTilEnd P O limit orgID userID
              [variables; buckets; dashboards; endpoints; telegrafs] cA)
    as [[eB|] cB] eqn:EB; [|discriminate].
  apply runTilEnd_run in EB.
  destruct EB as ((tB & TB & PB) & RB & LB & CB).
  unfold kept, sizes_kept in SB. simpl in SB.
  pose proof (same_sizes_trans _ _ _ SA SB) as SAB.
  subst variables buckets dashboards endpoints telegrafs.
  simpl in PB, RB. rewrite app_nil_r in PB.
  assert (PA' : Permutation tA (labels_created (pkg (sys cB)))).
  { unfold labels_created. destruct SAB as (_ & -> & _). exact PA. }
  assert (PB' : Permutation tB (primaries_created (pkg (sys cB)))).
  { unfold primaries_created.
    destruct SAB as (-> & _ & -> & -> & -> & ->). exact PB. }
  destruct eB as [errB|].
  { destruct CB as [CB | (errs & CB)]; [discriminate|]. injection CB as ->.
    unfold ret. intros [= <- <- <-].
    split; [congruence|].
    exists recorded_primaries,
      (tA ++ EvGroupEnd None :: tB ++ [EvGroupEnd (Some (ApplyFailed errs))]).
    split; [rewrite RB, RA, R0; now rewrite <- app_assoc|].
    split; [rewrite TB, TA, T0; now rewrite <- !app_assoc|].
    constructor; assumption. }
  simpl. unfold ret at 1.
  unfold bind at 1. unfold gets at 1.
  unfold bind at 1.
  destruct (builder_run (applyLabelMappings (pkg_labelMappings O (pkg (sys cB)))) cB
              (B7 _)) as ((T7 & R7 & L7) & K7 & F7).
  destruct (lift (applyLabelMappings (pkg_labelMappings O (pkg (sys cB)))) cB)
    as [secondary c7]. simpl in T7, R7, L7, K7, F7.
  unfold applyLabelMappings, bind, modify, ret in F7. simpl in F7.
  unfold bind at 1.
  assert (HkC : List.Forall (creater_keeps P O (@pkg_kept W)) [secondary]).
  { constructor; [|constructor]. subst secondary. intros ctx i o u.
    unfold creater_fn. simpl. apply applyLabelMappings_createFn_pkg. }
  pose proof (runTilEnd_kept P O pkg_kept pkg_kept_refl pkg_kept_trans
                limit orgID userID [secondary] HkC c7) as SC.
  destruct (runTilEnd P O limit orgID userID [secondary] c7) as [[eC|] cC] eqn:EC;
    [|discriminate].
  apply runTilEnd_run in EC.
  destruct EC as ((tC & TC & PC) & RC & LC & CC).
  unfold kept, pkg_kept in SC. simpl in SC. rewrite K7 in SC.
  subst secondary. simpl in PC, RC. rewrite app_nil_r in PC.
  assert (Hfin : logged cC = logged c /\
    rollbacks cC = rollbacks c ++ recorded_all /\
    trace cC = trace c ++
      (tA ++ EvGroupEnd None :: tB ++ EvGroupEnd None :: tC ++ [EvGroupEnd eC])).
  { split; [congruence|]. split.
    - rewrite RC, R7, RB, RA, R0. now rewrite <- !app_assoc.
    - rewrite TC, T7, TB, TA, T0. rewrite <- !app_assoc. simpl.
      rewrite <- ?app_assoc. reflexivity. }
  destruct Hfin as (Lf & Rf & Tf).
  assert (Hshape : body_shape O (pkg (sys cC)) eC recorded_all
            (tA ++ EvGroupEnd None :: tB ++ EvGroupEnd None :: tC ++ [EvGroupEnd eC])).
  { rewrite SC. constructor; try assumption. }
  destruct eC as [errC|].
  - unfold ret. intros [= <- <- <-]. split; [exact Lf|].
    eexists _, _. split; [exact Rf|]. split; [exact Tf|]. exact Hshape.
  - unfold bind, gets, ret. intros [= <- <- <-]. split; [exact Lf|].
    eexists _, _. split; [exact Rf|]. split; [exact Tf|]. exact Hshape.
Qed.

(** How an [Apply] that returns has run: it returned an error before the
    coordinator was made, or it went through the groups and, on an error,
    through the rollbackers recorded. *)
Lemma Apply_run limit orgID userID c sum e c' :
  Apply P O limit orgID userID c = (Some (sum, e), c') ->
  (e <> None /\ trace c' = trace c /\ rollbacks c' = rollbacks c /\
   logged c' = logged c) \/
  (exists t l,
     body_shape O (pkg (sys c')) e (rollbacks c') t /\
     trace c' = trace c ++ t ++
       match e with
       | Some _ => map (fun r => EvRollback (resource r)) (rollbacks c')
       | None => []
       end /\
     logged c' = logged c ++ l /\ List.Forall (rollback_log (rollbacks c')) l).
Proof.
  unfold Apply. unfold bind at 1. unfold gets at 1.
  unfold bind at 1.
  assert (H1 : forall b, respects (@same_record W)
    (if b : bool then ret None
     else lift (bind (gets pkg) (fun p =>
            let (p', err) := pkg_Validate O p in
            bind (modify (set_pkg (fun _ => p'))) (fun _ => ret err))))).
  { intros [|]; [apply respects_ret, same_record_refl | apply lift_same]. }
  specialize (H1 (isParsed (pkg (sys c))) c).
  destruct ((if isParsed (pkg (sys c)) then ret None else _) c) as [verr c1].
  destruct H1 as (T1 & R1 & L1). simpl in T1, R1, L1.
  destruct verr as [err|].
  { unfold ret. intros [= <- <- <-]. left. now repeat split. }
  unfold bind at 1. unfold gets at 1.
  unfold bind at 1.
  assert (H2 : forall b, respects (@same_record W)
    (if b : bool then ret None
     else bind (gets done) (fun ctx =>
            bind (lift (DryRun P O ctx orgID userID)) (fun r => ret (snd r))))).
  { intros [|]; [apply respects_ret, same_record_refl |].
    apply respects_bind; [apply same_record_trans | apply respects_gets, same_record_refl |].
    intros ctx.
    apply respects_bind; [apply same_record_trans | apply lift_same |].
    intros r. apply respects_ret, same_record_refl. }
  specialize (H2 (isVerified (pkg (sys c1))) c1).
  destruct ((if isVerified (pkg (sys c1)) then ret None else _) c1) as [derr c2].
  destruct H2 as (T2 & R2 & L2). simpl in T2, R2, L2.
  destruct derr as [err|].
  { unfold ret. intros [= <- <- <-]. left. repeat split; congruence. }
  unfold bind at 1. unfold set_rollbacks, modify at 1.
  set (c3 := mkCoord (sys c2) (done c2) (oracle c2) [] (trace c2) (logged c2)).
  unfold bind at 1.
  destruct (Apply_body P O limit orgID userID c3) as [[[sum' e']|] c4] eqn:EB;
    [|discriminate].
  apply Apply_body_run in EB.
  destruct EB as (L4 & recorded & t & R4 & T4 & Hshape).
  simpl in L4, R4, T4.
  unfold bind at 1.
  pose proof (rollback_kept P O pkg_kept pkg_kept_refl pkg_kept_trans e'
                (rollbacker_fn_pkg P O) c4) as K5.
  destruct (rollback P O e' c4) as [u c5] eqn:ER.
  unfold kept, pkg_kept in K5. simpl in K5.
  apply rollback_run in ER. destruct ER as (T5 & R5 & l & L5 & F5).
  unfold ret. intros [= <- <- <-]. right.
  exists t, l. rewrite R5, R4, K5.
  split; [exact Hshape|]. split; [|split].
  - rewrite T5, T4, T2, T1, R4, <- app_assoc. reflexivity.
  - rewrite L5, L4, L2, L1. reflexivity.
  - now rewrite R4 in F5.
Qed.

Lemma new_events_app (c c' : @Coord W) t :
  trace c' = trace c ++ t -> new_events c c' = t.
Proof. unfold new_events. intros ->. apply drop_app_length. Qed.

Lemma rollback_events_rollbacks rs :
  rollback_events (map (fun r => EvRollback (resource r)) rs) = map resource rs.
Proof. induction rs as [|r rs IH]; simpl; [reflexivity|]. now f_equal. Qed.

Lemma rollback_events_none t :
  List.Forall (fun ev => ~ is_rollback ev) t -> rollback_events t = [].
Proof.
  induction 1 as [|ev t Hev _ IH]; [reflexivity|].
  unfold rollback_events in *. simpl. destruct ev; simpl in *; try exact IH.
  now destruct Hev.
Qed.

Lemma created_no_rollback res n : List.Forall (fun ev => ~ is_rollback ev) (created res n).
Proof.
  apply List.Forall_forall. intros ev Hin Hr. unfold created in Hin.
  apply List.in_map_iff in Hin. destruct Hin as (i & <- & _). exact Hr.
Qed.

Lemma Permutation_no_rollback t t' :
  Permutation t t' ->
  List.Forall (fun ev => ~ is_rollback ev) t' ->
  List.Forall (fun ev => ~ is_rollback ev) t.
Proof.
  intros Hp H. apply List.Forall_forall. intros ev Hin.
  rewrite List.Forall_forall in H. apply H. eapply Permutation_in; eassumption.
Qed.

Lemma labels_no_rollback p t :
  Permutation t (labels_created p) -> List.Forall (fun ev => ~ is_rollback ev) t.
Proof. intros Hp. eapply Permutation_no_rollback; [exact Hp|]. apply created_no_rollback. Qed.

Lemma mappings_no_rollback p t :
  Permutation t (mappings_created O p) -> List.Forall (fun ev => ~ is_rollback ev) t.
Proof. intros Hp. eapply Permutation_no_rollback; [exact Hp|]. apply created_no_rollback. Qed.

Lemma primaries_no_rollback p t :
  Permutation t (primaries_created p) -> List.Forall (fun ev => ~ is_rollback ev) t.
Proof.
  intros Hp. eapply Permutation_no_rollback; [exact Hp|]. unfold primaries_created.
  repeat (apply List.Forall_app; split); apply created_no_rollback.
Qed.

Lemma rollback_events_app t1 t2 :
  rollback_events (t1 ++ t2) = rollback_events t1 ++ rollback_events t2.
Proof. unfold rollback_events. apply omap_app. Qed.

Lemma rollback_events_skip tA x rest :
  List.Forall (fun ev => ~ is_rollback ev) tA ->
  rollback_events (tA ++ EvGroupEnd x :: rest) = rollback_events rest.
Proof.
  intros H. rewrite rollback_events_app, (rollback_events_none _ H). reflexivity.
Qed.

(** No rollback handler is invoked before [Apply] reaches its return. *)
Lemma body_shape_no_rollback p e recorded t :
  body_shape O p e recorded t -> rollback_events t = [].
Proof.
  intros H. destruct H as [tA errs PA | tA tB errs PA PB | tA tB tC e PA PB PC He].
  - now rewrite (rollback_events_skip _ _ _ (labels_no_rollback _ _ PA)).
  - rewrite (rollback_events_skip _ _ _ (labels_no_rollback _ _ PA)).
    now rewrite (rollback_events_skip _ _ _ (primaries_no_rollback _ _ PB)).
  - rewrite (rollback_events_skip _ _ _ (labels_no_rollback _ _ PA)).
    rewrite (rollback_events_skip _ _ _ (primaries_no_rollback _ _ PB)).
    now rewrite (rollback_events_skip _ _ _ (mappings_no_rollback _ _ PC)).
Qed.

Lemma body_shape_recorded p e recorded t :
  body_shape O p e recorded t -> NoDup (map resource recorded).
Proof.
  intros H. destruct H; apply NoDup_ListNoDup; vm_compute;
    repeat (constructor; [intros Hin; repeat (destruct Hin as [Hin|Hin]; [discriminate|]);
                          exact Hin|]); constructor.
Qed.

Lemma body_shape_group_end p err recorded t :
  body_shape O p (Some err) recorded t ->
  In (EvGroupEnd (Some err)) t /\ exists errs, err = ApplyFailed errs.
Proof.
  intros H. inversion H; subst.
  - split; [|now eexists]. apply List.in_or_app. right. now left.
  - split; [|now eexists]. apply List.in_or_app. right. right.
    apply List.in_or_app. right. now left.
  - split.
    + apply List.in_or_app. right. right. apply List.in_or_app. right. right.
      apply List.in_or_app. right. now left.
    + match goal with
      | Hc : _ \/ _ |- _ =>
          destruct Hc as [Hd | (errs & Hd)];
          [discriminate | injection Hd as ->; now eexists]
      end.
Qed.

Lemma run_handlers_cons r rs (s : Sys W) :
  run_handlers P O (r :: rs) s =
  (let (e, s1) := rollbacker_fn P O r s in
   let (outs, s2) := run_handlers P O rs s1 in
   ((r, e) :: outs, s2)).
Proof.
  unfold run_handlers. simpl. unfold bind, ret.
  destruct (rollbacker_fn P O r s) as [e s1].
  now destruct (mapM _ rs s1).
Qed.

Lemma rollback_loop_log rs (c : @Coord W) u c' :
  rollback_loop P O rs c = (u, c') ->
  sys c' = snd (run_handlers P O rs (sys c)) /\
  logged c' = logged c ++ handler_log (fst (run_handlers P O rs (sys c))).
Proof.
  revert c. induction rs as [|r rs IH]; intros c.
  - simpl. intros [= <- <-]. now rewrite app_nil_r.
  - rewrite run_handlers_cons. simpl rollback_loop.
    unfold bind at 1. unfold emit, modify at 1.
    unfold bind at 1. unfold lift at 1. simpl sys.
    destruct (rollbacker_fn P O r (sys c)) as [e s1].
    unfold bind at 1.
    destruct e as [err|].
    + unfold log_Error, modify. intros Hrun. apply IH in Hrun. simpl in Hrun.
      destruct Hrun as (Hs & Hl).
      destruct (run_handlers P O rs s1) as [outs s2]. simpl in *.
      split; [exact Hs|]. rewrite Hl, <- app_assoc. reflexivity.
    + unfold ret at 1. intros Hrun. apply IH in Hrun. simpl in Hrun.
      destruct Hrun as (Hs & Hl).
      destruct (run_handlers P O rs s1) as [outs s2]. simpl in *.
      split; [exact Hs | exact Hl].
Qed.

Lemma handler_log_errors rs (s : Sys W) :
  List.Forall (fun entry => is_rollback_error (snd entry))
              (handler_log (fst (run_handlers P O rs s))).
Proof.
  revert s. induction rs as [|r rs IH]; intros s; [constructor|].
  rewrite run_handlers_cons.
  pose proof (rollbacker_fn_error r s) as He.
  destruct (rollbacker_fn P O r s) as [e s1]. simpl in He.
  specialize (IH s1).
  destruct (run_handlers P O rs s1) as [outs s2]. simpl in *.
  destruct He as [-> | (err & -> & Herr)]; simpl; [exact IH|].
  constructor; [exact Herr | exact IH].
Qed.

(** An [Apply] that returns went wrong before the coordinator was made, or
    ran its body and then the deferred rollback. *)
Lemma Apply_split limit orgID userID (c : @Coord W) sum e c' :
  Apply P O limit orgID userID c = (Some (sum, e), c') ->
  (e <> None /\ trace c' = trace c /\ rollbacks c' = rollbacks c /\
   logged c' = logged c) \/
  (exists c3 c4,
     logged c3 = logged c /\
     Apply_body P O limit orgID userID c3 = (Some (sum, e), c4) /\
     rollback P O e c4 = (tt, c')).
Proof.
  unfold Apply. unfold bind at 1. unfold gets at 1.
  unfold bind at 1.
  assert (H1 : forall b, respects (@same_record W)
    (if b : bool then ret None
     else lift (bind (gets pkg) (fun p =>
            let (p', err) := pkg_Validate O p in
            bind (modify (set_pkg (fun _ => p'))) (fun _ => ret err))))).
  { intros [|]; [apply respects_ret, same_record_refl | apply lift_same]. }
  specialize (H1 (isParsed (pkg (sys c))) c).
  destruct ((if isParsed (pkg (sys c)) then ret None else _) c) as [verr c1].
  destruct H1 as (T1 & R1 & L1). simpl in T1, R1, L1.
  destruct verr as [err|].
  { unfold ret. intros [= <- <- <-]. left. now repeat split. }
  unfold bind at 1. unfold gets at 1.
  unfold bind at 1.
  assert (H2 : forall b, respects (@same_record W)
    (if b : bool then ret None
     else bind (gets done) (fun ctx =>
            bind (lift (DryRun P O ctx orgID userID)) (fun r => ret (snd r))))).
  { intros [|]; [apply respects_ret, same_record_refl |].
    apply respects_bind; [apply same_record_trans | apply respects_gets, same_record_refl |].
    intros ctx.
    apply respects_bind; [apply same_record_trans | apply lift_same |].
    intros r. apply respects_ret, same_record_refl. }
  specialize (H2 (isVerified (pkg (sys c1))) c1).
  destruct ((if isVerified (pkg (sys c1)) then ret None else _) c1) as [derr c2].
  destruct H2 as (T2 & R2 & L2). simpl in T2, R2, L2.
  destruct derr as [err|].
  { unfold ret. intros [= <- <- <-]. left. repeat split; congruence. }
  unfold bind at 1. unfold set_rollbacks, modify at 1.
  set (c3 := mkCoord (sys c2) (done c2) (oracle c2) [] (trace c2) (logged c2)).
  unfold bind at 1.
  destruct (Apply_body P O limit orgID userID c3) as [[[sum' e']|] c4] eqn:EB;
    [|discriminate].
  unfold bind at 1.
  destruct (rollback P O e' c4) as [[] c5] eqn:ER.
  unfold ret. intros [= <- <- <-]. right.
  exists c3, c4. split; [simpl; congruence|]. split; [exact EB | exact ER].
Qed.

End ApplyFacts.

(** ** With a semaphore of positive capacity [Apply] returns *)

Section Returns.
Context {W : Type} (P : Ports W) (O : PkgOps).

Local Open Scope st_scope.

Lemma bind_returns {S A B} (m : ST S A) (k : A -> ST S (option B)) :
  (forall a s, fst (k a s) <> None) -> forall s, fst (bind m k s) <> None.
Proof. intros Hk s. unfold bind. destruct (m s) as [a s1]. apply Hk. Qed.

Lemma bind_returns_opt {S A B} (m : ST S (option A)) (k : option A -> ST S (option B)) :
  (forall s, fst (m s) <> None) ->
  (forall a s, fst (k (Some a) s) <> None) ->
  forall s, fst (bind m k s) <> None.
Proof.
  intros Hm Hk s. unfold bind. specialize (Hm s).
  destruct (m s) as [[a|] s1]; [apply Hk | now destruct Hm].
Qed.

Lemma pick_returns {A} limit k (pending : list A) :
  0 < limit -> pending <> [] -> pick limit k pending <> None.
Proof.
  intros Hl Hp. unfold pick.
  destruct (Nat.min limit (length pending)) as [|w] eqn:E.
  - destruct pending; [now destruct Hp | simpl in E; lia].
  - assert (Hlt : k mod S w < length pending).
    { pose proof (Nat.mod_upper_bound k (S w)). lia. }
    apply lookup_lt_is_Some_2 in Hlt. destruct Hlt as [x ->]. discriminate.
Qed.

Lemma run_workers_returns limit orgID userID n pending es c :
  0 < limit -> n = length pending ->
  fst (run_workers P O limit orgID userID n pending es c) <> None.
Proof.
  intros Hl. revert pending es c. induction n as [|n IH]; intros pending es c Hn; simpl.
  - discriminate.
  - unfold bind at 1. destruct (settle_st es c) as [es1 c1].
    unfold bind at 1. destruct (next_run c1) as [ks c2].
    destruct (pick limit (fst ks) pending) as [[[app i] pending']|] eqn:Ep.
    + apply pick_Some in Ep. destruct Ep as (_ & Hlen).
      unfold bind at 1.
      destruct (run_worker P O orgID userID app i (snd ks) es1 c2) as [es2 c3].
      apply IH. lia.
    + exfalso. revert Ep. apply pick_returns; [exact Hl|].
      intros ->. discriminate.
Qed.

Lemma runTilEnd_returns limit orgID userID appliers c :
  0 < limit -> fst (runTilEnd P O limit orgID userID appliers c) <> None.
Proof.
  intros Hl. unfold runTilEnd. revert c. apply bind_returns. intros _.
  apply bind_returns_opt.
  - intros c. now apply run_workers_returns.
  - intros es. apply bind_returns. intros es'. apply bind_returns. intros _ c.
    discriminate.
Qed.

Lemma Apply_body_returns limit orgID userID c :
  0 < limit -> fst (Apply_body P O limit orgID userID c) <> None.
Proof.
  intros Hl. unfold Apply_body. revert c.
  do 6 (apply bind_returns; intros ?). simpl run_groups.
  apply bind_returns_opt.
  - apply bind_returns_opt; [intros c; now apply runTilEnd_returns|].
    intros [e|]; [intros c; discriminate|].
    apply bind_returns_opt; [intros c; now apply runTilEnd_returns|].
    intros [e|] c; discriminate.
  - intros [e|]; [intros c; discriminate|].
    apply bind_returns. intros ms. apply bind_returns. intros secondary.
    apply bind_returns_opt; [intros c; now apply runTilEnd_returns|].
    intros [e|]; [intros c; discriminate|].
    apply bind_returns. intros p c. discriminate.
Qed.

(** [Apply] returns whenever the semaphore admits a worker, as that of
    [NewService] does. *)
Lemma Apply_returns limit orgID userID c :
  0 < limit -> fst (Apply P O limit orgID userID c) <> None.
Proof.
  intros Hl. unfold Apply. revert c.
  apply bind_returns. intros parsed. apply bind_returns. intros [err|];
    [intros c; discriminate|].
  apply bind_returns. intros verified. apply bind_returns. intros [err|];
    [intros c; discriminate|].
  apply bind_returns. intros _.
  apply bind_returns_opt; [intros c; now apply Apply_body_returns|].
  intros [sum e]. apply bind_returns. intros _ c. discriminate.
Qed.

End Returns.

Section ApplyClaims.
Context {W : Type} (P : Ports W) (O : PkgOps).

(** C2.  If [Apply] returns an error, then either it returned before the
    coordinator was made, with nothing recorded, invoked or logged, or the
    error is the aggregated error that the error stream of the failing
    group emitted and every rollbacker recorded has been invoked exactly
    once: the invocations are the recorded list, which has no duplicates,
    run one after the other from the state [s0] that [Apply] had reached.
    For every handler that returned an error the log gained one entry,
    "failed to delete ..." with that error, and nothing else; each such
    error is an error of a rollback handler and none is the one
    returned. *)
Theorem Apply_error_runs_every_rollbacker_once
  (limit : nat) (orgID userID : ID) (c c' : @Coord W) (sum : Summary O) (err : error) :
  Apply P O limit orgID userID c = (Some (sum, Some err), c') ->
  (new_events c c' = [] /\ rollbacks c' = rollbacks c /\ logged c' = logged c) \/
  ((exists errs, err = ApplyFailed errs) /\
   In (EvGroupEnd (Some err)) (new_events c c') /\
   rollback_events (new_events c c') = map resource (rollbacks c') /\
   NoDup (map resource (rollbacks c')) /\
   exists s0 : Sys W,
     let outs := run_handlers P O (rollbacks c') s0 in
     sys c' = snd outs /\
     logged c' = logged c ++ handler_log (fst outs) /\
     List.Forall (fun entry => is_rollback_error (snd entry) /\ snd entry <> err)
                 (handler_log (fst outs))).
Proof.
  intros H. pose proof H as H'. apply Apply_run in H.
  destruct H as [(_ & T & R & L) | (t & l & Hs & T & L & F)].
  - left. split; [|now split]. apply new_events_app. now rewrite app_nil_r.
  - right. pose proof T as T0. apply new_events_app in T. rewrite T.
    destruct (body_shape_group_end _ _ _ _ _ Hs) as (Hin & errs & ->).
    split; [now eexists|]. split; [apply List.in_or_app; now left|].
    split; [|split].
    + rewrite rollback_events_app, (body_shape_no_rollback _ _ _ _ _ Hs).
      apply rollback_events_rollbacks.
    + eapply body_shape_recorded. exact Hs.
    + apply Apply_split in H'.
      destruct H' as [(_ & T' & _) | (c3 & c4 & L3 & EB & ER)].
      { exfalso. rewrite T' in T0.
        apply (f_equal (@length event)) in T0. rewrite !length_app in T0.
        destruct Hs; rewrite ?length_app in T0; simpl in T0;
          rewrite ?length_app in T0; simpl in T0; lia. }
      apply Apply_body_run in EB. destruct EB as (L4 & _).
      pose proof (rollback_run P O _ _ _ _ ER) as (_ & R5 & _).
      unfold rollback in ER. unfold bind, gets in ER.
      apply rollback_loop_log in ER. destruct ER as (Hsys & Hlog).
      exists (sys c4). cbv zeta. rewrite R5.
      split; [exact Hsys|]. split; [rewrite Hlog; congruence|].
      eapply List.Forall_impl; [|apply handler_log_errors].
      intros entry He. cbv beta in He. split; [exact He|].
      intros Heq. rewrite Heq in He. exact He.
Qed.

(** C3.  The create functions that an [Apply] runs come in three blocks,
    each ended by the verdict of its group: one run for every label of the
    package, then one for every variable, bucket, dashboard, notification
    endpoint and telegraf configuration, then one for every label mapping;
    a later block starts only after the verdict of the block before it.
    An [Apply] that returns without an error has run the three blocks,
    each with a verdict of no error; once a group has ended with an error
    that error is what [Apply] returns and nothing but rollbacks follow;
    an [Apply] that runs no create function at all returns an error. *)
Theorem Apply_groups_in_order
  (limit : nat) (orgID userID : ID) (c c' : @Coord W)
  (sum : Summary O) (e : option error) :
  Apply P O limit orgID userID c = (Some (sum, e), c') ->
  groups_in_order O (pkg (sys c')) e (new_events c c').
Proof.
  intros H. apply Apply_run in H.
  destruct H as [(He & T & _) | (t & l & Hs & T & _)].
  - rewrite (new_events_app c c' []); [|now rewrite app_nil_r].
    destruct e as [err|]; [constructor | now destruct He].
  - apply new_events_app in T. rewrite T. clear T.
    assert (Hrb : List.Forall is_rollback
                    (map (fun r => EvRollback (resource r)) (rollbacks c'))).
    { apply List.Forall_forall. intros ev Hin. apply List.in_map_iff in Hin.
      destruct Hin as (r & <- & _). exact I. }
    destruct Hs as [tA errs PA | tA tB errs PA PB | tA tB tC e PA PB PC He].
    + rewrite <- app_assoc. simpl. econstructor; eassumption.
    + rewrite <- app_assoc. simpl. rewrite <- app_assoc. simpl.
      econstructor; eassumption.
    + destruct e as [err|].
      * rewrite <- app_assoc. simpl. rewrite <- app_assoc. simpl.
        rewrite <- app_assoc. simpl. econstructor; eassumption.
      * rewrite app_nil_r. econstructor; eassumption.
Qed.

(** C4 (as amended).  When [Apply] fails, the recorded rollback handlers
    are invoked one after the other in the order of their insertion: the
    rollbacker recorded first is invoked first. *)
Theorem Apply_rollbacks_in_insertion_order
  (limit : nat) (orgID userID : ID) (c c' : @Coord W) (sum : Summary O) (err : error) :
  rollbacks c = [] ->
  Apply P O limit orgID userID c = (Some (sum, Some err), c') ->
  rollback_events (new_events c c') = map resource (rollbacks c').
Proof.
  intros Hnil H. apply Apply_run in H.
  destruct H as [(_ & T & R & L) | (t & l & Hs & T & L & F)].
  - rewrite (new_events_app c c' []); [|now rewrite app_nil_r].
    now rewrite R, Hnil.
  - apply new_events_app in T. rewrite T.
    rewrite rollback_events_app, (body_shape_no_rollback _ _ _ _ _ Hs).
    apply rollback_events_rollbacks.
Qed.

End ApplyClaims.

Lemma Apply_error_runs_every_rollbacker_once_witness :
  rollback_events (new_events Scenario.update_start (snd Scenario.stuck_run)) =
    map resource (rollbacks (snd Scenario.stuck_run)) /\
  exists s0 : Sys Mem.World,
    logged (snd Scenario.stuck_run) =
      handler_log (fst (run_handlers Mem.ports_keeping_labels Ref.ops
                          (rollbacks (snd Scenario.stuck_run)) s0)).
Proof.
  destruct (Apply_error_runs_every_rollbacker_once Mem.ports_keeping_labels Ref.ops
              NewService_applyReqLimit Scenario.orgID Scenario.userID
              Scenario.update_start (snd Scenario.stuck_run)
              Ref.Pkg_empty
              (ApplyFailed [("variable", [mkApplyErrBody "v_bad" "boom"])]))
    as [(Hn & _) | (_ & _ & H & _ & s0 & _ & Hl & _)].
  - vm_compute. reflexivity.
  - vm_compute in Hn. discriminate Hn.
  - split; [exact H|]. exists s0. exact Hl.
Defined.

Lemma Apply_groups_in_order_witness :
  groups_in_order Ref.ops (pkg (sys (snd Scenario.update_run)))
    (Some (ApplyFailed [("variable", [mkApplyErrBody "v_bad" "boom"])]))
    (new_events Scenario.update_start (snd Scenario.update_run)).
Proof.
  apply (Apply_groups_in_order Mem.ports Ref.ops
           NewService_applyReqLimit Scenario.orgID Scenario.userID
           Scenario.update_start (snd Scenario.update_run)
           Ref.Pkg_empty
           (Some (ApplyFailed [("variable", [mkApplyErrBody "v_bad" "boom"])]))).
  vm_compute. reflexivity.
Defined.

Lemma Apply_rollbacks_in_insertion_order_witness :
  rollback_events (new_events Scenario.update_start (snd Scenario.update_run)) =
  map resource (rollbacks (snd Scenario.update_run)).
Proof.
  apply (Apply_rollbacks_in_insertion_order Mem.ports Ref.ops
           NewService_applyReqLimit Scenario.orgID Scenario.userID
           Scenario.update_start (snd Scenario.update_run)
           Ref.Pkg_empty
           (ApplyFailed [("variable", [mkApplyErrBody "v_bad" "boom"])])).
  - reflexivity.
  - vm_compute. reflexivity.
Defined.

(** C4 (as stated) fails: in the failing apply of [pkg_update] the handler
    of the labels, recorded first, is invoked first and that of the
    telegraf configurations, recorded last, is invoked last. *)
Lemma Apply_rollbacks_not_in_reverse :
  (exists sum err, fst Scenario.update_run = Some (sum, Some err)) /\
  rollback_events (new_events Scenario.update_start (snd Scenario.update_run)) =
    ["label"; "variable"; "bucket"; "dashboard"; "notification_endpoints"; "telegrafs"] /\
  map resource (rollbacks (snd Scenario.update_run)) =
    ["label"; "variable"; "bucket"; "dashboard"; "notification_endpoints"; "telegrafs"] /\
  ~ rollbacks_in_reverse Scenario.update_start (snd Scenario.update_run).
Proof.
  split; [vm_compute; now eexists _, _|].
  split; [vm_compute; reflexivity|]. split; [vm_compute; reflexivity|].
  unfold rollbacks_in_reverse. vm_compute. discriminate.
Qed.

Section CreateFnClaims.
Context {W : Type} (P : Ports W) (O : PkgOps).

Lemma invoke_run {A} (c : Call) (f : W -> W * result A) (s : Sys W) :
  let r := invoke c f s in
  calls (snd r) = calls s ++ [(c, is_Ok (fst r))] /\
  rbl (snd r) = rbl s /\ pkg (snd r) = pkg s /\
  (world (snd r), fst r) = f (world s).
Proof. unfold invoke. destruct (f (world s)) as [w' r]. now repeat split. Qed.

Ltac port_step :=
  match goal with
  | |- context [invoke ?c ?f ?s] =>
      let H := fresh "Hinv" in
      pose proof (invoke_run c f s) as H; cbv zeta in H;
      destruct (invoke c f s) as [[?x|?e] ?s'];
      simpl in H; destruct H as (? & ? & ? & _)
  end.

Ltac finish_createFn :=
  simpl;
  first
    [ left; split; [reflexivity | left; reflexivity]
    | left; split; [assumption | right; eexists; split; [eassumption | discriminate]]
    | right; split; [reflexivity |];
      eexists; split; [| split; [eassumption |]];
      [exact I | simpl; try eexists; f_equal; congruence] ].

Lemma applyLabels_createFn_outcome ctx i orgID userID s :
  createFn_outcome ApLabels i s (applyLabels_createFn P O ctx i orgID userID s).
Proof.
  unfold createFn_outcome, applyLabels_createFn, bind, modify, gets, ret. simpl.
  destruct (_ !! i) as [l|]; [|finish_createFn].
  destruct (negb (label_shouldApply O l)); [finish_createFn|].
  unfold applyLabel. destruct (label_existing l);
    unfold svc_UpdateLabel, svc_CreateLabel; port_step; finish_createFn.
Qed.

Lemma applyVariables_createFn_outcome ctx i orgID userID s :
  createFn_outcome ApVariables i s (applyVariables_createFn P O ctx i orgID userID s).
Proof.
  unfold createFn_outcome, applyVariables_createFn, bind, modify, gets, ret. simpl.
  destruct (_ !! i) as [v|]; [|finish_createFn].
  destruct (negb (variable_shouldApply O v)); [finish_createFn|].
  unfold applyVariable. destruct (variable_existing v);
    unfold svc_UpdateVariable, svc_CreateVariable; port_step; finish_createFn.
Qed.

Lemma applyBuckets_createFn_outcome ctx i orgID userID s :
  createFn_outcome ApBuckets i s (applyBuckets_createFn P O ctx i orgID userID s).
Proof.
  unfold createFn_outcome, applyBuckets_createFn, bind, modify, gets, ret. simpl.
  destruct (_ !! i) as [b|]; [|finish_createFn].
  destruct (negb (bucket_shouldApply O b)); [finish_createFn|].
  unfold applyBucket. destruct (bucket_existing b);
    unfold svc_UpdateBucket, svc_CreateBucket; port_step; finish_createFn.
Qed.

Lemma applyDashboards_createFn_outcome ctx i orgID userID s :
  createFn_outcome ApDashboards i s (applyDashboards_createFn P O ctx i orgID userID s).
Proof.
  unfold createFn_outcome, applyDashboards_createFn, bind, modify, gets, ret. simpl.
  destruct (_ !! i) as [d|]; [|finish_createFn].
  unfold applyDashboard, svc_CreateDashboard; port_step; finish_createFn.
Qed.

Lemma applyNotificationEndpoints_createFn_outcome ctx i orgID userID s :
  createFn_outcome ApNotificationEndpoints i s
    (applyNotificationEndpoints_createFn P O ctx i orgID userID s).
Proof.
  unfold createFn_outcome, applyNotificationEndpoints_createFn, bind, modify, gets, ret.
  simpl.
  destruct (_ !! i) as [e|]; [|finish_createFn].
  unfold applyNotificationEndpoint. destruct (endpoint_existing e);
    unfold svc_UpdateNotificationEndpoint, svc_CreateNotificationEndpoint;
    port_step; finish_createFn.
Qed.

Lemma applyTelegrafs_createFn_outcome ctx i orgID userID s :
  createFn_outcome ApTelegrafs i s (applyTelegrafs_createFn P ctx i orgID userID s).
Proof.
  unfold createFn_outcome, applyTelegrafs_createFn, bind, modify, gets, ret. simpl.
  destruct (_ !! i) as [t|]; [|finish_createFn].
  unfold svc_CreateTelegrafConfig; port_step; finish_createFn.
Qed.

Lemma applyLabelMappings_createFn_outcome ms ctx i orgID userID s :
  createFn_outcome ApLabelMappings i s
    (applyLabelMappings_createFn P O ms ctx i orgID userID s).
Proof.
  unfold createFn_outcome, applyLabelMappings_createFn, bind, modify, gets, ret.
  destruct (ms !! i) as [m|]; [|finish_createFn].
  destruct (slm_exists m); [finish_createFn|].
  unfold svc_CreateLabelMapping; port_step; finish_createFn.
Qed.

(** C5.  Whatever the applier, its create function appends an item to the
    applier's rollback list only together with one create or update call
    on its port that returned success; in every other run the rollback
    lists are as they were.  A label mapping that the dry run marked as
    existing is passed over: no call is made and no state changes. *)
Theorem createFn_appends_only_on_success
  (cr : creater) (ctx : context) (i : nat) (orgID userID : ID) (s : Sys W) :
  createFn_outcome (creater_kind cr) i s (creater_fn P O cr ctx i orgID userID s) /\
  (forall mapping,
     creater_kind cr = ApLabelMappings ->
     creater_labelMappings cr !! i = Some mapping ->
     slm_exists mapping = true ->
     creater_fn P O cr ctx i orgID userID s = (None, s)).
Proof.
  split.
  - unfold creater_fn. destruct (creater_kind cr).
    + apply applyLabels_createFn_outcome.
    + apply applyVariables_createFn_outcome.
    + apply applyBuckets_createFn_outcome.
    + apply applyDashboards_createFn_outcome.
    + apply applyNotificationEndpoints_createFn_outcome.
    + apply applyTelegrafs_createFn_outcome.
    + apply applyLabelMappings_createFn_outcome.
  - intros mapping Hk Hm He. unfold creater_fn. rewrite Hk.
    unfold applyLabelMappings_createFn. now rewrite Hm, He.
Qed.

(** C10.  For a notification endpoint bound to a platform endpoint by the
    dry run, [applyNotificationEndpoint] makes exactly one call,
    [UpdateNotificationEndpoint], and its payload is the [existing]
    snapshot itself, not the endpoint the package declares
    ([summarize()]); the answer of the port is what it returns. *)
Theorem applyNotificationEndpoint_updates_with_existing
  (ctx : context) (e : notificationEndpoint) (existing : NotificationEndpoint)
  (userID : ID) (s : Sys W) :
  endpoint_existing e = Some existing ->
  let r := applyNotificationEndpoint P O ctx e userID s in
  calls (snd r) =
    calls s ++ [(CUpdateNotificationEndpoint (endpoint_ID O e) existing userID,
                 is_Ok (fst r))] /\
  (world (snd r), fst r) =
    UpdateNotificationEndpoint W P (world s) ctx (endpoint_ID O e) existing userID /\
  pkg (snd r) = pkg s /\ rbl (snd r) = rbl s.
Proof.
  intros He. unfold applyNotificationEndpoint. rewrite He.
  unfold svc_UpdateNotificationEndpoint.
  pose proof (invoke_run (CUpdateNotificationEndpoint (endpoint_ID O e) existing userID)
                (fun w => UpdateNotificationEndpoint W P w ctx (endpoint_ID O e)
                            existing userID) s) as H.
  cbv zeta in *. destruct H as (H1 & H2 & H3 & H4). now repeat split.
Qed.

End CreateFnClaims.

Lemma applyNotificationEndpoint_updates_with_existing_witness :
  calls (snd (applyNotificationEndpoint Mem.ports Ref.ops false Scenario.endpoint_bound
                Scenario.userID
                (Scenario.sys0 Scenario.platform_empty Ref.Pkg_empty))) =
  [(CUpdateNotificationEndpoint 9%N Scenario.platform_endpoint Scenario.userID, true)].
Proof.
  destruct (applyNotificationEndpoint_updates_with_existing Mem.ports Ref.ops false
              Scenario.endpoint_bound Scenario.platform_endpoint Scenario.userID
              (Scenario.sys0 Scenario.platform_empty Ref.Pkg_empty) eq_refl)
    as (H & _).
  exact H.
Defined.

Section RollbackFacts.
Context {W : Type} (P : Ports W) (O : PkgOps).

(** The compensating update of a bucket carries the description and the
    retention of the package's bucket: it is the update that
    [applyBucket] issued. *)
Lemma rollbackBucket_repeats_applyBucket (b : bucket) (existing : Bucket) (s : Sys W) :
  bucket_existing b = Some existing ->
  calls (snd (rollbackBucket P O b s)) =
    calls s ++ [(CUpdateBucket (bucket_ID O b)
                   (mkBucketUpdate (Some (bucket_Description b))
                      (Some (retentionRules_RP O (bucket_RetentionRules b)))),
                 is_Ok (fst (applyBucket P O context_Background b s)))].
Proof.
  intros He. unfold rollbackBucket, applyBucket. rewrite He.
  unfold bind, svc_UpdateBucket, invoke.
  destruct (UpdateBucket W P (world s) context_Background _ _) as [w' r].
  simpl. reflexivity.
Qed.

(** The compensating update of a label carries the properties of the
    snapshot. *)
Lemma rollbackLabel_restores (l : label) (existing : Label) (s : Sys W) :
  label_existing l = Some existing ->
  exists ok,
    calls (snd (rollbackLabel P O l s)) =
      calls s ++ [(CUpdateLabel (label_ID O l)
                     (mkLabelUpdate (Label_Properties existing)), ok)].
Proof.
  intros He. unfold rollbackLabel. rewrite He.
  unfold bind, svc_UpdateLabel, invoke.
  destruct (UpdateLabel W P (world s) context_Background _ _) as [w' r].
  simpl. now eexists.
Qed.

(** The compensating update of a variable carries the description and the
    arguments of the snapshot. *)
Lemma rollbackVariable_restores (v : variable) (existing : InfluxVariable) (s : Sys W) :
  variable_existing v = Some existing ->
  exists ok,
    calls (snd (rollbackVariable P O v s)) =
      calls s ++ [(CUpdateVariable (variable_ID O v)
                     (mkVariableUpdate (Variable_Description existing)
                                       (Variable_Arguments existing)), ok)].
Proof.
  intros He. unfold rollbackVariable. rewrite He.
  unfold bind, svc_UpdateVariable, invoke.
  destruct (UpdateVariable W P (world s) context_Background _ _) as [w' r].
  simpl. now eexists.
Qed.

End RollbackFacts.

(** C1 fails for buckets.  The platform holds the bucket [b1] with the
    description "old" and a retention of 60; the package declares it with
    "new" and 3600 seconds.  The apply updates the bucket, fails on a
    variable and rolls back: the compensating call repeats the package's
    values, and the platform keeps "new" and 3600 seconds. *)
Lemma rollbackBuckets_does_not_restore :
  Mem.w_buckets Scenario.platform_b1 = [mkBucket 7%N 1%N "b1" "old" 60%Z] /\
  (exists sum err, fst Scenario.update_run = Some (sum, Some err)) /\
  last (calls (sys (snd Scenario.update_run))) =
    Some (CUpdateBucket 7%N (mkBucketUpdate (Some "new") (Some 3600000000000%Z)), true) /\
  Mem.w_buckets (world (sys (snd Scenario.update_run))) =
    [mkBucket 7%N 1%N "b1" "new" 3600000000000%Z].
Proof.
  split; [reflexivity|]. split; [vm_compute; now eexists _, _|].
  split; vm_compute; reflexivity.
Qed.

(** C7 fails.  The label and the first bucket are created, the context is
    cancelled, the create of the second bucket fails: the error is
    dropped, [Apply] returns no error, no rollback handler runs, and what
    was created stays on the platform. *)
Lemma Apply_cancelled_reports_success :
  (exists sum, fst Scenario.cancel_run = Some (sum, None)) /\
  done (snd Scenario.cancel_run) = true /\
  last (calls (sys (snd Scenario.cancel_run))) =
    Some (CCreateBucket (mkBucket 0%N 1%N "B2" "d" 3600000000000%Z), false) /\
  rollback_events (trace (snd Scenario.cancel_run)) = [] /\
  map Label_Name (Mem.w_labels (world (sys (snd Scenario.cancel_run)))) = ["L1"] /\
  map Bucket_Name (Mem.w_buckets (world (sys (snd Scenario.cancel_run)))) = ["B1"].
Proof.
  split; [vm_compute; now eexists|].
  repeat split; vm_compute; reflexivity.
Qed.

(** C9 fails.  The telegraf configuration has no entry in the priority
    table, so it goes before the label. *)
Lemma CreatePkg_sort_telegraf_first :
  CreatePkg_sort Scenario.cloned =
    [ mkResource KindTelegraf "t"; mkResource KindLabel "l" ] /\
  ~ StronglySorted documented_order (CreatePkg_sort Scenario.cloned).
Proof.
  split; [reflexivity|].
  intros H. vm_compute in H. inversion H as [|? ? _ Hall]; subst.
  inversion Hall as [|? ? Hord _]; subst.
  destruct Hord as [Hlt | (Hk & _)].
  - vm_compute in Hlt. discriminate Hlt.
  - discriminate Hk.
Qed.

(** ** The scenarios of the specification, run *)

(** The calls of a run that write to the platform. *)
Example s1_creates_one_bucket :
  (exists sum, fst Scenario.s1_run = Some (sum, None)) /\
  List.filter (fun c => mutating (fst c)) (calls (sys (snd Scenario.s1_run))) =
    [(CCreateBucket (mkBucket 0%N 1%N "b1" "" 3600000000000%Z), true)] /\
  rollback_events (trace (snd Scenario.s1_run)) = [].
Proof. split; [vm_compute; now eexists|]. split; vm_compute; reflexivity. Qed.

Example s2_updates_the_bucket :
  (exists sum, fst Scenario.s2_run = Some (sum, None)) /\
  List.filter (fun c => mutating (fst c)) (calls (sys (snd Scenario.s2_run))) =
    [(CUpdateBucket 7%N (mkBucketUpdate (Some "") (Some 3600000000000%Z)), true)] /\
  rollback_events (trace (snd Scenario.s2_run)) = [].
Proof. split; [vm_compute; now eexists|]. split; vm_compute; reflexivity. Qed.

Example s3_label_failure_rolls_back :
  (exists sum, fst Scenario.s3_run =
     Some (sum, Some (ApplyFailed [("label", [mkApplyErrBody "L2" "boom"])]))) /\
  map fst (List.filter (fun c => mutating (fst c))
                       (calls (sys (snd Scenario.s3_run)))) =
    [ CCreateLabel (mkLabel 0%N 1%N "L1" [("color", "red"); ("description", "")]);
      CCreateLabel (mkLabel 0%N 1%N "L2" [("color", "red"); ("description", "")]);
      CDeleteLabel 100%N ] /\
  rollback_events (trace (snd Scenario.s3_run)) = ["label"] /\
  Mem.w_labels (world (sys (snd Scenario.s3_run))) = [].
Proof.
  split; [vm_compute; now eexists|]. repeat split; vm_compute; reflexivity.
Qed.

Example s5_secrets_missing :
  (exists sum, fst Scenario.s5_run =
     Some (sum, Some (SecretsMissing ["pagerduty-routing-key"]))) /\
  List.filter (fun c => mutating (fst c)) (calls (sys (snd Scenario.s5_run))) = [].
Proof. split; [vm_compute; now eexists|]. vm_compute. reflexivity. Qed.

(** The failing apply of [pkg_update] behind a label service that refuses
    to delete: the error returned is that of the variable, the error of
    the labels' rollback handler is in the log. *)
Example stuck_rollback_is_logged :
  fst Scenario.stuck_run =
    Some (Ref.Pkg_empty,
          Some (ApplyFailed [("variable", [mkApplyErrBody "v_bad" "boom"])])) /\
  logged (snd Scenario.stuck_run) =
    [("failed to delete label", RollbackFailed "label" ["100"])] /\
  rollback_events (trace (snd Scenario.stuck_run)) =
    ["label"; "variable"; "bucket"; "dashboard"; "notification_endpoints"; "telegrafs"].
Proof. repeat split; vm_compute; reflexivity. Qed.

(** The dry run of [pkg_update] on the platform that holds [b1]: the slot
    of the bucket holds the bucket of the platform. *)
Example dry_run_binds_the_bucket :
  map bucket_existing (pBuckets (pkg (snd Scenario.update_dry))) =
    [Some (mkBucket 7%N 1%N "b1" "old" 60%Z)] /\
  isVerified (pkg (snd Scenario.update_dry)) = true.
Proof. split; vm_compute; reflexivity. Qed.

(** The dry run of [pkg_labelled]: the mapping of the diff is recorded on
    the label [L1] as one that does not exist yet. *)
Example dry_run_records_the_mapping :
  map (fun d => (DiffLabelMapping_ResName d, DiffLabelMapping_LabelName d,
                 DiffLabelMapping_IsNew d))
      (Diff_LabelMappings (snd (fst (fst Scenario.labelled_dry)))) =
    [("B1", "L1", true)] /\
  map label_mappings (pLabels (pkg (snd Scenario.labelled_dry))) =
    [[mkLabelMapRec "buckets" "B1" false]].
Proof. split; vm_compute; reflexivity. Qed.

(** The diff of [pkg_by_name], whose buckets and labels the package lists
    out of order: every section comes out by name. *)
Example dry_run_by_name :
  let d := snd (fst (fst Scenario.by_name_dry)) in
  map DiffBucket_Name (Diff_Buckets d) = ["B1"; "B2"] /\
  map DiffLabel_Name (Diff_Labels d) = ["L1"; "L2"] /\
  map DiffDashboard_Name (Diff_Dashboards d) = ["a"; "b"] /\
  map (fun t => TelegrafConfig_Name (DiffTelegraf_Config t)) (Diff_Telegrafs d) =
    ["s"; "t"] /\
  map (fun m => (DiffLabelMapping_ResName m, DiffLabelMapping_LabelName m))
      (Diff_LabelMappings d) = [("B1", "L1"); ("B2", "L1"); ("B2", "L2")].
Proof. cbv zeta. repeat split; vm_compute; reflexivity. Qed.

(** The successful apply of S1 went through the three groups, each with a
    verdict of no error, and ran the one worker of the bucket. *)
Example s1_runs_the_three_groups :
  (exists sum, fst Scenario.s1_run = Some (sum, None)) /\
  trace (snd Scenario.s1_run) =
    [EvGroupEnd None; EvCreate "bucket" 0; EvGroupEnd None; EvGroupEnd None].
Proof. split; [vm_compute; now eexists | vm_compute; reflexivity]. Qed.
